(** * Data-resolution core of the knowledge-graph pipeline

    A shallow embedding of [data_resolution/entity_resolver.py],
    [data_resolution/relationship_resolver.py],
    [data_resolution/connection_discoverer.py] and of the pipeline steps of
    [data_resolution/run_resolution.py], together with the properties the
    specification states about them.

    Conventions of the embedding:
    - Python [float]s are exact rationals ([Q]); every number the code
      compares is obtained by the same operations in the same order, but
      without the rounding of binary floating point, so that a computed sum
      or quotient can differ from the program's in the last place.
    - Python [dict]s whose iteration order the code relies on are
      association lists in insertion order ([Dict]).
    - The [self.*] attributes a resolver mutates are an explicit state that
      is threaded through a small state-and-error monad ([M]).
    - pydantic's field constraints ([ge=0.0, le=1.0]) are checked where the
      source builds a record; a failed check is a [ValidationError].
    - uuids, timestamps, free-form [metadata] and evidence strings are not
      part of the model: no control flow reads them. *)

From Stdlib Require Import Bool Arith ZArith QArith Qabs Qminmax Lia Lqa.
From Stdlib Require Import List String Ascii.
From Stdlib Require Import Sorted Permutation.
Import ListNotations.

Local Open Scope string_scope.
Local Open Scope list_scope.
Local Open Scope Q_scope.

(* ------------------------------------------------------------------ *)
(** ** Python built-ins used by the resolvers *)

Module Py.

(** [str.lower] / [str.upper] on the ASCII range. *)
Definition is_upper (c : ascii) : bool :=
  let n := nat_of_ascii c in (65 <=? n)%nat && (n <=? 90)%nat.

Definition is_lower (c : ascii) : bool :=
  let n := nat_of_ascii c in (97 <=? n)%nat && (n <=? 122)%nat.

Definition lower_char (c : ascii) : ascii :=
  if is_upper c then ascii_of_nat (nat_of_ascii c + 32) else c.

Definition upper_char (c : ascii) : ascii :=
  if is_lower c then ascii_of_nat (nat_of_ascii c - 32) else c.

Fixpoint lower (s : string) : string :=
  match s with
  | EmptyString => EmptyString
  | String c s' => String (lower_char c) (lower s')
  end.

Fixpoint upper (s : string) : string :=
  match s with
  | EmptyString => EmptyString
  | String c s' => String (upper_char c) (upper s')
  end.

(** [str.isspace] on the ASCII range: space, TAB..CR and FS..US. *)
Definition is_space (c : ascii) : bool :=
  let n := nat_of_ascii c in
  (n =? 32)%nat || ((9 <=? n)%nat && (n <=? 13)%nat)
  || ((28 <=? n)%nat && (n <=? 31)%nat).

Fixpoint lstrip (s : string) : string :=
  match s with
  | EmptyString => EmptyString
  | String c s' => if is_space c then lstrip s' else s
  end.

(** Drops the trailing whitespace: a character is kept when it is not a
    space or when something survives after it. *)
Fixpoint rstrip (s : string) : string :=
  match s with
  | EmptyString => EmptyString
  | String c s' =>
      match rstrip s' with
      | EmptyString => if is_space c then EmptyString else String c EmptyString
      | r => String c r
      end
  end.

Definition strip (s : string) : string := rstrip (lstrip s).

(** Membership in [string.punctuation]. *)
Definition is_punctuation (c : ascii) : bool :=
  let n := nat_of_ascii c in
  ((33 <=? n)%nat && (n <=? 47)%nat) || ((58 <=? n)%nat && (n <=? 64)%nat)
  || ((91 <=? n)%nat && (n <=? 96)%nat) || ((123 <=? n)%nat && (n <=? 126)%nat).

(** [s.translate(...)] with the table that deletes [string.punctuation]. *)
Fixpoint remove_punctuation (s : string) : string :=
  match s with
  | EmptyString => EmptyString
  | String c s' =>
      if is_punctuation c then remove_punctuation s'
      else String c (remove_punctuation s')
  end.

(** [" " in s]. *)
Fixpoint contains_space (s : string) : bool :=
  match s with
  | EmptyString => false
  | String c s' => Ascii.eqb c " "%char || contains_space s'
  end.

(** [s.split()]: maximal runs of non-whitespace characters.  [cur] is the
    word being read, in reverse. *)
Fixpoint rev_string (acc : string) (l : list ascii) : string :=
  match l with
  | [] => acc
  | c :: l' => rev_string (String c acc) l'
  end.

Fixpoint split_aux (cur : list ascii) (s : string) : list string :=
  match s with
  | EmptyString =>
      match cur with [] => [] | _ => [rev_string EmptyString cur] end
  | String c s' =>
      if is_space c then
        match cur with
        | [] => split_aux [] s'
        | _ => rev_string EmptyString cur :: split_aux [] s'
        end
      else split_aux (c :: cur) s'
  end.

Definition split (s : string) : list string := split_aux [] s.

(** [sep.join(l)]. *)
Fixpoint join (sep : string) (l : list string) : string :=
  match l with
  | [] => EmptyString
  | [x] => x
  | x :: l' => (x ++ sep ++ join sep l')%string
  end.

(** [len(s)] as an integer. *)
Definition len (s : string) : Z := Z.of_nat (String.length s).

(** Truthiness of an [Optional[str]]: neither [None] nor empty. *)
Definition truthy (o : option string) : bool :=
  match o with
  | Some (String _ _) => true
  | _ => false
  end.

(** [o or ''], the empty string for [None]. *)
Definition or_empty (o : option string) : string :=
  match o with
  | Some s => s
  | None => EmptyString
  end.

(** [max(l, key=...)]: the first element whose key is not exceeded.
    [gt x y] says that the key of [x] is strictly above the key of [y]. *)
Fixpoint max_from {A : Type} (gt : A -> A -> bool) (best : A) (l : list A) : A :=
  match l with
  | [] => best
  | x :: l' => max_from gt (if gt x best then x else best) l'
  end.

Definition max_by {A : Type} (gt : A -> A -> bool) (l : list A) : option A :=
  match l with
  | [] => None
  | x :: l' => Some (max_from gt x l')
  end.

(** Comparisons of floats. *)
Definition Qgeb (a b : Q) : bool := Qle_bool b a.
Definition Qgtb (a b : Q) : bool := negb (Qle_bool a b).
Definition Qltb (a b : Q) : bool := negb (Qle_bool b a).

(** [sum(l)] and [max(l)] over floats. *)
Definition sum (l : list Q) : Q := fold_left Qplus l 0.

Definition Qmaxb (a b : Q) : Q := if Qgtb b a then b else a.

(** [min(a, b)] returns [a] unless [b] is strictly smaller. *)
Definition Qminb (a b : Q) : Q := if Qltb b a then b else a.

Definition max_list (l : list Q) : option Q := max_by Qgtb l.

End Py.

(* ------------------------------------------------------------------ *)
(** ** Insertion-ordered dictionaries *)

Section Dict.
Context {K V : Type}.
Variable eqb : K -> K -> bool.

Definition Dict := list (K * V).

Fixpoint dict_get (d : Dict) (k : K) : option V :=
  match d with
  | [] => None
  | (k', v) :: d' => if eqb k k' then Some v else dict_get d' k
  end.

Definition dict_mem (d : Dict) (k : K) : bool :=
  match dict_get d k with Some _ => true | None => false end.

(** [d[k] = v]: an existing key keeps its position. *)
Fixpoint dict_set (d : Dict) (k : K) (v : V) : Dict :=
  match d with
  | [] => [(k, v)]
  | (k', v') :: d' =>
      if eqb k k' then (k', v) :: d' else (k', v') :: dict_set d' k v
  end.

(** [del d[k]]. *)
Fixpoint dict_del (d : Dict) (k : K) : Dict :=
  match d with
  | [] => []
  | (k', v') :: d' => if eqb k k' then d' else (k', v') :: dict_del d' k
  end.

Definition dict_keys (d : Dict) : list K := map fst d.
Definition dict_values (d : Dict) : list V := map snd d.
End Dict.

Arguments Dict : clear implicits.

Section GroupBy.
Context {K A : Type}.
Variable eqb : K -> K -> bool.
Variable key : A -> K.

(** [d[k].append(x)] on a [defaultdict(list)]. *)
Fixpoint dict_append (d : Dict K (list A)) (k : K) (x : A) : Dict K (list A) :=
  match d with
  | [] => [(k, [x])]
  | (k', xs) :: d' =>
      if eqb k k' then (k', xs ++ [x]) :: d' else (k', xs) :: dict_append d' k x
  end.

(** [for x in l: d[key(x)].append(x)]. *)
Definition group_by (l : list A) : Dict K (list A) :=
  fold_left (fun d x => dict_append d (key x) x) l [].
End GroupBy.

(* ------------------------------------------------------------------ *)
(** ** Validation failures and the resolver monad *)

(** The exceptions the modelled code can raise: a pydantic constraint
    violation when a record is built, [max()] of an empty sequence, an index
    past the end of a list, or a division by zero. *)
Inductive Exn : Type :=
| ValidationError (field : string)
| ValueError
| IndexError
| ZeroDivisionError.

Inductive Result (A : Type) : Type :=
| Ok (a : A)
| Error (e : Exn).

Arguments Ok {A} a.
Arguments Error {A} e.


(** A computation over the resolver's attributes [S] that may raise. *)
Definition M (S A : Type) : Type := S -> Result (A * S).

Definition ret {S A : Type} (a : A) : M S A := fun s => Ok (a, s).

Definition bind {S A B : Type} (m : M S A) (f : A -> M S B) : M S B :=
  fun s =>
    match m s with
    | Ok (a, s') => f a s'
    | Error e => Error e
    end.

Definition get {S : Type} : M S S := fun s => Ok (s, s).
Definition put {S : Type} (s : S) : M S unit := fun _ => Ok (tt, s).
Definition modify {S : Type} (f : S -> S) : M S unit := fun s => Ok (tt, f s).
Definition raise {S A : Type} (e : Exn) : M S A := fun _ => Error e.

Declare Scope monad_scope.
Delimit Scope monad_scope with monad.
Notation "x <- m ;; f" := (bind m (fun x => f))
  (at level 61, m at next level, right associativity) : monad_scope.
Notation "m ;;; f" := (bind m (fun _ => f))
  (at level 61, right associativity) : monad_scope.

Local Open Scope monad_scope.

(** [for x in l: body(x)]. *)
Fixpoint for_each {S A : Type} (l : list A) (body : A -> M S unit) : M S unit :=
  match l with
  | [] => ret tt
  | x :: l' => body x ;;; for_each l' body
  end.

(** [for x in l: out.append(body(x))]. *)
Fixpoint for_append {S A B : Type} (l : list A) (body : A -> M S B)
  : M S (list B) :=
  match l with
  | [] => ret []
  | x :: l' => y <- body x ;; zs <- for_append l' body ;; ret (y :: zs)
  end.

(** [for x in l: out.extend(body(x))]. *)
Fixpoint for_extend {S A B : Type} (l : list A) (body : A -> M S (list B))
  : M S (list B) :=
  match l with
  | [] => ret []
  | x :: l' => ys <- body x ;; zs <- for_extend l' body ;; ret (ys ++ zs)
  end.

(** The check behind [Field(ge=0.0, le=1.0)]. *)
Definition in_unit_interval (q : Q) : bool := Qle_bool 0 q && Qle_bool q 1.

Definition check_unit {S : Type} (field : string) (q : Q) : M S unit :=
  if in_unit_interval q then ret tt else raise (ValidationError field).

(* ------------------------------------------------------------------ *)
(** ** External libraries

    [rapidfuzz.fuzz] and [math.sqrt] are not part of the repository; the
    resolvers are written against this interface. *)

Class Fuzz : Type := {
  partial_ratio : string -> string -> Q;
  ratio : string -> string -> Q
}.

Class Math : Type := {
  sqrt : Q -> Q
}.

(** Both ratios are percentages. *)
Class FuzzLaws (F : Fuzz) : Prop := {
  partial_ratio_range : forall a b, 0 <= partial_ratio a b <= 100;
  ratio_range : forall a b, 0 <= ratio a b <= 100
}.

(* ------------------------------------------------------------------ *)
(** ** Data model ([entity_extraction/models.py], [data_resolution/models.py]) *)

Inductive EntityType : Type :=
| KPI | TABLE | COLUMN | METRIC | DATA_SOURCE | DOMAIN | FORMULA | DEFINITION.

Inductive PredicateType : Type :=
| HAS_DEFINITION | CALCULATED_BY | BELONGS_TO | CONTAINS | HAS_TYPE
| DEPENDS_ON | DERIVED_FROM | MEASURES | LOCATED_IN.

Scheme Equality for EntityType.
Scheme Equality for PredicateType.

(** The [.value] of the members of [PredicateType]. *)
Definition predicate_value (p : PredicateType) : string :=
  match p with
  | HAS_DEFINITION => "hasDefinition" | CALCULATED_BY => "calculatedBy"
  | BELONGS_TO => "belongsTo" | CONTAINS => "contains" | HAS_TYPE => "hasType"
  | DEPENDS_ON => "dependsOn" | DERIVED_FROM => "derivedFrom"
  | MEASURES => "measures" | LOCATED_IN => "locatedIn"
  end.

(** Attribute values enter the code only through [str(v)]. *)
Record Entity : Type := {
  ent_id : string;
  ent_type : EntityType;
  ent_name : string;
  ent_description : option string;
  ent_confidence : Q;
  ent_attributes : Dict string string;
  ent_source_chunk_id : option string
}.

Record Relationship : Type := {
  rel_id : string;
  subject_id : string;
  predicate : PredicateType;
  object_id : string;
  rel_confidence : Q;
  context : option string;
  rel_source_chunk_id : option string
}.


Definition valid_relationship (r : Relationship) : Prop :=
  0 <= rel_confidence r <= 1.

Inductive ResolutionActionType : Type :=
| MERGE | KEEP_CANONICAL | MARK_DUPLICATE | CREATE_NEW_RELATIONSHIP
| CONSOLIDATE_RELATIONSHIPS.

Record EntityResolutionDecision : Type := {
  canonical_entity_id : string;
  duplicate_entity_ids : list string;
  similarity_score : Q;
  resolution_method : string;
  erd_confidence : Q
}.

Record RelationshipResolutionDecision : Type := {
  action : ResolutionActionType;
  canonical_relationship_id : string;
  merged_relationship_ids : list string;
  consolidated_confidence : Q;
  consolidation_method : string
}.

Record ConnectionDiscovery : Type := {
  subject_entity_id : string;
  object_entity_id : string;
  suggested_predicate : PredicateType;
  cd_confidence : Q;
  discovery_method : string
}.

(** The constructors, with the constraints of the [Field] declarations. *)
Definition new_Relationship {S : Type} (i s : string) (p : PredicateType)
  (o : string) (c : Q) (ctx src : option string) : M S Relationship :=
  check_unit "confidence" c ;;;
  ret {| rel_id := i; subject_id := s; predicate := p; object_id := o;
         rel_confidence := c; context := ctx; rel_source_chunk_id := src |}.

Definition new_EntityResolutionDecision {S : Type} (canonical : string)
  (duplicates : list string) (score : Q) (method : string) (conf : Q)
  : M S EntityResolutionDecision :=
  check_unit "similarity_score" score ;;;
  check_unit "confidence" conf ;;;
  ret {| canonical_entity_id := canonical; duplicate_entity_ids := duplicates;
         similarity_score := score; resolution_method := method;
         erd_confidence := conf |}.

Definition new_RelationshipResolutionDecision {S : Type}
  (a : ResolutionActionType) (canonical : string) (merged : list string)
  (conf : Q) (method : string) : M S RelationshipResolutionDecision :=
  check_unit "consolidated_confidence" conf ;;;
  ret {| action := a; canonical_relationship_id := canonical;
         merged_relationship_ids := merged; consolidated_confidence := conf;
         consolidation_method := method |}.

Definition new_ConnectionDiscovery {S : Type} (s o : string)
  (p : PredicateType) (conf : Q) (method : string) : M S ConnectionDiscovery :=
  check_unit "confidence" conf ;;;
  ret {| subject_entity_id := s; object_entity_id := o;
         suggested_predicate := p; cd_confidence := conf;
         discovery_method := method |}.

(* ------------------------------------------------------------------ *)
(** ** [RelationshipResolver] ([data_resolution/relationship_resolver.py]) *)

Module RelationshipResolver.

(** [self.resolution_decisions]. *)
Definition State : Type := list RelationshipResolutionDecision.

Definition record_decision (d : RelationshipResolutionDecision) : M State unit :=
  modify (fun ds => ds ++ [d]).

Section Resolver.
(** [self.confidence_consolidation_method]. *)
Variable confidence_consolidation_method : string.

Definition rewrite_one (entity_id_mapping : Dict string string)
  (relationship : Relationship) : M State Relationship :=
  let new_subject_id :=
    match dict_get String.eqb entity_id_mapping (subject_id relationship) with
    | Some c => c
    | None => subject_id relationship
    end in
  let new_object_id :=
    match dict_get String.eqb entity_id_mapping (object_id relationship) with
    | Some c => c
    | None => object_id relationship
    end in
  if negb (String.eqb new_subject_id (subject_id relationship))
     || negb (String.eqb new_object_id (object_id relationship))
  then new_Relationship (rel_id relationship) new_subject_id
         (predicate relationship) new_object_id (rel_confidence relationship)
         (context relationship) (rel_source_chunk_id relationship)
  else ret relationship.

Definition _update_relationship_entity_ids (relationships : list Relationship)
  (entity_id_mapping : Dict string string) : M State (list Relationship) :=
  for_append relationships (rewrite_one entity_id_mapping).

(** The key of [max]: [(r.confidence, len(r.context or ''), r.id)], compared
    as Python compares tuples. *)
Definition best_key_gt (x y : Relationship) : bool :=
  if Py.Qgtb (rel_confidence x) (rel_confidence y) then true
  else if Py.Qgtb (rel_confidence y) (rel_confidence x) then false
  else
    let lx := Py.len (Py.or_empty (context x)) in
    let ly := Py.len (Py.or_empty (context y)) in
    if (ly <? lx)%Z then true
    else if (lx <? ly)%Z then false
    else String.ltb (rel_id y) (rel_id x).

Definition _select_best_relationship (relationships : list Relationship)
  : M State Relationship :=
  match Py.max_by best_key_gt relationships with
  | Some r => ret r
  | None => raise ValueError
  end.

Definition other_ids (best : Relationship) (group : list Relationship)
  : list string :=
  map rel_id (filter (fun r => negb (String.eqb (rel_id r) (rel_id best))) group).

Definition canonical_key (r : Relationship) : string * PredicateType * string :=
  (subject_id r, predicate r, object_id r).

Definition canonical_key_eqb (a b : string * PredicateType * string) : bool :=
  let '(s1, p1, o1) := a in
  let '(s2, p2, o2) := b in
  String.eqb s1 s2 && PredicateType_beq p1 p2 && String.eqb o1 o2.

Definition dedup_group (group_relationships : list Relationship)
  : M State Relationship :=
  match group_relationships with
  | [r] => ret r
  | _ =>
      best_relationship <- _select_best_relationship group_relationships ;;
      let duplicate_ids := other_ids best_relationship group_relationships in
      match duplicate_ids with
      | [] => ret best_relationship
      | _ =>
          decision <- new_RelationshipResolutionDecision KEEP_CANONICAL
                        (rel_id best_relationship) duplicate_ids
                        (rel_confidence best_relationship)
                        "exact_duplicate_removal" ;;
          record_decision decision ;;;
          ret best_relationship
      end
  end.

Definition _remove_exact_duplicates (relationships : list Relationship)
  : M State (list Relationship) :=
  let canonical_groups := group_by canonical_key_eqb canonical_key relationships in
  for_append (dict_values canonical_groups) dedup_group.

(** [sum(confidences) / len(confidences)]: of no confidence at all it is a
    division by zero. *)
Definition mean (confidences : list Q) : M State Q :=
  match confidences with
  | [] => raise ZeroDivisionError
  | _ => ret (Py.sum confidences / inject_Z (Z.of_nat (List.length confidences)))
  end.

Definition _consolidate_confidence_scores (relationships : list Relationship)
  : M State Q :=
  match relationships with
  | [r] => ret (rel_confidence r)
  | _ =>
      let confidences := map rel_confidence relationships in
      let maximum :=
        match Py.max_list confidences with
        | Some m => ret m
        | None => raise ValueError
        end in
      if String.eqb confidence_consolidation_method "max" then maximum
      else if String.eqb confidence_consolidation_method "average" then
        mean confidences
      else if String.eqb confidence_consolidation_method "weighted" then
        let weights :=
          map (fun r => Z.max 1 (Py.len (Py.or_empty (context r)))) relationships in
        let total_weight := fold_left Z.add weights 0%Z in
        let weighted_sum :=
          Py.sum (map (fun cw => fst cw * inject_Z (snd cw))
                      (combine confidences weights)) in
        if (0 <? total_weight)%Z then ret (weighted_sum / inject_Z total_weight)
        else mean confidences
      else maximum
  end.

(** The loop of [_merge_contexts] that drops repeated contexts; [seen] holds
    the lowered and stripped contexts met so far. *)
Fixpoint unique_contexts (seen : list string) (contexts : list string)
  : list string :=
  match contexts with
  | [] => []
  | ctx :: rest =>
      let context_lower := Py.strip (Py.lower ctx) in
      if existsb (String.eqb context_lower) seen
      then unique_contexts seen rest
      else Py.strip ctx :: unique_contexts (context_lower :: seen) rest
  end.

Definition _merge_contexts (relationships : list Relationship) : option string :=
  let contexts :=
    flat_map (fun r =>
                match context r with
                | Some c =>
                    if Py.truthy (Some c) && Py.truthy (Some (Py.strip c))
                    then [c] else []
                | None => []
                end) relationships in
  match contexts with
  | [] => None
  | [c] => Some c
  | _ =>
      match unique_contexts [] contexts with
      | [] => None
      | [u] => Some u
      | us => Some (Py.join " | " us)
      end
  end.

Definition _consolidate_predicate_group (relationships : list Relationship)
  : M State Relationship :=
  match relationships with
  | [r] => ret r
  | _ =>
      base_relationship <- _select_best_relationship relationships ;;
      consolidated_confidence <- _consolidate_confidence_scores relationships ;;
      let consolidated_context := _merge_contexts relationships in
      consolidated_relationship <-
        new_Relationship (rel_id base_relationship) (subject_id base_relationship)
          (predicate base_relationship) (object_id base_relationship)
          consolidated_confidence consolidated_context
          (rel_source_chunk_id base_relationship) ;;
      let merged_ids := other_ids base_relationship relationships in
      match merged_ids with
      | [] => ret consolidated_relationship
      | _ =>
          decision <- new_RelationshipResolutionDecision CONSOLIDATE_RELATIONSHIPS
                        (rel_id base_relationship) merged_ids
                        consolidated_confidence
                        ("predicate_group_" ++ confidence_consolidation_method)%string ;;
          record_decision decision ;;;
          ret consolidated_relationship
      end
  end.

Definition _consolidate_relationship_group (relationships : list Relationship)
  : M State (list Relationship) :=
  match relationships with
  | [] | [_] => ret relationships
  | _ =>
      let predicate_groups := group_by PredicateType_beq predicate relationships in
      for_append (dict_values predicate_groups) _consolidate_predicate_group
  end.

(** [tuple(sorted([r.subject_id, r.object_id]))]. *)
Definition pair_key (r : Relationship) : string * string :=
  if String.ltb (object_id r) (subject_id r)
  then (object_id r, subject_id r)
  else (subject_id r, object_id r).

Definition pair_key_eqb (a b : string * string) : bool :=
  String.eqb (fst a) (fst b) && String.eqb (snd a) (snd b).

Definition _consolidate_similar_relationships (relationships : list Relationship)
  : M State (list Relationship) :=
  let entity_pair_groups := group_by pair_key_eqb pair_key relationships in
  for_extend (dict_values entity_pair_groups)
    (fun group_relationships =>
       match group_relationships with
       | [r] => ret [r]
       | _ => _consolidate_relationship_group group_relationships
       end).

Definition resolve_relationships (relationships : list Relationship)
  (entity_id_mapping : Dict string string) : M State (list Relationship) :=
  put [] ;;;
  updated_relationships <-
    match entity_id_mapping with
    | [] => ret relationships
    | _ => _update_relationship_entity_ids relationships entity_id_mapping
    end ;;
  deduplicated_relationships <- _remove_exact_duplicates updated_relationships ;;
  _consolidate_similar_relationships deduplicated_relationships.

End Resolver.

(** A fresh resolver: [RelationshipResolver(method).resolve_relationships(...)]
    returns the relationships and [self.resolution_decisions]. *)
Definition run (method : string) (relationships : list Relationship)
  (entity_id_mapping : Dict string string)
  : Result (list Relationship * list RelationshipResolutionDecision) :=
  resolve_relationships method relationships entity_id_mapping [].

End RelationshipResolver.

(* ------------------------------------------------------------------ *)
(** ** [EntityResolver] ([data_resolution/entity_resolver.py]) *)

Module EntityResolver.

(** [self.canonical_entities] and [self.resolution_decisions]. *)
Record State : Type := {
  canonical_entities : Dict string Entity;
  resolution_decisions : list EntityResolutionDecision
}.

Definition initial : State :=
  {| canonical_entities := []; resolution_decisions := [] |}.

Definition set_canonical (e : Entity) : M State unit :=
  modify (fun st =>
            {| canonical_entities :=
                 dict_set String.eqb (canonical_entities st) (ent_id e) e;
               resolution_decisions := resolution_decisions st |}).

Definition record_decision (d : EntityResolutionDecision) : M State unit :=
  modify (fun st =>
            {| canonical_entities := canonical_entities st;
               resolution_decisions := resolution_decisions st ++ [d] |}).

Definition clean_entity_name (name : string) : string :=
  Py.remove_punctuation (Py.strip (Py.lower name)).

Definition enumerate {A : Type} (l : list A) : list (nat * A) :=
  combine (seq 0 (List.length l)) l.

Section Resolver.
Context {F : Fuzz}.
Variable similarity_threshold : Q.
Variable acronym_threshold : Q.
Variable enable_acronym_matching : bool.

Definition _group_entities_by_type (entities : list Entity)
  : Dict EntityType (list Entity) :=
  group_by EntityType_beq ent_type entities.

Definition name_in (name : string) (names : list string) : bool :=
  existsb (String.eqb name) names.

(** The inner loop of [_group_entities_by_fuzzy_match]: the names, not yet
    used, that are similar enough to [name]. *)
Definition similar_unused_names (unique_names used_names : list string)
  (name : string) : list string :=
  filter (fun other_name =>
            negb (name_in other_name used_names)
            && Py.Qgeb (partial_ratio (clean_entity_name name)
                                      (clean_entity_name other_name))
                       similarity_threshold)
         unique_names.

Definition bucket (name_to_entities : Dict string (list Entity)) (name : string)
  : list Entity :=
  match dict_get String.eqb name_to_entities name with
  | Some es => es
  | None => []
  end.

(** The outer loop, over the names still to visit. *)
Fixpoint cluster_loop (name_to_entities : Dict string (list Entity))
  (unique_names names used_names : list string)
  (clustered : Dict string (list Entity)) : Dict string (list Entity) :=
  match names with
  | [] => clustered
  | name :: rest =>
      if name_in name used_names
      then cluster_loop name_to_entities unique_names rest used_names clustered
      else
        let cluster_used_names :=
          similar_unused_names unique_names used_names name in
        let cluster_entities :=
          flat_map (bucket name_to_entities) cluster_used_names in
        match cluster_entities with
        | [] => cluster_loop name_to_entities unique_names rest used_names clustered
        | _ =>
            cluster_loop name_to_entities unique_names rest
              (used_names ++ cluster_used_names)
              (dict_set String.eqb clustered name cluster_entities)
        end
  end.

Definition _group_entities_by_fuzzy_match (entities : list Entity)
  : Dict string (list Entity) :=
  let name_to_entities := group_by String.eqb ent_name entities in
  let unique_names := dict_keys name_to_entities in
  cluster_loop name_to_entities unique_names unique_names [] [].

Definition name_similarity (a b : Entity) : Q :=
  partial_ratio (clean_entity_name (ent_name a)) (clean_entity_name (ent_name b)).

(** [similarity_scores[i]]: the similarities of member [i] to the members at
    the other positions, added up in order. *)
Definition similarity_scores (entities : list Entity) : list Q :=
  map (fun ie =>
         fold_left (fun acc je =>
                      if (fst ie =? fst je)%nat then acc
                      else acc + name_similarity (snd ie) (snd je))
                   (enumerate entities) 0)
      (enumerate entities).

(** The members whose score is within 10 points of [max_score]. *)
Definition medoid_candidates (entities : list Entity) (max_score : Q)
  : list Entity :=
  map fst (filter (fun es => Py.Qltb (Qabs (snd es - max_score)) 10)
                  (combine entities (similarity_scores entities))).

Definition confidence_gt (x y : Entity) : bool :=
  Py.Qgtb (ent_confidence x) (ent_confidence y).

Definition _select_medoid_entity (entities : list Entity) : option Entity :=
  match entities with
  | [] => None
  | [e] => Some e
  | _ =>
      let scored := combine entities (similarity_scores entities) in
      match Py.max_by (fun x y => Py.Qgtb (snd x) (snd y)) scored with
      | None => None
      | Some (medoid, max_score) =>
          let candidates := medoid_candidates entities max_score in
          match candidates with
          | _ :: _ :: _ => Py.max_by confidence_gt candidates
          | _ => Some medoid
          end
      end
  end.

Definition _find_matching_canonical_entity (canonical : Dict string Entity)
  (entity : Entity) : option Entity :=
  let cleaned_name := clean_entity_name (ent_name entity) in
  snd (fold_left
         (fun best c =>
            if negb (EntityType_beq (ent_type c) (ent_type entity)) then best
            else
              let score := partial_ratio cleaned_name (clean_entity_name (ent_name c)) in
              if Py.Qgtb score (fst best) && Py.Qgeb score similarity_threshold
              then (score, Some c) else best)
         (dict_values canonical) (0, None)).

(** The similarities of the pairs [i < j], in the order the loops meet them. *)
Fixpoint pair_similarities (entities : list Entity) : list Q :=
  match entities with
  | [] => []
  | e :: rest => map (name_similarity e) rest ++ pair_similarities rest
  end.

Definition _calculate_cluster_similarity (entities : list Entity) : Q :=
  match entities with
  | [] | [_] => 1
  | _ =>
      let sims := pair_similarities entities in
      let comparisons := List.length sims in
      if (0 <? comparisons)%nat
      then (Py.sum sims / inject_Z (Z.of_nat comparisons)) / 100
      else 1
  end.

Definition _calculate_resolution_confidence (entities : list Entity) : Q :=
  match entities with
  | [] | [_] => 1
  | _ =>
      let avg_entity_confidence :=
        Py.sum (map ent_confidence entities)
        / inject_Z (Z.of_nat (List.length entities)) in
      let cluster_similarity := _calculate_cluster_similarity entities in
      let confidence := (avg_entity_confidence + cluster_similarity) / 2 in
      if Py.Qgtb cluster_similarity (9 # 10)
      then Py.Qminb 1 (confidence + (1 # 10))
      else confidence
  end.

Definition ids_except (canonical_entity : Entity) (cluster_entities : list Entity)
  : list string :=
  map ent_id
      (filter (fun e => negb (String.eqb (ent_id e) (ent_id canonical_entity)))
              cluster_entities).

Definition _resolve_entity_cluster (cluster_entities : list Entity)
  : M State unit :=
  match _select_medoid_entity cluster_entities with
  | None => ret tt
  | Some canonical_entity =>
      st <- get ;;
      let existing_match :=
        _find_matching_canonical_entity (canonical_entities st) canonical_entity in
      merged <-
        match existing_match with
        | Some existing => ret (ent_id existing, map ent_id cluster_entities)
        | None =>
            set_canonical canonical_entity ;;;
            ret (ent_id canonical_entity,
                 ids_except canonical_entity cluster_entities)
        end ;;
      let '(final_canonical_id, duplicate_ids) := merged in
      match duplicate_ids with
      | [] => ret tt
      | _ =>
          decision <- new_EntityResolutionDecision final_canonical_id duplicate_ids
                        (_calculate_cluster_similarity cluster_entities)
                        "fuzzy_match_medoid"
                        (_calculate_resolution_confidence cluster_entities) ;;
          record_decision decision
      end
  end.

Definition _resolve_entities_by_type (entities : list Entity) : M State unit :=
  match entities with
  | [] => ret tt
  | _ =>
      let similarity_clusters := _group_entities_by_fuzzy_match entities in
      for_each (dict_values similarity_clusters)
        (fun cluster_entities =>
           match cluster_entities with
           | [] => ret tt
           | [entity] => set_canonical entity
           | _ => _resolve_entity_cluster cluster_entities
           end)
  end.

(** The upper-cased first characters of [name.split()], joined. *)
Definition acronym_of (name : string) : string :=
  fold_right (fun word acc =>
                match word with
                | String c _ => String (Py.upper_char c) acc
                | EmptyString => acc
                end)
             EmptyString (Py.split name).

(** The inner loop of [_merge_acronym_entities], up to its [break]. *)
Fixpoint first_acronym_match (multi_word_entity : Entity) (acronym : string)
  (single_word_entities : list Entity) : option (Entity * Q) :=
  match single_word_entities with
  | [] => None
  | single_word_entity :: rest =>
      if negb (EntityType_beq (ent_type single_word_entity)
                              (ent_type multi_word_entity))
      then first_acronym_match multi_word_entity acronym rest
      else
        let score := ratio acronym (Py.upper (ent_name single_word_entity)) in
        if Py.Qgeb score acronym_threshold
        then Some (single_word_entity, score)
        else first_acronym_match multi_word_entity acronym rest
  end.

(** The outer loop; it returns [entities_to_remove]. *)
Fixpoint acronym_loop (multi_word_entities single_word_entities : list Entity)
  : M State (list string) :=
  match multi_word_entities with
  | [] => ret []
  | multi_word_entity :: rest =>
      let acronym := acronym_of (ent_name multi_word_entity) in
      match first_acronym_match multi_word_entity acronym single_word_entities with
      | None => acronym_loop rest single_word_entities
      | Some (single_word_entity, score) =>
          decision <- new_EntityResolutionDecision (ent_id multi_word_entity)
                        [ent_id single_word_entity] (score / 100)
                        "acronym_match" (9 # 10) ;;
          record_decision decision ;;;
          removed <- acronym_loop rest single_word_entities ;;
          ret (ent_id single_word_entity :: removed)
      end
  end.

Definition remove_canonical (entity_id : string) : M State unit :=
  modify (fun st =>
            {| canonical_entities :=
                 if dict_mem String.eqb (canonical_entities st) entity_id
                 then dict_del String.eqb (canonical_entities st) entity_id
                 else canonical_entities st;
               resolution_decisions := resolution_decisions st |}).

Definition _merge_acronym_entities : M State unit :=
  if negb enable_acronym_matching then ret tt
  else
    st <- get ;;
    let canonical_list := dict_values (canonical_entities st) in
    let multi_word_entities :=
      filter (fun e => Py.contains_space (ent_name e)) canonical_list in
    let single_word_entities :=
      filter (fun e => negb (Py.contains_space (ent_name e))) canonical_list in
    entities_to_remove <- acronym_loop multi_word_entities single_word_entities ;;
    for_each entities_to_remove remove_canonical.

Definition resolve_entities (entities : list Entity) : M State (list Entity) :=
  put initial ;;;
  let type_groups := _group_entities_by_type entities in
  for_each (dict_values type_groups) _resolve_entities_by_type ;;;
  (if enable_acronym_matching then _merge_acronym_entities else ret tt) ;;;
  st <- get ;;
  ret (dict_values (canonical_entities st)).

End Resolver.

(** A fresh resolver: [EntityResolver(...).resolve_entities(entities)] returns
    the canonical entities and [self.resolution_decisions]. *)
Definition run {F : Fuzz} (similarity_threshold acronym_threshold : Q)
  (enable_acronym_matching : bool) (entities : list Entity)
  : Result (list Entity * list EntityResolutionDecision) :=
  match resolve_entities similarity_threshold acronym_threshold
          enable_acronym_matching entities initial with
  | Ok (canonical, st) => Ok (canonical, resolution_decisions st)
  | Error e => Error e
  end.

End EntityResolver.

(* ------------------------------------------------------------------ *)
(** ** [ConnectionDiscoverer] ([data_resolution/connection_discoverer.py]) *)

Module ConnectionDiscoverer.

Definition TypePair : Type := EntityType * EntityType.

Definition type_pair_eqb (a b : TypePair) : bool :=
  EntityType_beq (fst a) (fst b) && EntityType_beq (snd a) (snd b).

(** [self._relationship_patterns].  ([self._entity_connectivity] is written
    by [_build_connectivity_maps] and never read.) *)
Definition State : Type := Dict TypePair (list PredicateType).

(** [{e.id: e for e in entities}]. *)
Definition entity_map_of (entities : list Entity) : Dict string Entity :=
  fold_left (fun d e => dict_set String.eqb d (ent_id e) e) entities [].

(** [list.sort(key=..., reverse=True)]: stable, descending. *)
Section StableSort.
Context {A : Type}.
Variable key : A -> Q.

Fixpoint insert_desc (x : A) (l : list A) : list A :=
  match l with
  | [] => [x]
  | y :: l' => if Py.Qgtb (key y) (key x) then y :: insert_desc x l' else x :: l
  end.

Definition sort_desc (l : list A) : list A := fold_right insert_desc [] l.
End StableSort.

(** [Counter(predicates).most_common(3)], keys only. *)
Definition count_predicates (predicates : list PredicateType)
  : Dict PredicateType nat :=
  fold_left (fun d p =>
               match dict_get PredicateType_beq d p with
               | Some n => dict_set PredicateType_beq d p (S n)
               | None => dict_set PredicateType_beq d p 1%nat
               end) predicates [].

Definition most_common3 (predicates : list PredicateType) : list PredicateType :=
  map fst (firstn 3 (sort_desc (fun pc => inject_Z (Z.of_nat (snd pc)))
                               (count_predicates predicates))).

Definition pair_eqb (a b : string * string) : bool :=
  String.eqb (fst a) (fst b) && String.eqb (snd a) (snd b).

Definition _get_existing_entity_pairs (relationships : list Relationship)
  : list (string * string) :=
  flat_map (fun rel => [(subject_id rel, object_id rel);
                        (object_id rel, subject_id rel)]) relationships.

Definition _entities_connected (entity1_id entity2_id : string)
  (existing_pairs : list (string * string)) : bool :=
  existsb (pair_eqb (entity1_id, entity2_id)) existing_pairs.

Definition _infer_transitive_predicate (pred1 pred2 : PredicateType)
  : option PredicateType :=
  match pred1, pred2 with
  | BELONGS_TO, BELONGS_TO => Some BELONGS_TO
  | DEPENDS_ON, DEPENDS_ON => Some DEPENDS_ON
  | DERIVED_FROM, DERIVED_FROM => Some DERIVED_FROM
  | CONTAINS, BELONGS_TO => Some CONTAINS
  | HAS_DEFINITION, DEPENDS_ON => Some HAS_DEFINITION
  | _, _ => None
  end.

Definition compatible_pair (type1 type2 : EntityType) : bool :=
  match type1, type2 with
  | KPI, METRIC | METRIC, TABLE | COLUMN, TABLE | FORMULA, KPI => true
  | _, _ => false
  end.

Definition _types_compatible_for_transitivity (type1 type2 : EntityType) : bool :=
  compatible_pair type1 type2 || compatible_pair type2 type1.

Definition default_suggestion (type1 type2 : EntityType) : PredicateType :=
  match type1, type2 with
  | KPI, METRIC => DEPENDS_ON
  | METRIC, FORMULA => CALCULATED_BY
  | METRIC, TABLE => DERIVED_FROM
  | COLUMN, TABLE => BELONGS_TO
  | DEFINITION, KPI => HAS_DEFINITION
  | _, _ => DEPENDS_ON
  end.

Section Discoverer.
Context {F : Fuzz} {Mt : Math}.
Variable similarity_threshold : Q.
Variable description_weight : Q.
Variable name_weight : Q.
Variable enable_transitive_discovery : bool.
Variable enable_domain_rules : bool.

Definition _extract_relationship_patterns (relationships : list Relationship)
  (entities : list Entity) : M State unit :=
  let entity_map := entity_map_of entities in
  let typed :=
    flat_map (fun rel =>
                match dict_get String.eqb entity_map (subject_id rel),
                      dict_get String.eqb entity_map (object_id rel) with
                | Some subject_entity, Some object_entity =>
                    [((ent_type subject_entity, ent_type object_entity),
                      predicate rel)]
                | _, _ => []
                end) relationships in
  let pattern_counter := group_by type_pair_eqb fst typed in
  put (fold_left (fun d kv =>
                    dict_set type_pair_eqb d (fst kv)
                             (most_common3 (map snd (snd kv))))
                 pattern_counter []).

Definition _calculate_attribute_similarity (attrs1 attrs2 : Dict string string)
  : Q :=
  match attrs1, attrs2 with
  | [], _ | _, [] => 0
  | _, _ =>
      let common_keys :=
        nodup string_dec
              (filter (dict_mem String.eqb attrs2) (dict_keys attrs1)) in
      match common_keys with
      | [] => 0
      | _ =>
          let total_similarity :=
            fold_left
              (fun total k =>
                 let val1 := Py.lower (Py.or_empty (dict_get String.eqb attrs1 k)) in
                 let val2 := Py.lower (Py.or_empty (dict_get String.eqb attrs2 k)) in
                 if String.eqb val1 val2 then total + 1
                 else total + ratio val1 val2 / 100)
              common_keys 0 in
          total_similarity / inject_Z (Z.of_nat (List.length common_keys))
      end
  end.

(** The overall similarity of [_calculate_entity_similarity]. *)
Definition _calculate_entity_similarity (entity1 entity2 : Entity) : Q :=
  let name_sim :=
    partial_ratio (Py.lower (ent_name entity1)) (Py.lower (ent_name entity2)) / 100 in
  let desc_sim :=
    match ent_description entity1, ent_description entity2 with
    | Some d1, Some d2 =>
        if Py.truthy (Some d1) && Py.truthy (Some d2)
        then partial_ratio (Py.lower d1) (Py.lower d2) / 100
        else 0
    | _, _ => 0
    end in
  let attr_sim :=
    _calculate_attribute_similarity (ent_attributes entity1)
                                    (ent_attributes entity2) in
  let type_boost :=
    if EntityType_beq (ent_type entity1) (ent_type entity2) then 1 else 8 # 10 in
  (name_sim * name_weight + desc_sim * description_weight + attr_sim * (2 # 10))
  * type_boost.

Definition _suggest_predicate_from_similarity (entity1 entity2 : Entity)
  : M State PredicateType :=
  patterns <- get ;;
  match dict_get type_pair_eqb patterns (ent_type entity1, ent_type entity2) with
  | Some (p :: _) => ret p
  | Some [] => raise IndexError
  | None => ret (default_suggestion (ent_type entity1) (ent_type entity2))
  end.

(** [for i, entity1 in enumerate(entities): for entity2 in entities[i + 1:]].
    The test [if suggested_predicate] always passes: every member of
    [PredicateType] is a non-empty string. *)
Fixpoint _discover_by_similarity_loop (existing_pairs : list (string * string))
  (entities : list Entity) : M State (list ConnectionDiscovery) :=
  match entities with
  | [] => ret []
  | entity1 :: rest =>
      here <- for_extend rest
                (fun entity2 =>
                   if _entities_connected (ent_id entity1) (ent_id entity2)
                                          existing_pairs
                   then ret []
                   else
                     let similarity_score :=
                       _calculate_entity_similarity entity1 entity2 in
                     if Py.Qgeb similarity_score similarity_threshold then
                       suggested_predicate <-
                         _suggest_predicate_from_similarity entity1 entity2 ;;
                       discovery <-
                         new_ConnectionDiscovery (ent_id entity1) (ent_id entity2)
                           suggested_predicate similarity_score
                           "similarity_analysis" ;;
                       ret [discovery]
                     else ret []) ;;
      later <- _discover_by_similarity_loop existing_pairs rest ;;
      ret (here ++ later)
  end.

Definition _discover_by_similarity (entities : list Entity)
  (existing_relationships : list Relationship)
  : M State (list ConnectionDiscovery) :=
  _discover_by_similarity_loop
    (_get_existing_entity_pairs existing_relationships) entities.

Definition _calculate_transitive_confidence (entity1 intermediate entity2 : Entity)
  (relationships : list Relationship) : Q :=
  let '(rel1_confidence, rel2_confidence) :=
    fold_left
      (fun c rel =>
         if String.eqb (subject_id rel) (ent_id entity1)
            && String.eqb (object_id rel) (ent_id intermediate)
         then (Py.Qmaxb (fst c) (rel_confidence rel), snd c)
         else if String.eqb (subject_id rel) (ent_id intermediate)
                 && String.eqb (object_id rel) (ent_id entity2)
         then (fst c, Py.Qmaxb (snd c) (rel_confidence rel))
         else c)
      relationships (0, 0) in
  let base_confidence := sqrt (rel1_confidence * rel2_confidence) * (8 # 10) in
  let base_confidence :=
    if _types_compatible_for_transitivity (ent_type entity1) (ent_type entity2)
    then base_confidence * (11 # 10) else base_confidence in
  Py.Qminb 1 base_confidence.

(** [outgoing_relations[entity_id]]: the hops that leave [entity_id], in the
    order of the relationships. *)
Definition outgoing (relationships : list Relationship) (entity_id : string)
  : list (string * PredicateType) :=
  map (fun rel => (object_id rel, predicate rel))
      (filter (fun rel => String.eqb (subject_id rel) entity_id) relationships).

Definition _discover_transitive_relationships (entities : list Entity)
  (existing_relationships : list Relationship)
  : M State (list ConnectionDiscovery) :=
  let entity_map := entity_map_of entities in
  let existing_pairs := _get_existing_entity_pairs existing_relationships in
  for_extend entities
    (fun entity1 =>
       for_extend (outgoing existing_relationships (ent_id entity1))
         (fun hop1 =>
            let '(intermediate_id, pred1) := hop1 in
            for_extend (outgoing existing_relationships intermediate_id)
              (fun hop2 =>
                 let '(target_id, pred2) := hop2 in
                 if String.eqb target_id (ent_id entity1) then ret []
                 else if _entities_connected (ent_id entity1) target_id
                                             existing_pairs then ret []
                 else
                   match dict_get String.eqb entity_map target_id,
                         dict_get String.eqb entity_map intermediate_id with
                   | Some target_entity, Some intermediate_entity =>
                       match _infer_transitive_predicate pred1 pred2 with
                       | Some transitive_predicate =>
                           let confidence :=
                             _calculate_transitive_confidence entity1
                               intermediate_entity target_entity
                               existing_relationships in
                           discovery <-
                             new_ConnectionDiscovery (ent_id entity1) target_id
                               transitive_predicate confidence
                               "transitive_inference" ;;
                           ret [discovery]
                       | None => ret []
                       end
                   | _, _ => ret []
                   end))).

(** The loop shared by the four [_apply_*_rules] methods: [first] and
    [second] are the two nested loops, the proposal runs from [subject] to
    [object]. *)
Definition apply_rule (firsts seconds : list Entity)
  (existing_pairs : list (string * string)) (threshold_factor : Q)
  (confidence_of : Q -> Q) (subject_of object_of : Entity -> Entity -> Entity)
  (suggested : PredicateType) (method : string)
  : M State (list ConnectionDiscovery) :=
  for_extend firsts
    (fun first =>
       for_extend seconds
         (fun second =>
            if _entities_connected (ent_id first) (ent_id second) existing_pairs
            then ret []
            else
              let similarity := _calculate_entity_similarity first second in
              if Py.Qgeb similarity (similarity_threshold * threshold_factor) then
                discovery <-
                  new_ConnectionDiscovery (ent_id (subject_of first second))
                    (ent_id (object_of first second)) suggested
                    (confidence_of similarity) method ;;
                ret [discovery]
              else ret [])).

Definition _apply_kpi_metric_rules (kpi_entities metric_entities : list Entity)
  (existing_pairs : list (string * string)) : M State (list ConnectionDiscovery) :=
  apply_rule kpi_entities metric_entities existing_pairs (7 # 10)
    (fun similarity => Py.Qminb (9 # 10) (similarity * (11 # 10)))
    (fun kpi _ => kpi) (fun _ metric => metric)
    DEPENDS_ON "domain_rule_kpi_metric".

Definition _apply_metric_table_rules (metric_entities table_entities : list Entity)
  (existing_pairs : list (string * string)) : M State (list ConnectionDiscovery) :=
  apply_rule metric_entities table_entities existing_pairs (6 # 10)
    (fun similarity => Py.Qminb (85 # 100) (similarity * 1))
    (fun metric _ => metric) (fun _ table => table)
    DERIVED_FROM "domain_rule_metric_table".

Definition _apply_metric_column_rules (metric_entities column_entities : list Entity)
  (existing_pairs : list (string * string)) : M State (list ConnectionDiscovery) :=
  apply_rule metric_entities column_entities existing_pairs (7 # 10)
    (fun similarity => Py.Qminb (8 # 10) (similarity * 1))
    (fun metric _ => metric) (fun _ column => column)
    MEASURES "domain_rule_metric_column".

Definition _apply_formula_rules (formula_entities target_entities : list Entity)
  (existing_pairs : list (string * string)) : M State (list ConnectionDiscovery) :=
  apply_rule formula_entities target_entities existing_pairs (6 # 10)
    (fun similarity => Py.Qminb (8 # 10) (similarity * 1))
    (fun _ target => target) (fun formula _ => formula)
    CALCULATED_BY "domain_rule_formula".

Definition of_type (t : EntityType) (entities : list Entity) : list Entity :=
  filter (fun e => EntityType_beq (ent_type e) t) entities.

Definition nonempty {A : Type} (l : list A) : bool :=
  match l with [] => false | _ => true end.

Definition _discover_by_domain_rules (entities : list Entity)
  (existing_relationships : list Relationship)
  : M State (list ConnectionDiscovery) :=
  let existing_pairs := _get_existing_entity_pairs existing_relationships in
  let kpis := of_type KPI entities in
  let metrics := of_type METRIC entities in
  let tables := of_type TABLE entities in
  let columns := of_type COLUMN entities in
  let formulas := of_type FORMULA entities in
  rule1 <-
    (if nonempty kpis && nonempty metrics
     then _apply_kpi_metric_rules kpis metrics existing_pairs else ret []) ;;
  rule2_tables <-
    (if nonempty metrics && nonempty tables
     then _apply_metric_table_rules metrics tables existing_pairs else ret []) ;;
  rule2_columns <-
    (if nonempty metrics && nonempty columns
     then _apply_metric_column_rules metrics columns existing_pairs else ret []) ;;
  rule3 <-
    (if nonempty formulas
     then for_extend [kpis; metrics]
            (fun targets =>
               if nonempty targets
               then _apply_formula_rules formulas targets existing_pairs
               else ret [])
     else ret []) ;;
  ret (rule1 ++ rule2_tables ++ rule2_columns ++ rule3).

Definition _calculate_pattern_confidence (entity1 entity2 : Entity)
  (common_predicates : list PredicateType) : Q :=
  let pattern_strength :=
    Py.Qminb 1 (inject_Z (Z.of_nat (List.length common_predicates)) / 10) in
  let similarity := _calculate_entity_similarity entity1 entity2 in
  pattern_strength * (6 # 10) + similarity * (4 # 10).

Definition _discover_by_patterns (entities : list Entity)
  (existing_relationships : list Relationship)
  : M State (list ConnectionDiscovery) :=
  let existing_pairs := _get_existing_entity_pairs existing_relationships in
  patterns <- get ;;
  for_extend entities
    (fun entity1 =>
       for_extend entities
         (fun entity2 =>
            if String.eqb (ent_id entity1) (ent_id entity2) then ret []
            else if _entities_connected (ent_id entity1) (ent_id entity2)
                                        existing_pairs then ret []
            else
              match dict_get type_pair_eqb patterns
                             (ent_type entity1, ent_type entity2) with
              | Some (suggested_predicate :: others) =>
                  let pattern_confidence :=
                    _calculate_pattern_confidence entity1 entity2
                      (suggested_predicate :: others) in
                  if Py.Qgeb pattern_confidence similarity_threshold then
                    discovery <-
                      new_ConnectionDiscovery (ent_id entity1) (ent_id entity2)
                        suggested_predicate pattern_confidence
                        "pattern_matching" ;;
                    ret [discovery]
                  else ret []
              | _ => ret []
              end)).

Definition discovery_key (d : ConnectionDiscovery)
  : string * string * PredicateType :=
  (subject_entity_id d, object_entity_id d, suggested_predicate d).

Definition discovery_key_eqb (a b : string * string * PredicateType) : bool :=
  let '(s1, o1, p1) := a in
  let '(s2, o2, p2) := b in
  String.eqb s1 s2 && String.eqb o1 o2 && PredicateType_beq p1 p2.

Definition _deduplicate_discoveries (discoveries : list ConnectionDiscovery)
  : M State (list ConnectionDiscovery) :=
  let discovery_groups := group_by discovery_key_eqb discovery_key discoveries in
  for_append (dict_values discovery_groups)
    (fun group =>
       match Py.max_by (fun x y => Py.Qgtb (cd_confidence x) (cd_confidence y))
                       group with
       | Some best_discovery => ret best_discovery
       | None => raise ValueError
       end).

Definition discover_connections (entities : list Entity)
  (existing_relationships : list Relationship)
  : M State (list ConnectionDiscovery) :=
  _extract_relationship_patterns existing_relationships entities ;;;
  similarity_discoveries <- _discover_by_similarity entities existing_relationships ;;
  transitive_discoveries <-
    (if enable_transitive_discovery
     then _discover_transitive_relationships entities existing_relationships
     else ret []) ;;
  domain_discoveries <-
    (if enable_domain_rules
     then _discover_by_domain_rules entities existing_relationships
     else ret []) ;;
  pattern_discoveries <- _discover_by_patterns entities existing_relationships ;;
  unique_discoveries <-
    _deduplicate_discoveries
      (similarity_discoveries ++ transitive_discoveries
       ++ domain_discoveries ++ pattern_discoveries) ;;
  ret (sort_desc cd_confidence unique_discoveries).

End Discoverer.

(** A fresh discoverer; [run_resolution.py] leaves the two weights at their
    defaults. *)
Definition run {F : Fuzz} {Mt : Math} (similarity_threshold : Q)
  (enable_transitive_discovery enable_domain_rules : bool)
  (entities : list Entity) (existing_relationships : list Relationship)
  : Result (list ConnectionDiscovery) :=
  match discover_connections similarity_threshold (4 # 10) (6 # 10)
          enable_transitive_discovery enable_domain_rules
          entities existing_relationships [] with
  | Ok (discoveries, _) => Ok discoveries
  | Error e => Error e
  end.

End ConnectionDiscoverer.

(* ------------------------------------------------------------------ *)
(** ** The pipeline ([data_resolution/run_resolution.py]) *)

Module Pipeline.

(** The resolution parameters of [load_config]. *)
Record Config : Type := {
  entity_similarity_threshold : Q;
  entity_acronym_threshold : Q;
  connection_similarity_threshold : Q;
  confidence_consolidation_method : string;
  enable_acronym_matching : bool;
  enable_transitive_discovery : bool;
  enable_domain_rules : bool;
  min_discovery_confidence : Q;
  max_discoveries_per_run : Z
}.

Definition default_config : Config :=
  {| entity_similarity_threshold := 80;
     entity_acronym_threshold := 98;
     connection_similarity_threshold := 6 # 10;
     confidence_consolidation_method := "max";
     enable_acronym_matching := true;
     enable_transitive_discovery := true;
     enable_domain_rules := true;
     min_discovery_confidence := 5 # 10;
     max_discoveries_per_run := 1000 |}.

Record ResolutionStats : Type := {
  entities_processed : Z;
  entities_merged : Z;
  relationships_processed : Z;
  relationships_consolidated : Z;
  new_connections_discovered : Z;
  duplicate_entities_removed : Z
}.

Record ResolutionResult : Type := {
  entity_decisions : list EntityResolutionDecision;
  relationship_decisions : list RelationshipResolutionDecision;
  discovered_connections : list ConnectionDiscovery;
  canonical_entities : list Entity;
  consolidated_relationships : list Relationship;
  stats : ResolutionStats
}.

(** [l[:n]], for an [n] of either sign. *)
Definition slice_to {A : Type} (n : Z) (l : list A) : list A :=
  if (0 <=? n)%Z then firstn (Z.to_nat n) l
  else firstn (List.length l - Z.to_nat (- n)) l.

Definition len {A : Type} (l : list A) : Z := Z.of_nat (List.length l).

(** The mapping of [run_relationship_resolution], also
    [ResolutionResult.get_merged_entity_mapping]. *)
Definition entity_id_mapping_of (entity_decisions : list EntityResolutionDecision)
  : Dict string string :=
  fold_left
    (fun mapping decision =>
       fold_left (fun m duplicate_id =>
                    dict_set String.eqb m duplicate_id
                             (canonical_entity_id decision))
                 (duplicate_entity_ids decision) mapping)
    entity_decisions [].

Section Run.
Context {F : Fuzz} {Mt : Math}.
Variable config : Config.

Definition run_entity_resolution (entities : list Entity)
  : Result (list Entity * list EntityResolutionDecision) :=
  EntityResolver.run (entity_similarity_threshold config)
    (entity_acronym_threshold config) (enable_acronym_matching config) entities.

Definition run_relationship_resolution (relationships : list Relationship)
  (entity_decisions : list EntityResolutionDecision)
  : Result (list Relationship * list RelationshipResolutionDecision) :=
  RelationshipResolver.run (confidence_consolidation_method config)
    relationships (entity_id_mapping_of entity_decisions).

Definition run_connection_discovery (entities : list Entity)
  (relationships : list Relationship) : Result (list ConnectionDiscovery) :=
  match ConnectionDiscoverer.run (connection_similarity_threshold config)
          (enable_transitive_discovery config) (enable_domain_rules config)
          entities relationships with
  | Error e => Error e
  | Ok discovered_connections =>
      let high_confidence_discoveries :=
        filter (fun d => Py.Qgeb (cd_confidence d) (min_discovery_confidence config))
               discovered_connections in
      let max_discoveries := max_discoveries_per_run config in
      if (max_discoveries <? len high_confidence_discoveries)%Z
      then Ok (slice_to max_discoveries high_confidence_discoveries)
      else Ok high_confidence_discoveries
  end.

Definition total_duplicates (entity_decisions : list EntityResolutionDecision) : Z :=
  fold_left (fun n d => (n + len (duplicate_entity_ids d))%Z) entity_decisions 0%Z.

(** Steps 1 to 3 of [main] and the [ResolutionResult] it builds.  ([main]
    itself exits before step 1 when the database holds no entity.) *)
Definition resolve (entities : list Entity) (relationships : list Relationship)
  : Result ResolutionResult :=
  match run_entity_resolution entities with
  | Error e => Error e
  | Ok (canonical, entity_decs) =>
      match run_relationship_resolution relationships entity_decs with
      | Error e => Error e
      | Ok (consolidated, relationship_decs) =>
          match run_connection_discovery canonical consolidated with
          | Error e => Error e
          | Ok discovered =>
              Ok {| entity_decisions := entity_decs;
                    relationship_decisions := relationship_decs;
                    discovered_connections := discovered;
                    canonical_entities := canonical;
                    consolidated_relationships := consolidated;
                    stats :=
                      {| entities_processed := len entities;
                         entities_merged := total_duplicates entity_decs;
                         relationships_processed := len relationships;
                         relationships_consolidated := len relationship_decs;
                         new_connections_discovered := len discovered;
                         duplicate_entities_removed := total_duplicates entity_decs |}
                 |}
          end
      end
  end.

End Run.
End Pipeline.

(* ------------------------------------------------------------------ *)
(** ** A reference instance of the library interface *)

Module Reference.

(** Length of a longest common subsequence. *)
Fixpoint lcs (s : list ascii) : list ascii -> nat :=
  match s with
  | [] => fun _ => 0%nat
  | a :: s' =>
      fix lcs_row (t : list ascii) : nat :=
        match t with
        | [] => 0%nat
        | b :: t' =>
            if Ascii.eqb a b then S (lcs s' t')
            else Nat.max (lcs s' t) (lcs_row t')
        end
  end.

(** The normalized indel similarity, as a percentage. *)
Definition ratio_chars (s t : list ascii) : Q :=
  match s, t with
  | [], [] => 100
  | _, _ =>
      inject_Z (200 * Z.of_nat (lcs s t))
      / inject_Z (Z.of_nat (List.length s + List.length t))
  end.

(** The contiguous substrings of length [n]. *)
Fixpoint windows (n : nat) (t : list ascii) : list (list ascii) :=
  match t with
  | [] => []
  | _ :: t' =>
      if (n <=? List.length t)%nat then firstn n t :: windows n t' else []
  end.

Definition best_window (s t : list ascii) : Q :=
  fold_left (fun best w => Py.Qmaxb best (ratio_chars s w))
            (windows (List.length s) t) 0.

Definition partial_ratio_chars (s t : list ascii) : Q :=
  match s, t with
  | [], [] => 100
  | [], _ | _, [] => 0
  | _, _ =>
      if (List.length s <=? List.length t)%nat
      then best_window s t else best_window t s
  end.

(** Modelled from the spec: [rapidfuzz] is not under the repository's
    sources.  The partial ratio is the one of the design notes, "given
    strings s (shorter) and t, score = max over all length-|s| substrings u
    of t of normalized_edit_similarity(s,u)", in [0,100]; the plain ratio is
    that similarity of the two whole strings.  The concrete inputs of this
    file only rely on scores about which implementations of the partial
    ratio agree, as far as the thresholds are concerned: a string against
    itself or against a string that contains it (100), and strings that
    share few characters. *)
#[export] Instance fuzz : Fuzz := {
  partial_ratio a b :=
    partial_ratio_chars (list_ascii_of_string a) (list_ascii_of_string b);
  ratio a b := ratio_chars (list_ascii_of_string a) (list_ascii_of_string b)
}.

(** Modelled from the spec: [math.sqrt] is the Python library's; this is its
    value truncated to six decimals. *)
#[export] Instance math : Math := {
  sqrt q :=
    inject_Z (Z.sqrt (Qnum q * 1000000000000 / Zpos (Qden q))) / 1000000
}.

End Reference.

(* ------------------------------------------------------------------ *)
(** ** Notions used to state the properties *)

(** What the ID-remap table sends [old] to. *)
Definition remap_target (mapping : Dict string string) (old : string)
  : option string :=
  dict_get String.eqb mapping old.

Definition is_canonical_id (canonical : list Entity) (i : string) : bool :=
  existsb (fun e => String.eqb (ent_id e) i) canonical.



(** What the rewrite of endpoints leaves alone, and what it does to the
    endpoints. *)
Definition rewritten_from (mapping : Dict string string) (r r' : Relationship)
  : Prop :=
  rel_id r' = rel_id r
  /\ predicate r' = predicate r
  /\ rel_confidence r' = rel_confidence r
  /\ context r' = context r
  /\ rel_source_chunk_id r' = rel_source_chunk_id r
  /\ subject_id r' =
       match remap_target mapping (subject_id r) with
       | Some c => c | None => subject_id r end
  /\ object_id r' =
       match remap_target mapping (object_id r) with
       | Some c => c | None => object_id r end.

(** The computation [m] does not raise, from any state, and its value
    satisfies [P]. *)
Definition returns {S A : Type} (m : M S A) (P : A -> Prop) : Prop :=
  forall s, exists a s', m s = Ok (a, s') /\ P a.

Definition unit_interval (q : Q) : Prop := 0 <= q <= 1.

(** Orders and tests by a numeric key. *)
Definition descending {A : Type} (key : A -> Q) (a b : A) : Prop :=
  key b <= key a.

Definition key_gt {A : Type} (key : A -> Q) (x y : A) : bool :=
  Py.Qgtb (key x) (key y).

(** The buckets of raw names the fuzzy grouping starts from, their names,
    and its test on two names. *)
Definition name_buckets (entities : list Entity) : Dict string (list Entity) :=
  group_by String.eqb ent_name entities.

Definition names_of (entities : list Entity) : list string :=
  dict_keys (name_buckets entities).

Definition similar_enough {F : Fuzz} (threshold : Q) (name other : string)
  : bool :=
  Py.Qgeb (partial_ratio (EntityResolver.clean_entity_name name)
                         (EntityResolver.clean_entity_name other)) threshold.

(** A grouping whose keys are distinct and whose groups are non-empty and
    hold elements of their key only. *)
Definition well_grouped {K A : Type} (key : A -> K) (d : Dict K (list A))
  : Prop :=
  NoDup (dict_keys d)
  /\ forall k xs, In (k, xs) d -> xs <> [] /\ forall x, In x xs -> key x = k.

(** Two entities lie in one cluster of the fuzzy grouping. *)
Definition same_cluster (clusters : Dict string (list Entity)) (e1 e2 : Entity)
  : Prop :=
  exists head members, In (head, members) clusters /\ In e1 members /\ In e2 members.

(** The order the specification asks of the final discovery list:
    [(confidence desc, subject_id, object_id, predicate)]. *)
Definition spec_key_le (d1 d2 : ConnectionDiscovery) : bool :=
  match cd_confidence d2 ?= cd_confidence d1 with
  | Lt => true
  | Gt => false
  | Eq =>
      match String.compare (subject_entity_id d1) (subject_entity_id d2) with
      | Lt => true
      | Gt => false
      | Eq =>
          match String.compare (object_entity_id d1) (object_entity_id d2) with
          | Lt => true
          | Gt => false
          | Eq => String.leb (predicate_value (suggested_predicate d1))
                             (predicate_value (suggested_predicate d2))
          end
      end
  end.

Definition confidence_desc (d1 d2 : ConnectionDiscovery) : Prop :=
  cd_confidence d2 <= cd_confidence d1.

(* ------------------------------------------------------------------ *)
(** ** Concrete inputs *)

Module Examples.

Definition entity (i : string) (t : EntityType) (n : string)
  (d : option string) (c : Q) (a : Dict string string) : Entity :=
  {| ent_id := i; ent_type := t; ent_name := n; ent_description := d;
     ent_confidence := c; ent_attributes := a; ent_source_chunk_id := None |}.

Definition relationship (i s : string) (p : PredicateType) (o : string) (c : Q)
  (ctx : option string) : Relationship :=
  {| rel_id := i; subject_id := s; predicate := p; object_id := o;
     rel_confidence := c; context := ctx; rel_source_chunk_id := None |}.

(** Scenario 3 of the specification: [e2] was remapped to [e1]. *)
Definition scenario3_relationships : list Relationship :=
  [ relationship "r1" "e2" DEPENDS_ON "m1" (8 # 10) (Some "A");
    relationship "r2" "e1" DEPENDS_ON "m1" (6 # 10) (Some "B") ].

Definition scenario3_mapping : Dict string string := [("e2", "e1")].

(** Two spellings of an acronym and its full form. *)
Definition acronym_chain : list Entity :=
  [ entity "a1" KPI "CAC" None (9 # 10) [];
    entity "a2" KPI "cac" None (7 # 10) [];
    entity "m1" KPI "Customer Acquisition Cost" None (9 # 10) [] ].

(** A name, a longer name that contains it, and the rest of the longer name. *)
Definition overlapping_names : list Entity :=
  [ entity "a" KPI "cost" None (5 # 10) [];
    entity "b" KPI "cost margin" None (9 # 10) [];
    entity "c" KPI "margin" None (8 # 10) [] ].

(** Two full forms with the same initials, and the acronym. *)
Definition shared_acronym : list Entity :=
  [ entity "m1" KPI "Net Pay" None (9 # 10) [];
    entity "m2" KPI "Nominal Price" None (9 # 10) [];
    entity "s" KPI "NP" None (8 # 10) [] ].

(** Two entities that agree on name, description and an attribute. *)
Definition twins : list Entity :=
  [ entity "e1" KPI "Revenue" (Some "Total revenue") (9 # 10) [("unit", "USD")];
    entity "e2" KPI "Revenue" (Some "Total revenue") (9 # 10) [("unit", "USD")] ].

(** The same through the whole pipeline: [b] and [c] both survive entity
    resolution. *)
Definition surviving_twins : list Entity :=
  [ entity "a" KPI "cost" None (5 # 10) [];
    entity "b" KPI "cost margin" (Some "gross") (9 # 10) [("unit", "usd")];
    entity "c" KPI "margin" (Some "gross") (8 # 10) [("unit", "usd")] ].

(** One name and description under three types. *)
Definition churn : list Entity :=
  [ entity "z1" KPI "Churn" (Some "rate") (9 # 10) [];
    entity "a1" METRIC "Churn" (Some "rate") (9 # 10) [];
    entity "f1" FORMULA "Churn" (Some "rate") (9 # 10) [] ].



(** A cluster whose two members tie on score and on confidence. *)
Definition tie_ba : list Entity :=
  [ entity "b" KPI "Revenue" None (9 # 10) [];
    entity "a" KPI "Revenue" None (9 # 10) [] ].

Definition tie_ab : list Entity :=
  [ entity "a" KPI "Revenue" None (9 # 10) [];
    entity "b" KPI "Revenue" None (9 # 10) [] ].

(** A strict substring. *)
Definition substring_pair : list Entity :=
  [ entity "a" KPI "cost" None (5 # 10) [];
    entity "b" KPI "cost margin" None (9 # 10) [] ].

End Examples.

(** What scenario 3 expects of relationship resolution, and what the
    resolver returns for it. *)
Definition scenario3_edge (ctx : string) (r : Relationship) : Prop :=
  subject_id r = "e1" /\ predicate r = DEPENDS_ON /\ object_id r = "m1"
  /\ rel_confidence r == 8 # 10 /\ context r = Some ctx.

Definition scenario3_expected
  (out : list Relationship * list RelationshipResolutionDecision) : Prop :=
  exists r d, out = ([r], [d]) /\ scenario3_edge "A | B" r
              /\ action d = CONSOLIDATE_RELATIONSHIPS.

Definition scenario3_returned
  (out : list Relationship * list RelationshipResolutionDecision) : Prop :=
  exists r d, out = ([r], [d]) /\ scenario3_edge "A" r
              /\ rel_id r = "r1"
              /\ action d = KEEP_CANONICAL
              /\ canonical_relationship_id d = "r1"
              /\ merged_relationship_ids d = ["r2"]
              /\ consolidation_method d = "exact_duplicate_removal".

(** The election the specification describes: among the members within 10
    points of the best score, those of highest confidence, and of these the
    first in the order [first_id] of the ids. *)
Definition spec_select_medoid {F : Fuzz} (first_id : string -> string -> bool)
  (entities : list Entity) : option Entity :=
  match Py.max_list (EntityResolver.similarity_scores entities) with
  | None => None
  | Some max_score =>
      let candidates := EntityResolver.medoid_candidates entities max_score in
      let top :=
        filter (fun e =>
                  forallb (fun e' => Qle_bool (ent_confidence e') (ent_confidence e))
                          candidates)
               candidates in
      Py.max_by (fun x y => first_id (ent_id x) (ent_id y)) top
  end.

Definition id_ascending (a b : string) : bool := String.ltb a b.
Definition id_descending (a b : string) : bool := String.ltb b a.

(** The pipeline and its parts over the reference instance. *)
Definition reference_resolve :=
  Pipeline.resolve (F := Reference.fuzz) (Mt := Reference.math).

Definition reference_discovery :=
  Pipeline.run_connection_discovery (F := Reference.fuzz) (Mt := Reference.math).

Definition reference_clusters :=
  EntityResolver._group_entities_by_fuzzy_match (F := Reference.fuzz).

Definition reference_medoid :=
  EntityResolver._select_medoid_entity (F := Reference.fuzz).

(* ------------------------------------------------------------------ *)
(** ** Further notions *)

(** The unordered endpoint pair and the predicate of an edge. *)
Definition edge_key (r : Relationship) : string * string * PredicateType :=
  (RelationshipResolver.pair_key r, predicate r).

(** A context that [_merge_contexts] takes into account: neither missing,
    nor empty, nor blank. *)
Definition has_text (o : option string) : bool :=
  match o with
  | Some c => Py.truthy (Some c) && Py.truthy (Some (Py.strip c))
  | None => false
  end.

(** What [_consolidate_similar_relationships] makes of one pair group. *)
Definition fused_from (g ys : list Relationship) : Prop :=
  NoDup (map predicate ys)
  /\ Forall (fun y => exists b, In b g /\ rel_id y = rel_id b
                                /\ RelationshipResolver.pair_key y
                                   = RelationshipResolver.pair_key b) ys
  /\ (List.length ys <= List.length g)%nat.

(** The score [_find_matching_canonical_entity] gives a canonical entity. *)
Definition match_score {F : Fuzz} (entity canonical : Entity) : Q :=
  partial_ratio (EntityResolver.clean_entity_name (ent_name entity))
                (EntityResolver.clean_entity_name (ent_name canonical)).

(** What holds of the running best match after the canonical entities
    [seen]. *)
Definition best_match_so_far {F : Fuzz} (threshold : Q) (entity : Entity)
  (seen : list Entity) (best : Q * option Entity) : Prop :=
  match snd best with
  | Some c =>
      fst best = match_score entity c
      /\ In c seen /\ ent_type c = ent_type entity
      /\ threshold <= match_score entity c /\ 0 < match_score entity c
      /\ forall c', In c' seen -> ent_type c' = ent_type entity ->
                    match_score entity c' <= match_score entity c
  | None =>
      fst best = 0
      /\ forall c', In c' seen -> ent_type c' = ent_type entity ->
                    ~ (0 < match_score entity c'
                       /\ threshold <= match_score entity c')
  end.

(** An entity-resolution decision that names ids of the input only, and at
    least one duplicate. *)
Definition decision_of_input (entities : list Entity)
  (d : EntityResolutionDecision) : Prop :=
  In (canonical_entity_id d) (map ent_id entities)
  /\ incl (duplicate_entity_ids d) (map ent_id entities)
  /\ duplicate_entity_ids d <> [].

(** The canonical table holds entities of the input under their own ids,
    and the decisions are decisions about the input. *)
Definition from_input (entities : list Entity) (st : EntityResolver.State)
  : Prop :=
  NoDup (dict_keys (EntityResolver.canonical_entities st))
  /\ (forall k e, In (k, e) (EntityResolver.canonical_entities st) ->
                  k = ent_id e /\ In e entities)
  /\ Forall (decision_of_input entities) (EntityResolver.resolution_decisions st).

(** The id is that of a canonical entity, or a decision lists it as a
    duplicate. *)
Definition accounted_for (st : EntityResolver.State) (i : string) : Prop :=
  In i (dict_keys (EntityResolver.canonical_entities st))
  \/ exists d, In d (EntityResolver.resolution_decisions st)
               /\ In i (duplicate_entity_ids d).

Definition still_accounted (st st' : EntityResolver.State) : Prop :=
  forall i, accounted_for st i -> accounted_for st' i.

(** Every name reaches the threshold against itself. *)
Definition self_similar {F : Fuzz} (threshold : Q) (entities : list Entity)
  : Prop :=
  forall e, In e entities ->
            similar_enough threshold (ent_name e) (ent_name e) = true.

(** No relationship joins [a] and [b], in either direction. *)
Definition unconnected (relationships : list Relationship) (a b : string)
  : Prop :=
  forall r, In r relationships ->
    ~ (subject_id r = a /\ object_id r = b)
    /\ ~ (subject_id r = b /\ object_id r = a).

(** A proposal between the ids of two entities that no existing relationship
    joins, with a confidence in [0,1]. *)
Definition sound_proposal (entities : list Entity)
  (relationships : list Relationship) (d : ConnectionDiscovery) : Prop :=
  In (subject_entity_id d) (map ent_id entities)
  /\ In (object_entity_id d) (map ent_id entities)
  /\ unconnected relationships (subject_entity_id d) (object_entity_id d)
  /\ unit_interval (cd_confidence d).

(** What each discovery method guarantees of its proposals: the two
    thresholded methods a confidence that reaches the threshold, the domain
    rules their predicate and the cap on their confidence. *)
Definition method_bound (threshold : Q) (d : ConnectionDiscovery) : Prop :=
  (discovery_method d = "similarity_analysis" /\ threshold <= cd_confidence d)
  \/ (discovery_method d = "pattern_matching" /\ threshold <= cd_confidence d)
  \/ discovery_method d = "transitive_inference"
  \/ (discovery_method d = "domain_rule_kpi_metric"
      /\ suggested_predicate d = DEPENDS_ON /\ cd_confidence d <= 9 # 10)
  \/ (discovery_method d = "domain_rule_metric_table"
      /\ suggested_predicate d = DERIVED_FROM /\ cd_confidence d <= 85 # 100)
  \/ (discovery_method d = "domain_rule_metric_column"
      /\ suggested_predicate d = MEASURES /\ cd_confidence d <= 8 # 10)
  \/ (discovery_method d = "domain_rule_formula"
      /\ suggested_predicate d = CALCULATED_BY /\ cd_confidence d <= 8 # 10).

(** The three together, the last for inputs whose ids are distinct. *)
Definition vetted (entities : list Entity) (relationships : list Relationship)
  (threshold : Q) (d : ConnectionDiscovery) : Prop :=
  sound_proposal entities relationships d
  /\ method_bound threshold d
  /\ (NoDup (map ent_id entities) -> subject_entity_id d <> object_entity_id d).

Definition reference_discoverer :=
  ConnectionDiscoverer.run (F := Reference.fuzz) (Mt := Reference.math).

(** The proposals whose confidence reaches [minimum]. *)
Definition confident_enough (minimum : Q) (l : list ConnectionDiscovery)
  : list ConnectionDiscovery :=
  filter (fun d => Py.Qgeb (cd_confidence d) minimum) l.

(** [RelationshipResolver.get_consolidation_stats]
    ([data_resolution/relationship_resolver.py]). *)
Module Consolidation.

(** [sub in s] on strings. *)
Fixpoint contains (sub s : string) : bool :=
  String.prefix sub s
  || match s with
     | EmptyString => false
     | String _ s' => contains sub s'
     end.

Record Stats : Type := {
  total_decisions : Z;
  exact_duplicates_removed : Z;
  relationships_consolidated : Z;
  canonical_kept : Z
}.

(** One round of the loop over [self.resolution_decisions]. *)
Definition count (stats : Stats) (decision : RelationshipResolutionDecision)
  : Stats :=
  match action decision with
  | KEEP_CANONICAL =>
      {| total_decisions := total_decisions stats;
         exact_duplicates_removed :=
           if contains "exact_duplicate_removal" (consolidation_method decision)
           then (exact_duplicates_removed stats
                 + Z.of_nat (List.length (merged_relationship_ids decision)))%Z
           else exact_duplicates_removed stats;
         relationships_consolidated := relationships_consolidated stats;
         canonical_kept := (canonical_kept stats + 1)%Z |}
  | CONSOLIDATE_RELATIONSHIPS =>
      {| total_decisions := total_decisions stats;
         exact_duplicates_removed := exact_duplicates_removed stats;
         relationships_consolidated :=
           (relationships_consolidated stats
            + Z.of_nat (List.length (merged_relationship_ids decision)))%Z;
         canonical_kept := canonical_kept stats |}
  | _ => stats
  end.

Definition get_consolidation_stats
  (resolution_decisions : RelationshipResolver.State) : Stats :=
  fold_left count resolution_decisions
    {| total_decisions := Z.of_nat (List.length resolution_decisions);
       exact_duplicates_removed := 0;
       relationships_consolidated := 0;
       canonical_kept := 0 |}.

End Consolidation.

(** The relationships that the decisions [ds] list as merged away. *)
Definition merged_total (ds : list RelationshipResolutionDecision) : nat :=
  list_sum (map (fun d => List.length (merged_relationship_ids d)) ds).

(** The two kinds of decision the relationship resolver records. *)
Definition resolver_decision (d : RelationshipResolutionDecision) : Prop :=
  (action d = KEEP_CANONICAL
   /\ consolidation_method d = "exact_duplicate_removal")
  \/ action d = CONSOLIDATE_RELATIONSHIPS.

(** Between the states [s] and [s'] the resolver recorded decisions that
    merge away the difference between [taken] and [given] relationships. *)
Definition records (taken given : nat) (s s' : RelationshipResolver.State)
  : Prop :=
  exists new, s' = s ++ new /\ Forall resolver_decision new
              /\ (merged_total new + given = taken)%nat.

(** From a state that satisfies [I] the computation keeps [I], returns a
    value that satisfies [Q], and raises nothing but the rejection of a
    confidence outside [0,1]. *)
Definition fails_only_on_confidence {S A : Type} (I : S -> Prop) (m : M S A)
  (Q : A -> Prop) : Prop :=
  forall s, I s ->
    match m s with
    | Ok (a, s') => I s' /\ Q a
    | Error e => e = ValidationError "confidence"
    end.

(** Every pattern on record lists at least one predicate. *)
Definition patterns_nonempty (st : ConnectionDiscoverer.State) : Prop :=
  forall k v, In (k, v) st -> v <> [].

(** Further concrete inputs. *)
Module MoreExamples.

(** Two edges with the same triple and one in the opposite direction. *)
Definition reversed_pair : list Relationship :=
  [ Examples.relationship "r1" "e1" DEPENDS_ON "m1" (8 # 10) (Some "A");
    Examples.relationship "r2" "e1" DEPENDS_ON "m1" (6 # 10) (Some "B");
    Examples.relationship "r3" "m1" DEPENDS_ON "e1" (6 # 10) None ].

(** One relationship among the entities of [Examples.churn]. *)
Definition churn_edge : list Relationship :=
  [ Examples.relationship "r1" "z1" DEPENDS_ON "a1" (8 # 10) None ].

End MoreExamples.

(* ================================================================== *)
(** * Properties *)

(** ** Scenario 3: rewrite and fusion *)

Lemma scenario3_value :
  RelationshipResolver.run "max" Examples.scenario3_relationships
    Examples.scenario3_mapping
  = Ok ([Examples.relationship "r1" "e1" DEPENDS_ON "m1" (8 # 10) (Some "A")],
        [{| action := KEEP_CANONICAL; canonical_relationship_id := "r1";
            merged_relationship_ids := ["r2"];
            consolidated_confidence := 8 # 10;
            consolidation_method := "exact_duplicate_removal" |}]).
Proof. vm_compute. reflexivity. Qed.

(** C3, as stated, fails: after the rewrite [r1] and [r2] are exact
    duplicates, so the resolver never reaches the context fusion and never
    records a consolidate decision. *)
Lemma scenario3_not_fused :
  ~ (exists out,
        RelationshipResolver.run "max" Examples.scenario3_relationships
          Examples.scenario3_mapping = Ok out
        /\ scenario3_expected out).
Proof.
  intros (out & Hrun & r & d & Hout & (_ & _ & _ & _ & Hctx) & _).
  rewrite scenario3_value in Hrun.
  injection Hrun as <-.
  injection Hout as <- _.
  discriminate Hctx.
Qed.

(** C3, amended: on the input of scenario 3 with method max, relationship
    resolution returns exactly one edge e1-dependsOn-m1, the one with id r1,
    with confidence 0.8 and context "A", and records exactly one decision,
    whose action is keep_canonical (exact duplicate removal of r2). *)
Theorem scenario3_keeps_best :
  exists out,
    RelationshipResolver.run "max" Examples.scenario3_relationships
      Examples.scenario3_mapping = Ok out
    /\ scenario3_returned out.
Proof.
  eexists. split.
  - apply scenario3_value.
  - do 2 eexists. split; [reflexivity|].
    unfold scenario3_edge. cbn.
    repeat split; reflexivity.
Qed.

(** ** Evaluations on concrete inputs *)

(** C1 (the code departs from the claim): on two spellings of an acronym
    and its full form, the fuzzy pass retires a2 into a1 and the acronym pass
    then retires a1 into m1; the remap table still sends a2 to a1, which is
    not the id of any canonical entity. *)
Theorem remap_target_not_canonical :
  exists r,
    reference_resolve Pipeline.default_config Examples.acronym_chain [] = Ok r
    /\ map ent_id (Pipeline.canonical_entities r) = ["m1"]
    /\ Pipeline.entity_id_mapping_of (Pipeline.entity_decisions r)
       = [("a2", "a1"); ("a1", "m1")]
    /\ remap_target
         (Pipeline.entity_id_mapping_of (Pipeline.entity_decisions r)) "a2"
       = Some "a1"
    /\ is_canonical_id (Pipeline.canonical_entities r) "a1" = false.
Proof.
  eexists. split; [vm_compute; reflexivity|].
  repeat split; vm_compute; reflexivity.
Qed.

(** C2 (the code departs from the claim): the first run keeps b ("cost
    margin") and c ("margin"), c being a singleton cluster committed without
    the test against the canonical b; the second run, on the first run's
    output, folds c into b. *)
Theorem second_run_merges_again :
  exists r1 r2,
    reference_resolve Pipeline.default_config Examples.overlapping_names [] = Ok r1
    /\ reference_resolve Pipeline.default_config
         (Pipeline.canonical_entities r1) (Pipeline.consolidated_relationships r1)
       = Ok r2
    /\ map ent_id (Pipeline.canonical_entities r1) = ["b"; "c"]
    /\ map ent_id (Pipeline.canonical_entities r2) = ["b"]
    /\ map duplicate_entity_ids (Pipeline.entity_decisions r2) = [["c"]].
Proof.
  eexists. eexists. split; [vm_compute; reflexivity|].
  split; [vm_compute; reflexivity|].
  repeat split; vm_compute; reflexivity.
Qed.

(** C4 (the code departs from the claim): for two entities of one type that
    agree on name, description and an attribute, the composite score is
    0.6 + 0.4 + 0.2 = 1.2, and building the proposal fails the bound on its
    confidence; the same happens in a whole run when such a pair survives
    entity resolution. *)
Theorem composite_score_exceeds_one :
  ConnectionDiscoverer._calculate_entity_similarity (F := Reference.fuzz)
    (4 # 10) (6 # 10)
    (Examples.entity "e1" KPI "Revenue" (Some "Total revenue") (9 # 10)
                     [("unit", "USD")])
    (Examples.entity "e2" KPI "Revenue" (Some "Total revenue") (9 # 10)
                     [("unit", "USD")]) == 12 # 10
  /\ ConnectionDiscoverer.run (F := Reference.fuzz) (Mt := Reference.math)
       (6 # 10) true true Examples.twins []
     = Error (ValidationError "confidence")
  /\ reference_resolve Pipeline.default_config Examples.surviving_twins []
     = Error (ValidationError "confidence").
Proof.
  repeat split; vm_compute; reflexivity.
Qed.

(** C6 (the code departs from the claim): the acronym NP matches both full
    forms, two decisions each list it as a duplicate, and it is removed once:
    3 entities are processed, 2 remain, and entities_merged is 2. *)
Theorem acronym_counted_twice :
  exists r,
    reference_resolve Pipeline.default_config Examples.shared_acronym [] = Ok r
    /\ Pipeline.entities_processed (Pipeline.stats r) = 3%Z
    /\ Pipeline.len (Pipeline.canonical_entities r) = 2%Z
    /\ Pipeline.entities_merged (Pipeline.stats r) = 2%Z
    /\ map duplicate_entity_ids (Pipeline.entity_decisions r) = [["s"]; ["s"]].
Proof.
  eexists. split; [vm_compute; reflexivity|].
  repeat split; vm_compute; reflexivity.
Qed.

(** C5, as stated, fails: the three proposals of confidence 0.8 stay in the
    order in which they were first made, with subject z1 ahead of subject
    a1. *)
Lemma discoveries_not_in_spec_order :
  exists l,
    reference_discovery Pipeline.default_config Examples.churn [] = Ok l
    /\ ~ Sorted (fun d1 d2 => spec_key_le d1 d2 = true) l.
Proof.
  eexists. split; [vm_compute; reflexivity|].
  intros H.
  inversion H as [|? ? H1 _]; subst.
  inversion H1 as [|? ? _ H2]; subst.
  inversion H2 as [|? ? H3]; subst.
  vm_compute in H3. discriminate H3.
Qed.


(** C8, as stated, fails: when two members tie on score and on confidence
    the first member of the cluster is elected, whichever way the ids are
    ordered. *)
Lemma medoid_tie_ignores_ids :
  reference_medoid Examples.tie_ba
    <> spec_select_medoid (F := Reference.fuzz) id_ascending Examples.tie_ba
  /\ reference_medoid Examples.tie_ab
    <> spec_select_medoid (F := Reference.fuzz) id_descending Examples.tie_ab.
Proof.
  split; vm_compute; discriminate.
Qed.

(** C9, as stated, fails: at threshold 100 the name "cost" clusters with
    "cost margin", of which it is a strict substring. *)
Lemma substring_clusters_at_100 :
  ~ (forall entities e1 e2,
        In e1 entities -> In e2 entities ->
        (same_cluster (reference_clusters 100 entities) e1 e2
         <-> EntityResolver.clean_entity_name (ent_name e1)
             = EntityResolver.clean_entity_name (ent_name e2))).
Proof.
  intros H.
  specialize (H Examples.substring_pair
                (Examples.entity "a" KPI "cost" None (5 # 10) [])
                (Examples.entity "b" KPI "cost margin" None (9 # 10) [])).
  assert (Hc : same_cluster (reference_clusters 100 Examples.substring_pair)
                 (Examples.entity "a" KPI "cost" None (5 # 10) [])
                 (Examples.entity "b" KPI "cost margin" None (9 # 10) [])).
  { exists "cost", Examples.substring_pair.
    split; [vm_compute; left; reflexivity|].
    split; [left; reflexivity | right; left; reflexivity]. }
  apply H in Hc; [| left; reflexivity | right; left; reflexivity].
  vm_compute in Hc. discriminate Hc.
Qed.

(** ** The monad *)

Lemma bind_ok {S A B : Type} (m : M S A) (f : A -> M S B) s a s' :
  m s = Ok (a, s') -> bind m f s = f a s'.
Proof. unfold bind. intros ->. reflexivity. Qed.

Lemma bind_inv {S A B : Type} (m : M S A) (f : A -> M S B) s b s'' :
  bind m f s = Ok (b, s'') ->
  exists a s', m s = Ok (a, s') /\ f a s' = Ok (b, s'').
Proof.
  unfold bind. destruct (m s) as [[a s']|e]; [|discriminate].
  intros H. exists a, s'. split; [reflexivity | exact H].
Qed.

Lemma in_unit_interval_iff q : in_unit_interval q = true <-> 0 <= q <= 1.
Proof.
  unfold in_unit_interval. rewrite andb_true_iff, !Qle_bool_iff. reflexivity.
Qed.

Lemma check_unit_ok {S : Type} field q (s : S) :
  0 <= q <= 1 -> check_unit field q s = Ok (tt, s).
Proof.
  intros H. unfold check_unit.
  apply in_unit_interval_iff in H. rewrite H. reflexivity.
Qed.

(** A loop that appends succeeds when each round does, and keeps an
    invariant of the state. *)
Lemma for_append_ok {S A B : Type} (I : S -> Prop) (P : A -> Prop)
  (R : A -> B -> Prop) (body : A -> M S B) :
  (forall x s, P x -> I s -> exists y s', body x s = Ok (y, s') /\ I s' /\ R x y) ->
  forall l s, Forall P l -> I s ->
  exists ys s', for_append l body s = Ok (ys, s') /\ I s' /\ Forall2 R l ys.
Proof.
  intros Hbody. induction l as [|x l IH]; intros s Hl Hs.
  - exists [], s. split; [reflexivity | split; [assumption | constructor]].
  - inversion Hl as [|? ? Hx Hl']; subst.
    destruct (Hbody x s Hx Hs) as (y & s1 & E1 & Hs1 & Hxy).
    destruct (IH s1 Hl' Hs1) as (ys & s2 & E2 & Hs2 & Hys).
    exists (y :: ys), s2. cbn [for_append].
    rewrite (bind_ok _ _ _ _ _ E1), (bind_ok _ _ _ _ _ E2).
    split; [reflexivity | split; [assumption | constructor; assumption]].
Qed.

(** ** Endpoint rewrite *)

Lemma new_Relationship_ok {S : Type} i s p o c ctx src (st : S) :
  0 <= c <= 1 ->
  new_Relationship i s p o c ctx src st
  = Ok ({| rel_id := i; subject_id := s; predicate := p; object_id := o;
           rel_confidence := c; context := ctx; rel_source_chunk_id := src |}, st).
Proof.
  intros H. unfold new_Relationship.
  rewrite (bind_ok _ _ _ _ _ (check_unit_ok _ _ _ H)). reflexivity.
Qed.

Lemma rewrite_one_ok mapping r st :
  valid_relationship r ->
  exists r', RelationshipResolver.rewrite_one mapping r st = Ok (r', st)
             /\ rewritten_from mapping r r' /\ valid_relationship r'.
Proof.
  intros Hv. unfold RelationshipResolver.rewrite_one, rewritten_from, remap_target.
  set (ns := match dict_get String.eqb mapping (subject_id r) with
             | Some c => c | None => subject_id r end).
  set (no := match dict_get String.eqb mapping (object_id r) with
             | Some c => c | None => object_id r end).
  destruct (negb (ns =? subject_id r)%string || negb (no =? object_id r)%string)
    eqn:Hchg.
  - eexists. split; [apply new_Relationship_ok; exact Hv|].
    cbn. repeat split; try reflexivity; apply Hv.
  - apply orb_false_iff in Hchg. destruct Hchg as [H1 H2].
    apply negb_false_iff, String.eqb_eq in H1.
    apply negb_false_iff, String.eqb_eq in H2.
    exists r. repeat split; try reflexivity; try apply Hv; symmetry; assumption.
Qed.

(** C10: the rewrite of endpoints returns, for relationships in the order
    given and in the same number, relationships with the same id, predicate,
    confidence, context and source chunk id; only subject_id and object_id
    may differ, and they are the mapped ids.  The resolver's decisions are
    left as they were. *)
Theorem rewrite_changes_endpoints_only
  (mapping : Dict string string) (relationships : list Relationship)
  (decisions : RelationshipResolver.State) :
  Forall valid_relationship relationships ->
  exists rewritten,
    RelationshipResolver._update_relationship_entity_ids relationships mapping
      decisions = Ok (rewritten, decisions)
    /\ Forall2 (rewritten_from mapping) relationships rewritten
    /\ List.length rewritten = List.length relationships.
Proof.
  intros Hv. unfold RelationshipResolver._update_relationship_entity_ids.
  destruct (for_append_ok (fun s => s = decisions) valid_relationship
              (rewritten_from mapping)
              (RelationshipResolver.rewrite_one mapping)) with
    (l := relationships) (s := decisions) as (ys & s' & E & -> & HF);
    [ | assumption | reflexivity | ].
  - intros x s Hx ->.
    destruct (rewrite_one_ok mapping x decisions Hx) as (r' & E & Hr & _).
    exists r', decisions. split; [assumption | split; [reflexivity | assumption]].
  - exists ys. split; [assumption | split; [assumption |]].
    symmetry. eapply Forall2_length; eassumption.
Qed.

Lemma rewrite_changes_endpoints_only_witness :
  exists rewritten,
    RelationshipResolver._update_relationship_entity_ids
      Examples.scenario3_relationships Examples.scenario3_mapping []
    = Ok (rewritten, [])
    /\ Forall2 (rewritten_from Examples.scenario3_mapping)
               Examples.scenario3_relationships rewritten
    /\ List.length rewritten = List.length Examples.scenario3_relationships.
Proof.
  apply (rewrite_changes_endpoints_only Examples.scenario3_mapping
           Examples.scenario3_relationships []).
  repeat constructor; unfold valid_relationship; cbn; lra.
Defined.

(** ** The final discovery list *)

Section SortDesc.
Context {A : Type}.
Variable key : A -> Q.

Lemma insert_desc_in x l y :
  In y (ConnectionDiscoverer.insert_desc key x l) -> y = x \/ In y l.
Proof.
  induction l as [|z l IH]; cbn.
  - intros [<-|[]]. left. reflexivity.
  - destruct (Py.Qgtb (key z) (key x)); cbn.
    + intros [<-|H]; [right; left; reflexivity|].
      destruct (IH H) as [->|H']; [left; reflexivity | right; right; exact H'].
    + intros [<-|H]; [left; reflexivity | right; exact H].
Qed.

Lemma insert_desc_sorted x l :
  StronglySorted (descending key) l ->
  StronglySorted (descending key) (ConnectionDiscoverer.insert_desc key x l).
Proof.
  induction 1 as [|z l Hs IH Hz]; cbn.
  - repeat constructor.
  - destruct (Py.Qgtb (key z) (key x)) eqn:Hgt.
    + constructor; [exact IH|].
      apply Forall_forall. intros y Hy.
      apply insert_desc_in in Hy. destruct Hy as [->|Hy].
      * unfold Py.Qgtb in Hgt. apply negb_true_iff in Hgt.
        unfold descending. destruct (Qlt_le_dec (key x) (key z)) as [Hlt|Hle].
        -- apply Qlt_le_weak. exact Hlt.
        -- apply Qle_bool_iff in Hle. congruence.
      * rewrite Forall_forall in Hz. apply Hz. exact Hy.
    + unfold Py.Qgtb in Hgt. apply negb_false_iff, Qle_bool_iff in Hgt.
      constructor; [constructor; assumption|].
      constructor; [exact Hgt|].
      apply Forall_forall. intros y Hy.
      rewrite Forall_forall in Hz. unfold descending.
      apply Qle_trans with (key z); [apply Hz; exact Hy | exact Hgt].
Qed.

Lemma sort_desc_sorted l :
  StronglySorted (descending key) (ConnectionDiscoverer.sort_desc key l).
Proof.
  induction l as [|x l IH]; cbn.
  - constructor.
  - apply insert_desc_sorted. exact IH.
Qed.

Lemma filter_sorted (f : A -> bool) l :
  StronglySorted (descending key) l -> StronglySorted (descending key) (filter f l).
Proof.
  induction 1 as [|z l Hs IH Hz]; cbn.
  - constructor.
  - destruct (f z); [|exact IH].
    constructor; [exact IH|].
    apply Forall_forall. intros y Hy. apply filter_In in Hy.
    rewrite Forall_forall in Hz. apply Hz. apply Hy.
Qed.

Lemma firstn_sorted n l :
  StronglySorted (descending key) l -> StronglySorted (descending key) (firstn n l).
Proof.
  intros H. revert n. induction H as [|z l Hs IH Hz]; intros [|n]; cbn;
    try constructor.
  - apply IH.
  - apply Forall_forall. intros y Hy.
    rewrite Forall_forall in Hz. apply Hz.
    rewrite <- (firstn_skipn n l). apply in_or_app. left. exact Hy.
Qed.
End SortDesc.

Lemma slice_to_sorted {A : Type} (key : A -> Q) n l :
  StronglySorted (fun a b => key b <= key a) l ->
  StronglySorted (fun a b => key b <= key a) (Pipeline.slice_to n l).
Proof.
  intros H. unfold Pipeline.slice_to.
  destruct (0 <=? n)%Z; apply firstn_sorted; exact H.
Qed.

Lemma slice_to_length {A : Type} n (l : list A) :
  (0 <= n)%Z -> (Pipeline.len (Pipeline.slice_to n l) <= n)%Z.
Proof.
  intros Hn. unfold Pipeline.slice_to, Pipeline.len.
  apply Z.leb_le in Hn. rewrite Hn. apply Z.leb_le in Hn.
  rewrite length_firstn. lia.
Qed.

(** Whatever the discoverer returns went through its final sort. *)
Lemma discover_connections_sorted {F : Fuzz} {Mt : Math}
  threshold dw nw transitive rules entities relationships st l st' :
  ConnectionDiscoverer.discover_connections threshold dw nw transitive rules
    entities relationships st = Ok (l, st') ->
  exists unique, l = ConnectionDiscoverer.sort_desc cd_confidence unique.
Proof.
  unfold ConnectionDiscoverer.discover_connections. intros H.
  repeat (apply bind_inv in H; destruct H as (? & ? & _ & H)).
  unfold ret in H. injection H as <- _. eexists. reflexivity.
Qed.

(** C5, amended: the final discovery list is sorted by confidence,
    descending, and by nothing else (proposals of equal confidence are not
    ordered by subject id, object id or predicate); for a non-negative
    max_discoveries_per_run its length is at most that number. *)
Theorem final_discoveries_sorted_by_confidence {F : Fuzz} {Mt : Math}
  (config : Pipeline.Config) (entities : list Entity)
  (relationships : list Relationship) (final : list ConnectionDiscovery) :
  (0 <= Pipeline.max_discoveries_per_run config)%Z ->
  Pipeline.run_connection_discovery config entities relationships = Ok final ->
  StronglySorted confidence_desc final
  /\ (Pipeline.len final <= Pipeline.max_discoveries_per_run config)%Z.
Proof.
  intros Hmax. unfold Pipeline.run_connection_discovery, ConnectionDiscoverer.run.
  destruct (ConnectionDiscoverer.discover_connections _ _ _ _ _ _ _ _)
    as [[l st']|e] eqn:E; [|discriminate].
  apply discover_connections_sorted in E. destruct E as (u & ->).
  set (high := filter _ _).
  assert (Hs : StronglySorted confidence_desc high).
  { apply (filter_sorted cd_confidence). apply sort_desc_sorted. }
  destruct (Pipeline.max_discoveries_per_run config <? Pipeline.len high)%Z eqn:Hlt;
    intros H; injection H as <-.
  - split; [apply (slice_to_sorted cd_confidence); exact Hs |].
    apply slice_to_length. exact Hmax.
  - split; [exact Hs|]. apply Z.ltb_ge in Hlt. exact Hlt.
Qed.

Lemma final_discoveries_sorted_by_confidence_witness :
  exists final,
    reference_discovery Pipeline.default_config Examples.churn [] = Ok final
    /\ StronglySorted confidence_desc final
    /\ (Pipeline.len final <= 1000)%Z.
Proof.
  eexists. split; [vm_compute; reflexivity|].
  apply (final_discoveries_sorted_by_confidence (F := Reference.fuzz)
           (Mt := Reference.math) Pipeline.default_config Examples.churn []).
  - vm_compute. discriminate.
  - vm_compute. reflexivity.
Defined.

(** ** [max] with a key *)

Lemma Qgtb_true a b : Py.Qgtb a b = true <-> b < a.
Proof.
  unfold Py.Qgtb. rewrite negb_true_iff. split.
  - intros H. apply Qnot_le_lt. intros Hle.
    apply Qle_bool_iff in Hle. congruence.
  - intros H. destruct (Qle_bool a b) eqn:E; [|reflexivity].
    apply Qle_bool_iff in E. exfalso. apply (Qlt_not_le _ _ H E).
Qed.

Lemma Qgtb_false a b : Py.Qgtb a b = false <-> a <= b.
Proof.
  unfold Py.Qgtb. rewrite negb_false_iff. apply Qle_bool_iff.
Qed.

Lemma Qltb_true a b : Py.Qltb a b = true <-> a < b.
Proof. apply (Qgtb_true b a). Qed.

Lemma Qgeb_true a b : Py.Qgeb a b = true <-> b <= a.
Proof. unfold Py.Qgeb. apply Qle_bool_iff. Qed.

Section MaxBy.
Context {A : Type}.
Variable key : A -> Q.

(** The running maximum splits what has been read into strictly smaller
    keys before it and keys that do not exceed it after it. *)
Lemma max_from_first_max l : forall pre best mid,
  Forall (fun x => key x < key best) pre ->
  Forall (fun x => key x <= key best) mid ->
  exists pre' post',
    pre ++ best :: mid ++ l = pre' ++ Py.max_from (key_gt key) best l :: post'
    /\ Forall (fun x => key x < key (Py.max_from (key_gt key) best l)) pre'
    /\ Forall (fun x => key x <= key (Py.max_from (key_gt key) best l)) post'.
Proof.
  induction l as [|x l IH]; intros pre best mid Hpre Hmid; cbn [Py.max_from].
  - exists pre, mid. rewrite app_nil_r. auto.
  - destruct (key_gt key x best) eqn:Hgt; unfold key_gt in Hgt.
    + apply Qgtb_true in Hgt.
      destruct (IH (pre ++ best :: mid) x []) as (pre' & post' & E & H1 & H2).
      * apply Forall_app. split.
        -- eapply Forall_impl; [|exact Hpre]. cbn. intros a Ha.
           eapply Qlt_trans; eassumption.
        -- constructor; [exact Hgt|].
           eapply Forall_impl; [|exact Hmid]. cbn. intros a Ha.
           eapply Qle_lt_trans; eassumption.
      * constructor.
      * exists pre', post'. split; [|auto].
        rewrite <- E. rewrite <- app_assoc. reflexivity.
    + apply Qgtb_false in Hgt.
      destruct (IH pre best (mid ++ [x])) as (pre' & post' & E & H1 & H2).
      * exact Hpre.
      * apply Forall_app. split; [exact Hmid|]. constructor; [exact Hgt|constructor].
      * exists pre', post'. split; [|auto].
        rewrite <- E. rewrite <- app_assoc. reflexivity.
Qed.

Lemma max_by_first_max l m :
  Py.max_by (key_gt key) l = Some m ->
  exists pre post,
    l = pre ++ m :: post
    /\ Forall (fun x => key x < key m) pre
    /\ Forall (fun x => key x <= key m) post.
Proof.
  destruct l as [|x l]; cbn; [discriminate|].
  intros H. injection H as <-.
  destruct (max_from_first_max l [] x []) as (pre & post & E & H1 & H2);
    [constructor | constructor |].
  exists pre, post. auto.
Qed.

Lemma max_by_some l : l <> [] -> exists m, Py.max_by (key_gt key) l = Some m.
Proof.
  destruct l as [|x l]; [congruence|]. intros _. eexists. reflexivity.
Qed.

Lemma max_by_in l m : Py.max_by (key_gt key) l = Some m -> In m l.
Proof.
  intros H. apply max_by_first_max in H. destruct H as (pre & post & -> & _).
  apply in_or_app. right. left. reflexivity.
Qed.
End MaxBy.

(** ** Medoid election *)

Lemma length_enumerate {A : Type} (l : list A) :
  List.length (EntityResolver.enumerate l) = List.length l.
Proof.
  unfold EntityResolver.enumerate.
  rewrite length_combine, length_seq. apply Nat.min_id.
Qed.

Lemma length_similarity_scores {F : Fuzz} entities :
  List.length (EntityResolver.similarity_scores entities) = List.length entities.
Proof.
  unfold EntityResolver.similarity_scores.
  rewrite length_map. apply length_enumerate.
Qed.

Lemma map_snd_combine {A B : Type} (l : list A) : forall (l' : list B),
  List.length l = List.length l' -> map snd (combine l l') = l'.
Proof.
  induction l as [|x l IH]; intros [|y l']; cbn; try discriminate; auto.
  intros H. injection H as H. rewrite (IH _ H). reflexivity.
Qed.

Lemma within_ten_of_itself (s : Q) : Py.Qltb (Qabs (s - s)) 10 = true.
Proof.
  apply Qltb_true. apply Qabs_Qlt_condition. split; lra.
Qed.

(** C8, amended: for a cluster of more than one member, the elected member
    is, among the members whose summed score is strictly within 10 points of
    the largest summed score, one of highest confidence; ties that remain are
    broken by position, the earliest such member of the cluster being elected
    (entity ids play no part). *)
Theorem medoid_is_first_most_confident_candidate {F : Fuzz}
  (entities : list Entity) :
  (1 < List.length entities)%nat ->
  exists medoid max_score earlier later,
    EntityResolver._select_medoid_entity entities = Some medoid
    /\ In max_score (EntityResolver.similarity_scores entities)
    /\ Forall (fun s => s <= max_score) (EntityResolver.similarity_scores entities)
    /\ EntityResolver.medoid_candidates entities max_score
       = earlier ++ medoid :: later
    /\ Forall (fun e => ent_confidence e < ent_confidence medoid) earlier
    /\ Forall (fun e => ent_confidence e <= ent_confidence medoid) later.
Proof.
  intros Hlen.
  destruct entities as [|e1 [|e2 rest]]; cbn in Hlen; try lia. clear Hlen.
  set (entities := e1 :: e2 :: rest).
  pose proof (length_similarity_scores entities) as Hls.
  set (scores := EntityResolver.similarity_scores entities) in *.
  set (scored := combine entities scores).
  assert (Hne : scored <> []).
  { unfold scored. destruct scores as [|s scores]; [discriminate Hls|].
    discriminate. }
  destruct (max_by_some snd scored Hne) as ([medoid max_score] & Hmax).
  pose proof (max_by_first_max snd scored _ Hmax) as (pre & post & Hsplit & Hpre & Hpost).
  cbn [snd] in Hpre, Hpost.
  assert (Hin : In max_score scores).
  { apply (in_combine_r entities scores medoid). fold scored.
    rewrite Hsplit. apply in_or_app. right. left. reflexivity. }
  assert (Hall : Forall (fun s => s <= max_score) scores).
  { rewrite <- (map_snd_combine entities scores) by (symmetry; exact Hls).
    fold scored. rewrite Hsplit, map_app. cbn [map snd].
    apply Forall_app. split; [|constructor; [apply Qle_refl|]].
    - apply Forall_map. eapply Forall_impl; [|exact Hpre].
      cbn. intros a Ha. apply Qlt_le_weak. exact Ha.
    - apply Forall_map. exact Hpost. }
  set (test := fun es : Entity * Q => Py.Qltb (Qabs (snd es - max_score)) 10).
  assert (Hcand : EntityResolver.medoid_candidates entities max_score
                  = map fst (filter test pre) ++ medoid :: map fst (filter test post)).
  { unfold EntityResolver.medoid_candidates. fold scores. fold scored. fold test.
    rewrite Hsplit, filter_app. cbn [filter].
    unfold test at 2. cbn [snd]. rewrite within_ten_of_itself.
    rewrite map_app. reflexivity. }
  unfold key_gt in Hmax.
  assert (Hsel : EntityResolver._select_medoid_entity entities
                 = match EntityResolver.medoid_candidates entities max_score with
                   | _ :: _ :: _ =>
                       Py.max_by EntityResolver.confidence_gt
                         (EntityResolver.medoid_candidates entities max_score)
                   | _ => Some medoid
                   end).
  { unfold EntityResolver._select_medoid_entity, entities.
    fold entities. fold scores. fold scored. rewrite Hmax. reflexivity. }
  destruct (EntityResolver.medoid_candidates entities max_score)
    as [|c1 [|c2 cs]] eqn:Ecand.
  - destruct (map fst (filter test pre)); discriminate Hcand.
  - exists medoid, max_score, [], [].
    assert (c1 = medoid) as ->.
    { destruct (map fst (filter test pre)) as [|x [|y xs]];
        cbn in Hcand; congruence. }
    split; [exact Hsel|]. split; [exact Hin|]. split; [exact Hall|].
    split; [exact Ecand|]. split; constructor.
  - destruct (max_by_some ent_confidence (c1 :: c2 :: cs)) as (m & Hm);
      [discriminate|].
    pose proof (max_by_first_max ent_confidence _ _ Hm)
      as (earlier & later & E & He & Hl).
    exists m, max_score, earlier, later.
    split; [rewrite Hsel; exact Hm|]. split; [exact Hin|]. split; [exact Hall|].
    split; [rewrite Ecand; exact E|]. split; assumption.
Qed.

Lemma medoid_is_first_most_confident_candidate_witness :
  exists medoid max_score earlier later,
    reference_medoid Examples.tie_ba = Some medoid
    /\ In max_score (EntityResolver.similarity_scores (F := Reference.fuzz)
                       Examples.tie_ba)
    /\ Forall (fun s => s <= max_score)
              (EntityResolver.similarity_scores (F := Reference.fuzz)
                 Examples.tie_ba)
    /\ EntityResolver.medoid_candidates (F := Reference.fuzz)
         Examples.tie_ba max_score = earlier ++ medoid :: later
    /\ Forall (fun e => ent_confidence e < ent_confidence medoid) earlier
    /\ Forall (fun e => ent_confidence e <= ent_confidence medoid) later.
Proof.
  apply (medoid_is_first_most_confident_candidate (F := Reference.fuzz)
           Examples.tie_ba).
  cbn. lia.
Defined.

(** ** Dictionaries and grouping *)

Section DictFacts.
Context {K V : Type}.
Variable eqb : K -> K -> bool.
Hypothesis eqb_eq : forall a b, eqb a b = true <-> a = b.

Lemma dict_get_in (d : Dict K V) k v :
  dict_get eqb d k = Some v -> In (k, v) d.
Proof.
  induction d as [|[k' v'] d IH]; cbn; [discriminate|].
  destruct (eqb k k') eqn:E.
  - apply eqb_eq in E. subst. intros H. injection H as <-. left. reflexivity.
  - intros H. right. apply IH. exact H.
Qed.

Lemma in_dict_get (d : Dict K V) k v :
  NoDup (dict_keys d) -> In (k, v) d -> dict_get eqb d k = Some v.
Proof.
  induction d as [|[k' v'] d IH]; cbn; [intros _ []|].
  intros Hnd [H|H].
  - injection H as -> ->.
    assert (E : eqb k k = true) by (apply eqb_eq; reflexivity).
    rewrite E. reflexivity.
  - inversion Hnd as [|? ? Hk Hnd']; subst.
    destruct (eqb k k') eqn:E.
    + apply eqb_eq in E. subst. exfalso. apply Hk.
      apply (in_map fst) in H. exact H.
    + apply IH; assumption.
Qed.

Lemma dict_set_in_inv (d : Dict K V) k0 v0 k v :
  In (k, v) (dict_set eqb d k0 v0) -> (k, v) = (k0, v0) \/ In (k, v) d.
Proof.
  induction d as [|[k' v'] d IH]; cbn.
  - intros [H|[]]. left. symmetry. exact H.
  - destruct (eqb k0 k') eqn:E; cbn.
    + apply eqb_eq in E. subst k'.
      intros [H|H]; [left; symmetry; exact H | right; right; exact H].
    + intros [H|H]; [right; left; exact H|].
      destruct (IH H) as [H'|H']; [left; exact H' | right; right; exact H'].
Qed.

Lemma dict_set_in_new (d : Dict K V) k0 v0 : In (k0, v0) (dict_set eqb d k0 v0).
Proof.
  induction d as [|[k' v'] d IH]; cbn.
  - left. reflexivity.
  - destruct (eqb k0 k') eqn:E; cbn.
    + apply eqb_eq in E. subst k'. left. reflexivity.
    + right. exact IH.
Qed.

Lemma dict_set_in_other (d : Dict K V) k0 v0 k v :
  k <> k0 -> In (k, v) d -> In (k, v) (dict_set eqb d k0 v0).
Proof.
  intros Hk. induction d as [|[k' v'] d IH]; cbn; [intros []|].
  destruct (eqb k0 k') eqn:E; cbn.
  - apply eqb_eq in E. subst k'.
    intros [H|H]; [injection H as <- _; congruence | right; exact H].
  - intros [H|H]; [left; exact H | right; apply IH; exact H].
Qed.
End DictFacts.

Section GroupByFacts.
Context {K A : Type}.
Variable eqb : K -> K -> bool.
Variable key : A -> K.
Hypothesis eqb_eq : forall a b, eqb a b = true <-> a = b.

Lemma dict_append_keys (d : Dict K (list A)) k x :
  dict_keys (dict_append eqb d k x)
  = dict_keys d ++ (if existsb (eqb k) (dict_keys d) then [] else [k]).
Proof.
  unfold dict_keys.
  induction d as [|[k' xs] d IH]; cbn; [reflexivity|].
  destruct (eqb k k') eqn:E; cbn.
  - rewrite app_nil_r. reflexivity.
  - rewrite IH. reflexivity.
Qed.

Lemma dict_append_in_inv (d : Dict K (list A)) k x k' xs' :
  In (k', xs') (dict_append eqb d k x) ->
  In (k', xs') d
  \/ (k' = k /\ exists xs, xs' = xs ++ [x] /\ (xs = [] \/ In (k, xs) d)).
Proof.
  induction d as [|[k0 xs0] d IH]; cbn.
  - intros [H|[]]. injection H as <- <-. right. split; [reflexivity|].
    exists []. split; [reflexivity | left; reflexivity].
  - destruct (eqb k k0) eqn:E; cbn.
    + apply eqb_eq in E. subst k0.
      intros [H|H]; [|left; right; exact H].
      injection H as <- <-. right. split; [reflexivity|].
      exists xs0. split; [reflexivity | right; left; reflexivity].
    + intros [H|H]; [left; left; exact H|].
      destruct (IH H) as [H'|(-> & xs & -> & [->|H'])].
      * left. right. exact H'.
      * right. split; [reflexivity|]. exists []. auto.
      * right. split; [reflexivity|]. exists xs. auto.
Qed.

Lemma dict_append_keeps (d : Dict K (list A)) k x k' xs :
  In (k', xs) d ->
  exists xs', In (k', xs') (dict_append eqb d k x) /\ incl xs xs'.
Proof.
  induction d as [|[k0 xs0] d IH]; cbn; [intros []|].
  destruct (eqb k k0) eqn:E; cbn.
  - intros [H|H].
    + injection H as <- <-. exists (xs0 ++ [x]).
      split; [left; reflexivity | apply incl_appl, incl_refl].
    + exists xs. split; [right; exact H | apply incl_refl].
  - intros [H|H].
    + exists xs. split; [left; exact H | apply incl_refl].
    + destruct (IH H) as (xs' & H1 & H2). exists xs'. split; [right|]; assumption.
Qed.

Lemma dict_append_adds (d : Dict K (list A)) k x :
  exists xs', In (k, xs') (dict_append eqb d k x) /\ In x xs'.
Proof.
  induction d as [|[k0 xs0] d IH]; cbn.
  - exists [x]. split; left; reflexivity.
  - destruct (eqb k k0) eqn:E; cbn.
    + apply eqb_eq in E. subst k0. exists (xs0 ++ [x]).
      split; [left; reflexivity | apply in_or_app; right; left; reflexivity].
    + destruct IH as (xs' & H1 & H2). exists xs'. split; [right|]; assumption.
Qed.

Lemma existsb_eqb_in k (l : list K) : existsb (eqb k) l = true <-> In k l.
Proof.
  rewrite existsb_exists. split.
  - intros (y & Hy & E). apply eqb_eq in E. subst. exact Hy.
  - intros H. exists k. split; [exact H | apply eqb_eq; reflexivity].
Qed.

Lemma dict_append_well_grouped (d : Dict K (list A)) x :
  well_grouped key d -> well_grouped key (dict_append eqb d (key x) x).
Proof.
  intros [Hnd Hgr]. split.
  - rewrite dict_append_keys.
    destruct (existsb (eqb (key x)) (dict_keys d)) eqn:E.
    + rewrite app_nil_r. exact Hnd.
    + apply NoDup_app; [exact Hnd | repeat constructor; intros [] |].
      intros a Ha [<-|[]].
      apply existsb_eqb_in in Ha. congruence.
  - intros k xs H. apply dict_append_in_inv in H.
    destruct H as [H|(-> & xs0 & -> & Hx)]; [apply Hgr; exact H|].
    split; [destruct xs0; discriminate|].
    intros y Hy. apply in_app_or in Hy. destruct Hy as [Hy|[<-|[]]]; [|reflexivity].
    destruct Hx as [->|Hx]; [destruct Hy|].
    apply (Hgr _ _ Hx). exact Hy.
Qed.

(** The grouping loop, from any well-formed start. *)
Lemma group_loop_spec (l : list A) : forall d,
  well_grouped key d ->
  let d' := fold_left (fun d x => dict_append eqb d (key x) x) l d in
  well_grouped key d'
  /\ (forall x, In x l -> exists xs, In (key x, xs) d' /\ In x xs)
  /\ (forall k xs, In (k, xs) d -> exists xs', In (k, xs') d' /\ incl xs xs')
  /\ (forall k xs x, In (k, xs) d' -> In x xs ->
      In x l \/ exists xs0, In (k, xs0) d /\ In x xs0).
Proof.
  induction l as [|a l IH]; intros d Hd; cbn.
  - split; [exact Hd|]. split; [intros x []|]. split.
    + intros k xs H. exists xs. split; [exact H | apply incl_refl].
    + intros k xs x H Hx. right. exists xs. auto.
  - destruct (IH _ (dict_append_well_grouped d a Hd)) as (H1 & H2 & H3 & H4).
    split; [exact H1|]. split; [|split].
    + intros x [<-|Hx]; [|apply H2; exact Hx].
      destruct (dict_append_adds d (key a) a) as (xs & Hin & Ha).
      destruct (H3 _ _ Hin) as (xs' & Hin' & Hincl).
      exists xs'. split; [exact Hin' | apply Hincl; exact Ha].
    + intros k xs H.
      destruct (dict_append_keeps d (key a) a _ _ H) as (xs1 & Hin1 & Hincl1).
      destruct (H3 _ _ Hin1) as (xs' & Hin' & Hincl').
      exists xs'. split; [exact Hin'|].
      intros y Hy. apply Hincl', Hincl1, Hy.
    + intros k xs x H Hx.
      destruct (H4 _ _ _ H Hx) as [Hl|(xs0 & Hin0 & Hx0)]; [left; right; exact Hl|].
      apply dict_append_in_inv in Hin0.
      destruct Hin0 as [Hin0|(-> & xs1 & -> & Hxs1)].
      * right. exists xs0. auto.
      * apply in_app_or in Hx0. destruct Hx0 as [Hx0|[<-|[]]].
        -- destruct Hxs1 as [->|Hxs1]; [destruct Hx0|].
           right. exists xs1. auto.
        -- left. left. reflexivity.
Qed.

Lemma well_grouped_nil : well_grouped key (@nil (K * list A)).
Proof. split; [constructor | intros k xs []]. Qed.

Lemma group_by_well_grouped l : well_grouped key (group_by eqb key l).
Proof. apply (group_loop_spec l [] well_grouped_nil). Qed.

Lemma group_by_complete l x :
  In x l -> exists xs, In (key x, xs) (group_by eqb key l) /\ In x xs.
Proof. apply (group_loop_spec l [] well_grouped_nil). Qed.

Lemma group_by_sound l k xs x :
  In (k, xs) (group_by eqb key l) -> In x xs -> In x l /\ key x = k.
Proof.
  intros H Hx. split.
  - destruct (group_loop_spec l [] well_grouped_nil) as (_ & _ & _ & H4).
    destruct (H4 _ _ _ H Hx) as [Hl|(xs0 & [] & _)]. exact Hl.
  - destruct (group_by_well_grouped l) as [_ Hgr].
    apply (Hgr _ _ H). exact Hx.
Qed.

Lemma group_by_nonempty l k xs :
  In (k, xs) (group_by eqb key l) -> xs <> [].
Proof.
  intros H. destruct (group_by_well_grouped l) as [_ Hgr]. apply (Hgr _ _ H).
Qed.
End GroupByFacts.

(** ** Fuzzy grouping *)

Lemma name_in_iff name names : EntityResolver.name_in name names = true <-> In name names.
Proof. apply (existsb_eqb_in String.eqb String.eqb_eq). Qed.

Lemma name_in_false name names :
  EntityResolver.name_in name names = false <-> ~ In name names.
Proof.
  rewrite <- name_in_iff. destruct (EntityResolver.name_in name names); split;
    congruence.
Qed.

Section ClusterFacts.
Context {F : Fuzz}.
Variable threshold : Q.
Variable entities : list Entity.

Lemma unique_names_nodup : NoDup (names_of entities).
Proof. apply (group_by_well_grouped String.eqb ent_name String.eqb_eq entities). Qed.

Lemma bucket_holds e :
  In e entities -> In e (EntityResolver.bucket (name_buckets entities) (ent_name e)).
Proof.
  intros He.
  destruct (group_by_complete String.eqb ent_name String.eqb_eq entities e He)
    as (xs & Hin & Hx).
  unfold EntityResolver.bucket.
  rewrite (in_dict_get String.eqb String.eqb_eq (name_buckets entities) _ xs
             unique_names_nodup Hin).
  exact Hx.
Qed.

Lemma bucket_sound name e :
  In e (EntityResolver.bucket (name_buckets entities) name) ->
  In e entities /\ ent_name e = name.
Proof.
  unfold EntityResolver.bucket.
  destruct (dict_get String.eqb (name_buckets entities) name) as [xs|] eqn:E; [|intros []].
  apply (dict_get_in String.eqb String.eqb_eq) in E.
  apply (group_by_sound String.eqb ent_name String.eqb_eq entities _ _ _ E).
Qed.

Lemma name_is_unique_name e : In e entities -> In (ent_name e) (names_of entities).
Proof.
  intros He.
  destruct (group_by_complete String.eqb ent_name String.eqb_eq entities e He)
    as (xs & Hin & _).
  apply (in_map fst) in Hin. exact Hin.
Qed.

Lemma in_similar_unused used name other :
  In other (EntityResolver.similar_unused_names threshold (names_of entities) used name)
  <-> In other (names_of entities) /\ ~ In other used /\ similar_enough threshold name other = true.
Proof.
  unfold EntityResolver.similar_unused_names.
  rewrite filter_In, andb_true_iff, negb_true_iff, name_in_false. reflexivity.
Qed.

(** Every member of a cluster is similar enough to the name that opened it. *)
Lemma cluster_loop_members names : forall used clustered,
  (forall head members e, In (head, members) clustered -> In e members ->
                          similar_enough threshold head (ent_name e) = true) ->
  forall head members e,
    In (head, members)
       (EntityResolver.cluster_loop threshold (name_buckets entities) (names_of entities)
          names used clustered) ->
    In e members -> similar_enough threshold head (ent_name e) = true.
Proof.
  induction names as [|name rest IH]; intros used clustered Hold; cbn.
  - exact Hold.
  - destruct (EntityResolver.name_in name used); [apply IH; exact Hold|].
    destruct (flat_map _ _) as [|c cs] eqn:Ecl; [apply IH; exact Hold|].
    apply IH. intros head members e Hin He.
    apply (dict_set_in_inv String.eqb String.eqb_eq) in Hin.
    destruct Hin as [Hnew|Hin]; [|apply (Hold _ _ _ Hin He)].
    injection Hnew as -> ->. rewrite <- Ecl in He.
    apply in_flat_map in He. destruct He as (other & Hother & He).
    apply bucket_sound in He. destruct He as [_ ->].
    apply in_similar_unused in Hother. apply Hother.
Qed.

(** Two names with the same normalized form are taken by the same cluster. *)
Lemma cluster_loop_joins N M :
  EntityResolver.clean_entity_name N = EntityResolver.clean_entity_name M ->
  In N (names_of entities) -> In M (names_of entities) ->
  EntityResolver.bucket (name_buckets entities) N <> [] ->
  similar_enough threshold N N = true ->
  forall names used clustered,
    NoDup names ->
    (In N used <-> In M used) ->
    (In N used ->
     exists head members,
       In (head, members) clustered
       /\ incl (EntityResolver.bucket (name_buckets entities) N) members
       /\ incl (EntityResolver.bucket (name_buckets entities) M) members) ->
    (forall head members, In (head, members) clustered -> ~ In head names) ->
    In N names \/ In N used ->
    exists head members,
      In (head, members)
         (EntityResolver.cluster_loop threshold (name_buckets entities) (names_of entities)
            names used clustered)
      /\ incl (EntityResolver.bucket (name_buckets entities) N) members
      /\ incl (EntityResolver.bucket (name_buckets entities) M) members.
Proof.
  intros Hclean HN HM Hbucket Hself.
  induction names as [|name rest IH];
    intros used clustered Hnd Hboth Hdone Hkeys Hpending; cbn.
  - destruct Hpending as [[]|Hused]. apply Hdone. exact Hused.
  - inversion Hnd as [|? ? Hfresh Hnd']; subst.
    assert (Hkeys' : forall head members,
               In (head, members) clustered -> ~ In head rest).
    { intros head members Hin Hrest. apply (Hkeys _ _ Hin). right. exact Hrest. }
    destruct (EntityResolver.name_in name used) eqn:Eused.
    + apply IH; try assumption.
      destruct Hpending as [[<-|Hrest]|Hused]; auto.
      right. apply name_in_iff. exact Eused.
    + apply name_in_false in Eused.
      set (taken := EntityResolver.similar_unused_names threshold (names_of entities)
                      used name).
      assert (Hsym : In N taken <-> In M taken).
      { unfold taken. rewrite !in_similar_unused. unfold similar_enough.
        rewrite Hclean, Hboth. tauto. }
      assert (Hhead : name = N -> In N taken).
      { intros ->. apply in_similar_unused. auto. }
      destruct (flat_map (EntityResolver.bucket (name_buckets entities)) taken)
        as [|c cs] eqn:Ecl.
      * apply IH; try assumption.
        destruct Hpending as [[Heq|Hrest]|Hused]; auto.
        exfalso. apply Hbucket.
        destruct (EntityResolver.bucket (name_buckets entities) N) as [|b bs] eqn:Eb;
          [reflexivity|].
        assert (Hb : In b (flat_map (EntityResolver.bucket (name_buckets entities)) taken)).
        { apply in_flat_map. exists N. split; [apply Hhead; exact Heq|].
          rewrite Eb. left. reflexivity. }
        rewrite Ecl in Hb. destruct Hb.
      * rewrite <- Ecl. apply IH; try assumption.
        -- rewrite !in_app_iff, Hboth, Hsym. reflexivity.
        -- intros Hin. apply in_app_or in Hin. destruct Hin as [Hused|Htaken].
           ++ destruct (Hdone Hused) as (head & members & Hin & H1 & H2).
              exists head, members. split; [|auto].
              apply (dict_set_in_other String.eqb String.eqb_eq); [|exact Hin].
              intros ->. apply (Hkeys _ _ Hin). left. reflexivity.
           ++ exists name, (flat_map (EntityResolver.bucket (name_buckets entities)) taken).
              split; [apply (dict_set_in_new String.eqb String.eqb_eq)|].
              split; intros e He; apply in_flat_map.
              ** exists N. auto.
              ** exists M. split; [apply Hsym; exact Htaken | exact He].
        -- intros head members Hin Hrest.
           apply (dict_set_in_inv String.eqb String.eqb_eq) in Hin.
           destruct Hin as [Hnew|Hin]; [|apply (Hkeys' _ _ Hin Hrest)].
           injection Hnew as -> _. apply Hfresh. exact Hrest.
        -- destruct Hpending as [[Heq|Hrest]|Hused]; auto.
           ++ right. apply in_or_app. right. apply Hhead. exact Heq.
           ++ right. apply in_or_app. left. exact Hused.
Qed.

Lemma equal_clean_names_same_cluster e1 e2 :
  In e1 entities -> In e2 entities ->
  EntityResolver.clean_entity_name (ent_name e1)
  = EntityResolver.clean_entity_name (ent_name e2) ->
  similar_enough threshold (ent_name e1) (ent_name e1) = true ->
  same_cluster (EntityResolver._group_entities_by_fuzzy_match threshold entities)
    e1 e2.
Proof.
  intros H1 H2 Hclean Hself.
  destruct (cluster_loop_joins (ent_name e1) (ent_name e2) Hclean
              (name_is_unique_name e1 H1) (name_is_unique_name e2 H2))
    with (names := (names_of entities)) (used := @nil string)
         (clustered := @nil (string * list Entity))
    as (head & members & Hin & Hb1 & Hb2).
  - intros Hb. pose proof (bucket_holds e1 H1) as Hin. rewrite Hb in Hin.
    destruct Hin.
  - exact Hself.
  - apply unique_names_nodup.
  - split; intros [].
  - intros [].
  - intros head members [].
  - left. apply name_is_unique_name. exact H1.
  - exists head, members. split; [exact Hin|].
    split; [apply Hb1, bucket_holds, H1 | apply Hb2, bucket_holds, H2].
Qed.

Lemma cluster_members_similar head members e :
  In (head, members)
     (EntityResolver._group_entities_by_fuzzy_match threshold entities) ->
  In e members -> similar_enough threshold head (ent_name e) = true.
Proof.
  apply cluster_loop_members. intros ? ? ? [].
Qed.
End ClusterFacts.

(** C9, amended: at threshold 100, two entities of a type whose normalized
    names are equal end up in the same cluster (given that the name's partial
    ratio with itself is 100), and every member of a cluster has partial
    ratio at least 100 with the name that opened it.  Equal normalized names
    are sufficient, not necessary: two entities with different normalized
    names can share a cluster, as the names cost and cost margin do, whose
    partial ratio is 100. *)
Theorem equal_normalized_names_cluster_at_100 {F : Fuzz}
  (entities : list Entity) (e1 e2 : Entity) :
  In e1 entities -> In e2 entities ->
  EntityResolver.clean_entity_name (ent_name e1)
  = EntityResolver.clean_entity_name (ent_name e2) ->
  100 <= partial_ratio (EntityResolver.clean_entity_name (ent_name e1))
                       (EntityResolver.clean_entity_name (ent_name e1)) ->
  same_cluster (EntityResolver._group_entities_by_fuzzy_match 100 entities) e1 e2
  /\ forall head members e,
       In (head, members) (EntityResolver._group_entities_by_fuzzy_match 100 entities) ->
       In e members ->
       100 <= partial_ratio (EntityResolver.clean_entity_name head)
                            (EntityResolver.clean_entity_name (ent_name e)).
Proof.
  intros H1 H2 Hclean Hself. split.
  - apply equal_clean_names_same_cluster; try assumption.
    apply Qgeb_true. exact Hself.
  - intros head members e Hin He.
    apply Qgeb_true. eapply cluster_members_similar; eassumption.
Qed.

Lemma equal_normalized_names_cluster_at_100_witness :
  same_cluster (reference_clusters 100 Examples.acronym_chain)
    (Examples.entity "a1" KPI "CAC" None (9 # 10) [])
    (Examples.entity "a2" KPI "cac" None (7 # 10) [])
  /\ forall head members e,
       In (head, members) (reference_clusters 100 Examples.acronym_chain) ->
       In e members ->
       100 <= partial_ratio (Fuzz := Reference.fuzz)
                (EntityResolver.clean_entity_name head)
                (EntityResolver.clean_entity_name (ent_name e)).
Proof.
  apply (equal_normalized_names_cluster_at_100 (F := Reference.fuzz)
           Examples.acronym_chain).
  - left. reflexivity.
  - right. left. reflexivity.
  - vm_compute. reflexivity.
  - vm_compute. discriminate.
Defined.

(** ** Computations that do not raise *)

Lemma returns_ret {S A : Type} (a : A) (P : A -> Prop) :
  P a -> returns (S := S) (ret a) P.
Proof. intros H s. exists a, s. split; [reflexivity | exact H]. Qed.


Lemma returns_weaken {S A : Type} (m : M S A) (P Q : A -> Prop) :
  returns m P -> (forall a, P a -> Q a) -> returns m Q.
Proof.
  intros Hm HPQ s. destruct (Hm s) as (a & s1 & E & Ha).
  exists a, s1. split; [exact E | apply HPQ; exact Ha].
Qed.








(** ** Sums and averages *)

Lemma inject_nat_succ n :
  inject_Z (Z.of_nat (S n)) == inject_Z (Z.of_nat n) + 1.
Proof. rewrite Nat2Z.inj_succ. unfold Z.succ. rewrite inject_Z_plus. reflexivity. Qed.

Lemma inject_nat_pos n : (0 < n)%nat -> 0 < inject_Z (Z.of_nat n).
Proof.
  intros H. change 0 with (inject_Z 0). rewrite <- Zlt_Qlt. lia.
Qed.

Lemma sum_from_bounds lo hi l : forall acc,
  Forall (fun x => lo <= x <= hi) l ->
  acc + lo * inject_Z (Z.of_nat (List.length l)) <= fold_left Qplus l acc
  /\ fold_left Qplus l acc <= acc + hi * inject_Z (Z.of_nat (List.length l)).
Proof.
  induction l as [|x l IH]; intros acc Hl; cbn [fold_left List.length].
  - change (inject_Z (Z.of_nat 0)) with 0. split; lra.
  - inversion Hl as [|? ? Hx Hl']; subst.
    destruct (IH (acc + x) Hl') as [H1 H2].
    pose proof (inject_nat_succ (List.length l)) as Hs.
    split; [rewrite Hs | rewrite Hs]; lra.
Qed.

Lemma average_bounds lo hi l :
  l <> [] -> Forall (fun x => lo <= x <= hi) l ->
  lo <= Py.sum l / inject_Z (Z.of_nat (List.length l)) <= hi.
Proof.
  intros Hne Hl.
  assert (Hpos : 0 < inject_Z (Z.of_nat (List.length l))).
  { apply inject_nat_pos. destruct l; [congruence | cbn; lia]. }
  destruct (sum_from_bounds lo hi l 0 Hl) as [H1 H2]. fold (Py.sum l) in H1, H2.
  split.
  - apply Qle_shift_div_l; [exact Hpos | lra].
  - apply Qle_shift_div_r; [exact Hpos | lra].
Qed.


Lemma max_from_in {A : Type} (gt : A -> A -> bool) l : forall best,
  Py.max_from gt best l = best \/ In (Py.max_from gt best l) l.
Proof.
  induction l as [|x l IH]; intros best; cbn; [left; reflexivity|].
  destruct (IH (if gt x best then x else best)) as [H|H].
  - rewrite H. destruct (gt x best); [right; left; reflexivity | left; reflexivity].
  - right. right. exact H.
Qed.

Lemma max_by_any_in {A : Type} (gt : A -> A -> bool) l m :
  Py.max_by gt l = Some m -> In m l.
Proof.
  destruct l as [|x l]; cbn; [discriminate|].
  intros H. injection H as <-.
  destruct (max_from_in gt l x) as [->|H]; [left; reflexivity | right; exact H].
Qed.


Lemma PredicateType_beq_eq a b : PredicateType_beq a b = true <-> a = b.
Proof.
  split; [apply internal_PredicateType_dec_bl | apply internal_PredicateType_dec_lb].
Qed.

Lemma EntityType_beq_eq a b : EntityType_beq a b = true <-> a = b.
Proof.
  split; [apply internal_EntityType_dec_bl | apply internal_EntityType_dec_lb].
Qed.

Lemma canonical_key_eqb_eq a b :
  RelationshipResolver.canonical_key_eqb a b = true <-> a = b.
Proof.
  destruct a as [[s1 p1] o1], b as [[s2 p2] o2]. cbn.
  rewrite !andb_true_iff, !String.eqb_eq, PredicateType_beq_eq.
  split; [intros [[-> ->] ->]; reflexivity | intros H; injection H; auto].
Qed.

Lemma pair_key_eqb_eq a b :
  RelationshipResolver.pair_key_eqb a b = true <-> a = b.
Proof.
  destruct a as [x1 y1], b as [x2 y2]. unfold RelationshipResolver.pair_key_eqb. cbn.
  rewrite andb_true_iff, !String.eqb_eq.
  split; [intros [-> ->]; reflexivity | intros H; injection H; auto].
Qed.

(** ** The record constructors *)




(** ** The relationship resolver does not raise *)

Section RelationshipTotal.
Variable method : string.




Lemma weight_positive (r : Relationship) :
  (1 <= Z.max 1 (Py.len (Py.or_empty (context r))))%Z.
Proof. lia. Qed.

Lemma weighted_sum_bounds (l : list Relationship) : forall accq accz,
  Forall valid_relationship l ->
  0 <= accq <= inject_Z accz ->
  0 <= fold_left Qplus
         (map (fun cw : Q * Z => fst cw * inject_Z (snd cw))
              (combine (map rel_confidence l)
                       (map (fun r => Z.max 1 (Py.len (Py.or_empty (context r)))) l)))
         accq
    <= inject_Z (fold_left Z.add
                   (map (fun r => Z.max 1 (Py.len (Py.or_empty (context r)))) l)
                   accz).
Proof.
  induction l as [|r l IH]; intros accq accz Hv Hacc; cbn [map combine fold_left].
  - exact Hacc.
  - inversion Hv as [|? ? Hr Hv']; subst. apply IH; [exact Hv'|].
    cbn [fst snd]. rewrite inject_Z_plus.
    set (w := inject_Z (Z.max 1 (Py.len (Py.or_empty (context r))))).
    assert (Hw : 1 <= w).
    { unfold w. change 1 with (inject_Z 1). rewrite <- Zle_Qle.
      apply weight_positive. }
    destruct Hr as [Hr0 Hr1].
    assert (H1 : rel_confidence r * w <= 1 * w)
      by (apply Qmult_le_compat_r; lra).
    assert (H0 : 0 <= rel_confidence r * w)
      by (apply Qmult_le_0_compat; lra).
    lra.
Qed.

Lemma returns_consolidate_confidence_scores l :
  l <> [] -> Forall valid_relationship l ->
  returns (RelationshipResolver._consolidate_confidence_scores method l)
          unit_interval.
Proof.
  intros Hne Hv. unfold RelationshipResolver._consolidate_confidence_scores.
  assert (Hconf : Forall (fun x => 0 <= x <= 1) (map rel_confidence l)).
  { apply Forall_map. exact Hv. }
  assert (Hmax : returns (S := RelationshipResolver.State)
                   match Py.max_list (map rel_confidence l) with
                   | Some m => ret m
                   | None => raise ValueError
                   end unit_interval).
  { destruct (Py.max_list (map rel_confidence l)) as [m|] eqn:E.
    - apply returns_ret. apply max_by_any_in in E.
      rewrite Forall_forall in Hconf. apply Hconf. exact E.
    - destruct l; [congruence | discriminate E]. }
  assert (Havg : returns (RelationshipResolver.mean (map rel_confidence l))
                         unit_interval).
  { unfold RelationshipResolver.mean.
    destruct (map rel_confidence l) as [|c cs] eqn:Ec;
      [destruct l; [congruence | discriminate Ec]|].
    apply returns_ret. apply average_bounds; [discriminate | exact Hconf]. }
  destruct l as [|r [|r2 rest]]; [congruence | |].
  - apply returns_ret. inversion Hv. assumption.
  - set (l := r :: r2 :: rest) in *.
    destruct (String.eqb method "max"); [exact Hmax|].
    destruct (String.eqb method "average"); [exact Havg|].
    destruct (String.eqb method "weighted"); [|exact Hmax].
    destruct (0 <? _)%Z eqn:Epos; [|exact Havg].
    apply returns_ret. apply Z.ltb_lt in Epos.
    pose proof (weighted_sum_bounds l 0 0%Z Hv) as Hb.
    assert (H00 : 0 <= 0 <= inject_Z 0) by (split; apply Qle_refl).
    specialize (Hb H00). fold (Py.sum) in Hb.
    set (total := fold_left Z.add _ 0%Z) in *.
    assert (Htot : 0 < inject_Z total).
    { change 0 with (inject_Z 0). rewrite <- Zlt_Qlt. exact Epos. }
    split.
    + apply Qle_shift_div_l; [exact Htot | apply (Qle_trans _ 0); [lra | apply Hb]].
    + apply Qle_shift_div_r; [exact Htot | rewrite Qmult_1_l; apply Hb].
Qed.





End RelationshipTotal.

(** ** The entity resolver does not raise *)

Section EntityTotal.
Context {F : Fuzz} {FL : FuzzLaws F}.
Variable similarity_threshold : Q.
Variable acronym_threshold : Q.





Lemma cluster_loop_sound entities names : forall used clustered,
  (forall head members e, In (head, members) clustered -> In e members ->
                          In e entities) ->
  forall head members e,
    In (head, members)
       (EntityResolver.cluster_loop similarity_threshold
          (group_by String.eqb ent_name entities)
          (dict_keys (group_by String.eqb ent_name entities))
          names used clustered) ->
    In e members -> In e entities.
Proof.
  induction names as [|name rest IH]; intros used clustered Hold; cbn.
  - exact Hold.
  - destruct (EntityResolver.name_in name used); [apply IH; exact Hold|].
    destruct (flat_map _ _) as [|c cs] eqn:Ecl; [apply IH; exact Hold|].
    apply IH. intros head members e Hin He.
    apply (dict_set_in_inv String.eqb String.eqb_eq) in Hin.
    destruct Hin as [Hnew|Hin]; [|apply (Hold _ _ _ Hin He)].
    injection Hnew as -> ->. rewrite <- Ecl in He.
    apply in_flat_map in He. destruct He as (other & _ & He).
    apply bucket_sound in He. apply He.
Qed.






End EntityTotal.


(** ** The reference instance obeys the laws *)

Lemma lcs_cons a s b t :
  Reference.lcs (a :: s) (b :: t)
  = if Ascii.eqb a b then S (Reference.lcs s t)
    else Nat.max (Reference.lcs s (b :: t)) (Reference.lcs (a :: s) t).
Proof. reflexivity. Qed.

Lemma lcs_nil_r s : Reference.lcs s [] = 0%nat.
Proof. destruct s; reflexivity. Qed.

Lemma lcs_bounds s : forall t,
  (Reference.lcs s t <= List.length s)%nat /\ (Reference.lcs s t <= List.length t)%nat.
Proof.
  induction s as [|a s IHs]; intros t; [cbn; lia|].
  induction t as [|b t IHt]; [rewrite lcs_nil_r; cbn; lia|].
  rewrite lcs_cons. cbn [List.length] in *.
  destruct (Ascii.eqb a b).
  - destruct (IHs t). lia.
  - destruct (IHs (b :: t)) as [H1 H2]. cbn [List.length] in H2. lia.
Qed.

Lemma ratio_chars_range s t : 0 <= Reference.ratio_chars s t <= 100.
Proof.
  unfold Reference.ratio_chars.
  assert (Hgen : (0 < List.length s + List.length t)%nat ->
                 0 <= inject_Z (200 * Z.of_nat (Reference.lcs s t))
                      / inject_Z (Z.of_nat (List.length s + List.length t)) <= 100).
  { intros Hpos. pose proof (inject_nat_pos _ Hpos) as Hq.
    destruct (lcs_bounds s t) as [H1 H2].
    split.
    - apply Qle_shift_div_l; [exact Hq|]. rewrite Qmult_0_l.
      change 0 with (inject_Z 0). rewrite <- Zle_Qle. lia.
    - apply Qle_shift_div_r; [exact Hq|].
      change 100 with (inject_Z 100). rewrite <- inject_Z_mult, <- Zle_Qle. lia. }
  destruct s as [|a s]; [destruct t as [|b t]|].
  - split; lra.
  - apply Hgen. cbn. lia.
  - apply Hgen. cbn. lia.
Qed.

Lemma best_window_range s t : 0 <= Reference.best_window s t <= 100.
Proof.
  unfold Reference.best_window.
  assert (Hgen : forall ws acc, 0 <= acc <= 100 ->
            0 <= fold_left (fun best w => Py.Qmaxb best (Reference.ratio_chars s w))
                           ws acc <= 100).
  { induction ws as [|w ws IH]; intros acc Hacc; cbn [fold_left]; [exact Hacc|].
    apply IH. unfold Py.Qmaxb.
    destruct (Py.Qgtb _ _); [apply ratio_chars_range | exact Hacc]. }
  apply Hgen. split; lra.
Qed.

Lemma partial_ratio_chars_range s t : 0 <= Reference.partial_ratio_chars s t <= 100.
Proof.
  unfold Reference.partial_ratio_chars.
  destruct s as [|a s]; destruct t as [|b t]; try (split; lra).
  destruct (_ <=? _)%nat; apply best_window_range.
Qed.

Lemma reference_fuzz_laws : FuzzLaws Reference.fuzz.
Proof.
  split; intros a b; cbn.
  - apply partial_ratio_chars_range.
  - apply ratio_chars_range.
Qed.


(* ================================================================== *)
(** * Further properties of the resolvers *)

(** ** What a loop returns *)

Lemma for_append_inv {S A B : Type} (P : A -> Prop) (R : A -> B -> Prop)
  (body : A -> M S B) :
  (forall x s y s', P x -> body x s = Ok (y, s') -> R x y) ->
  forall l s ys s',
    Forall P l -> for_append l body s = Ok (ys, s') -> Forall2 R l ys.
Proof.
  intros Hbody. induction l as [|x l IH]; intros s ys s' Hl H; cbn in H.
  - unfold ret in H. injection H as <- _. constructor.
  - inversion Hl as [|? ? Hx Hl']; subst.
    apply bind_inv in H. destruct H as (y & s1 & E1 & H).
    apply bind_inv in H. destruct H as (zs & s2 & E2 & H).
    unfold ret in H. injection H as <- _.
    constructor; [eapply Hbody; eassumption | eapply IH; eassumption].
Qed.

Lemma for_extend_inv {S A B : Type} (P : A -> Prop) (R : A -> list B -> Prop)
  (body : A -> M S (list B)) :
  (forall x s y s', P x -> body x s = Ok (y, s') -> R x y) ->
  forall l s ys s',
    Forall P l -> for_extend l body s = Ok (ys, s') ->
    exists yss, Forall2 R l yss /\ ys = List.concat yss.
Proof.
  intros Hbody. induction l as [|x l IH]; intros s ys s' Hl H; cbn in H.
  - unfold ret in H. injection H as <- _. exists []. split; [constructor | reflexivity].
  - inversion Hl as [|? ? Hx Hl']; subst.
    apply bind_inv in H. destruct H as (y & s1 & E1 & H).
    apply bind_inv in H. destruct H as (zs & s2 & E2 & H).
    unfold ret in H. injection H as <- _.
    destruct (IH _ _ _ Hl' E2) as (yss & HF & ->).
    exists (y :: yss). split; [|reflexivity].
    constructor; [eapply Hbody; eassumption | exact HF].
Qed.

Lemma forall_true {A : Type} (l : list A) : Forall (fun _ => True) l.
Proof. apply Forall_forall. intros; exact I. Qed.

Lemma Forall2_in_r {A B : Type} (R : A -> B -> Prop) l ys :
  Forall2 R l ys -> forall y, In y ys -> exists x, In x l /\ R x y.
Proof.
  induction 1 as [|x y l ys Hxy HF IH]; intros y0 Hy; [destruct Hy|].
  destruct Hy as [<-|Hy].
  - exists x. split; [left; reflexivity | exact Hxy].
  - destruct (IH _ Hy) as (x0 & Hx0 & HR). exists x0. split; [right|]; assumption.
Qed.

Lemma dict_append_length {K A : Type} (eqb : K -> K -> bool)
  (d : Dict K (list A)) k x :
  (List.length (dict_append eqb d k x) <= S (List.length d))%nat.
Proof.
  induction d as [|[k' xs] d IH]; cbn; [lia|].
  destruct (eqb k k'); cbn; lia.
Qed.

Lemma group_loop_length {K A : Type} (eqb : K -> K -> bool) (key : A -> K) l :
  forall d,
    (List.length (fold_left (fun d x => dict_append eqb d (key x) x) l d)
     <= List.length d + List.length l)%nat.
Proof.
  induction l as [|x l IH]; intros d; cbn; [lia|].
  pose proof (IH (dict_append eqb d (key x) x)) as H1.
  pose proof (dict_append_length eqb d (key x) x) as H2. lia.
Qed.

Lemma group_by_length {K A : Type} (eqb : K -> K -> bool) (key : A -> K) l :
  (List.length (group_by eqb key l) <= List.length l)%nat.
Proof. apply (group_loop_length eqb key l []). Qed.

(** One element picked from each group carries the key of its group. *)
Lemma picked_keys {K A : Type} (key : A -> K) (d : Dict K (list A)) : forall out,
  (forall k xs x, In (k, xs) d -> In x xs -> key x = k) ->
  Forall2 (fun g r => In r g) (dict_values d) out ->
  map key out = dict_keys d.
Proof.
  induction d as [|[k xs] d IH]; intros out Hkey HF; cbn in *.
  - inversion HF. reflexivity.
  - inversion HF as [|? r ? out' Hr HF']; subst. cbn.
    rewrite (Hkey k xs r); [|left; reflexivity | exact Hr].
    f_equal. apply IH; [|exact HF'].
    intros k' xs' x Hin Hx. apply (Hkey k' xs' x); [right; exact Hin | exact Hx].
Qed.

(** ** Exact duplicates *)

Lemma select_best_in l s r s' :
  RelationshipResolver._select_best_relationship l s = Ok (r, s') -> In r l.
Proof.
  unfold RelationshipResolver._select_best_relationship.
  destruct (Py.max_by RelationshipResolver.best_key_gt l) as [b|] eqn:E;
    [|discriminate].
  unfold ret. intros H. injection H as <- _. eapply max_by_any_in. exact E.
Qed.

Lemma dedup_group_in group s r s' :
  RelationshipResolver.dedup_group group s = Ok (r, s') -> In r group.
Proof.
  unfold RelationshipResolver.dedup_group.
  assert (Hgen :
    (best_relationship <- RelationshipResolver._select_best_relationship group ;;
     match RelationshipResolver.other_ids best_relationship group with
     | [] => ret best_relationship
     | _ =>
         decision <- new_RelationshipResolutionDecision KEEP_CANONICAL
                       (rel_id best_relationship)
                       (RelationshipResolver.other_ids best_relationship group)
                       (rel_confidence best_relationship)
                       "exact_duplicate_removal" ;;
         RelationshipResolver.record_decision decision ;;;
         ret best_relationship
     end) s = Ok (r, s') -> In r group).
  { intros H. apply bind_inv in H. destruct H as (best & s1 & E1 & H).
    apply select_best_in in E1.
    destruct (RelationshipResolver.other_ids best group).
    - unfold ret in H. injection H as <- _. exact E1.
    - apply bind_inv in H. destruct H as (d & s2 & _ & H).
      apply bind_inv in H. destruct H as (u & s3 & _ & H).
      unfold ret in H. injection H as <- _. exact E1. }
  destruct group as [|x [|y rest]]; [exact Hgen | | exact Hgen].
  unfold ret. intros H. injection H as <- _. left. reflexivity.
Qed.

Lemma remove_exact_duplicates_spec relationships s out s' :
  RelationshipResolver._remove_exact_duplicates relationships s = Ok (out, s') ->
  NoDup (map RelationshipResolver.canonical_key out)
  /\ Forall (fun r => In r relationships) out
  /\ (List.length out <= List.length relationships)%nat.
Proof.
  unfold RelationshipResolver._remove_exact_duplicates. intros H.
  set (groups := group_by RelationshipResolver.canonical_key_eqb
                   RelationshipResolver.canonical_key relationships) in *.
  pose proof (group_by_well_grouped _ RelationshipResolver.canonical_key
                canonical_key_eqb_eq relationships) as [Hnd Hgr].
  fold groups in Hnd, Hgr.
  assert (HF : Forall2 (fun g r => In r g) (dict_values groups) out).
  { eapply (for_append_inv (fun _ => True)); [|apply forall_true | exact H].
    intros g s0 r s0' _ E. eapply dedup_group_in. exact E. }
  split; [|split].
  - rewrite (picked_keys RelationshipResolver.canonical_key groups out);
      [exact Hnd | | exact HF].
    intros k xs x Hin Hx. apply (Hgr _ _ Hin). exact Hx.
  - apply Forall_forall. intros r Hr.
    destruct (Forall2_in_r _ _ _ HF _ Hr) as (g & Hg & Hrg).
    apply in_map_iff in Hg. destruct Hg as ([k g'] & <- & Hin).
    eapply group_by_sound; [apply canonical_key_eqb_eq | exact Hin | exact Hrg].
  - rewrite <- (Forall2_length HF). unfold dict_values. rewrite length_map.
    apply group_by_length.
Qed.

(** X6: exact-duplicate removal returns relationships of its input, no two
    of them with the same (subject, predicate, object), and not more of them
    than it was given. *)
Theorem exact_duplicates_are_removed relationships s out s' :
  RelationshipResolver._remove_exact_duplicates relationships s = Ok (out, s') ->
  NoDup (map RelationshipResolver.canonical_key out)
  /\ Forall (fun r => In r relationships) out
  /\ (List.length out <= List.length relationships)%nat.
Proof. apply remove_exact_duplicates_spec. Qed.

Lemma exact_duplicates_are_removed_witness :
  exists out s',
    RelationshipResolver._remove_exact_duplicates MoreExamples.reversed_pair []
    = Ok (out, s')
    /\ NoDup (map RelationshipResolver.canonical_key out)
    /\ Forall (fun r => In r MoreExamples.reversed_pair) out
    /\ (List.length out <= List.length MoreExamples.reversed_pair)%nat.
Proof.
  eexists. eexists. split; [vm_compute; reflexivity|].
  eapply (exact_duplicates_are_removed MoreExamples.reversed_pair []).
  vm_compute. reflexivity.
Defined.

(** ** Consolidation *)

Lemma new_Relationship_inv {S : Type} i s p o c ctx src (st st' : S) y :
  new_Relationship i s p o c ctx src st = Ok (y, st') ->
  y = {| rel_id := i; subject_id := s; predicate := p; object_id := o;
         rel_confidence := c; context := ctx; rel_source_chunk_id := src |}
  /\ unit_interval c.
Proof.
  unfold new_Relationship, check_unit. intros H.
  apply bind_inv in H. destruct H as (u & s1 & E & H).
  destruct (in_unit_interval c) eqn:Ec; [|discriminate E].
  unfold ret in H. injection H as <- _.
  split; [reflexivity | apply in_unit_interval_iff; exact Ec].
Qed.

Lemma pair_key_endpoints r r' :
  subject_id r' = subject_id r -> object_id r' = object_id r ->
  RelationshipResolver.pair_key r' = RelationshipResolver.pair_key r.
Proof.
  intros H1 H2. unfold RelationshipResolver.pair_key. rewrite H1, H2. reflexivity.
Qed.

(** What a fused edge takes from the elected member of its group. *)
Lemma consolidate_predicate_group_spec method h s y s' :
  RelationshipResolver._consolidate_predicate_group method h s = Ok (y, s') ->
  exists base,
    In base h /\ rel_id y = rel_id base /\ predicate y = predicate base
    /\ RelationshipResolver.pair_key y = RelationshipResolver.pair_key base
    /\ subject_id y = subject_id base /\ object_id y = object_id base.
Proof.
  unfold RelationshipResolver._consolidate_predicate_group.
  assert (Hgen :
    (base_relationship <- RelationshipResolver._select_best_relationship h ;;
     consolidated_confidence <-
       RelationshipResolver._consolidate_confidence_scores method h ;;
     consolidated_relationship <-
       new_Relationship (rel_id base_relationship) (subject_id base_relationship)
         (predicate base_relationship) (object_id base_relationship)
         consolidated_confidence (RelationshipResolver._merge_contexts h)
         (rel_source_chunk_id base_relationship) ;;
     match RelationshipResolver.other_ids base_relationship h with
     | [] => ret consolidated_relationship
     | _ =>
         decision <- new_RelationshipResolutionDecision CONSOLIDATE_RELATIONSHIPS
                       (rel_id base_relationship)
                       (RelationshipResolver.other_ids base_relationship h)
                       consolidated_confidence
                       ("predicate_group_" ++ method)%string ;;
         RelationshipResolver.record_decision decision ;;;
         ret consolidated_relationship
     end) s = Ok (y, s') ->
    exists base,
      In base h /\ rel_id y = rel_id base /\ predicate y = predicate base
      /\ RelationshipResolver.pair_key y = RelationshipResolver.pair_key base
      /\ subject_id y = subject_id base /\ object_id y = object_id base).
  { intros H. apply bind_inv in H. destruct H as (base & s1 & E1 & H).
    apply select_best_in in E1.
    apply bind_inv in H. destruct H as (conf & s2 & _ & H).
    apply bind_inv in H. destruct H as (merged & s3 & E3 & H).
    apply new_Relationship_inv in E3. destruct E3 as [-> _].
    assert (y = {| rel_id := rel_id base; subject_id := subject_id base;
                   predicate := predicate base; object_id := object_id base;
                   rel_confidence := conf;
                   context := RelationshipResolver._merge_contexts h;
                   rel_source_chunk_id := rel_source_chunk_id base |}) as ->.
    { destruct (RelationshipResolver.other_ids base h).
      - unfold ret in H. injection H as <- _. reflexivity.
      - apply bind_inv in H. destruct H as (d & s4 & _ & H).
        apply bind_inv in H. destruct H as (u & s5 & _ & H).
        unfold ret in H. injection H as <- _. reflexivity. }
    exists base. cbn. repeat split; try reflexivity. exact E1. }
  destruct h as [|x [|x2 rest]]; [exact Hgen | | exact Hgen].
  unfold ret. intros H. injection H as <- _.
  exists x. repeat split; try reflexivity. left. reflexivity.
Qed.

Lemma picked_keys_via {K A : Type} (key : A -> K) (d : Dict K (list A)) :
  forall out,
    (forall k xs x, In (k, xs) d -> In x xs -> key x = k) ->
    Forall2 (fun g r => exists b, In b g /\ key r = key b) (dict_values d) out ->
    map key out = dict_keys d.
Proof.
  induction d as [|[k xs] d IH]; intros out Hkey HF; cbn in *.
  - inversion HF. reflexivity.
  - inversion HF as [|? r ? out' (b & Hb & Hr) HF']; subst. cbn.
    rewrite Hr, (Hkey k xs b); [|left; reflexivity | exact Hb].
    f_equal. apply IH; [|exact HF'].
    intros k' xs' x Hin Hx. apply (Hkey k' xs' x); [right; exact Hin | exact Hx].
Qed.

(** The fused edges of one endpoint pair: one per predicate, each on the
    endpoints of the pair and with the id of a member. *)
Lemma consolidate_relationship_group_spec method g s ys s' :
  RelationshipResolver._consolidate_relationship_group method g s = Ok (ys, s') ->
  NoDup (map predicate ys)
  /\ Forall (fun y => exists b, In b g /\ rel_id y = rel_id b
                                /\ RelationshipResolver.pair_key y
                                   = RelationshipResolver.pair_key b) ys
  /\ (List.length ys <= List.length g)%nat.
Proof.
  unfold RelationshipResolver._consolidate_relationship_group.
  assert (Hsmall : (List.length g <= 1)%nat -> ys = g ->
                   NoDup (map predicate ys)
                   /\ Forall (fun y => exists b, In b g /\ rel_id y = rel_id b
                                /\ RelationshipResolver.pair_key y
                                   = RelationshipResolver.pair_key b) ys
                   /\ (List.length ys <= List.length g)%nat).
  { intros Hlen ->. split; [|split; [|lia]].
    - destruct g as [|x [|x2 rest]]; cbn in *; try lia; repeat constructor.
      intros [].
    - apply Forall_forall. intros y Hy. exists y. auto. }
  destruct g as [|x [|x2 rest]].
  - unfold ret. intros H. injection H as <- _. apply Hsmall; [cbn; lia | reflexivity].
  - unfold ret. intros H. injection H as <- _. apply Hsmall; [cbn; lia | reflexivity].
  - clear Hsmall. set (g := x :: x2 :: rest). intros H.
    set (groups := group_by PredicateType_beq predicate g) in *.
    pose proof (group_by_well_grouped _ predicate PredicateType_beq_eq g)
      as [Hnd Hgr]. fold groups in Hnd, Hgr.
    assert (HF : Forall2
                   (fun h y => exists b, In b h /\ rel_id y = rel_id b
                                 /\ predicate y = predicate b
                                 /\ RelationshipResolver.pair_key y
                                    = RelationshipResolver.pair_key b)
                   (dict_values groups) ys).
    { eapply (for_append_inv (fun _ => True)); [|apply forall_true | exact H].
      intros h s0 y s0' _ E.
      apply consolidate_predicate_group_spec in E.
      destruct E as (b & Hb & H1 & H2 & H3 & _). exists b. auto. }
    split; [|split].
    + rewrite (picked_keys_via predicate groups ys); [exact Hnd | |].
      * intros k xs b Hin Hb. apply (Hgr _ _ Hin). exact Hb.
      * eapply Forall2_impl; [|exact HF]. cbn.
        intros h y (b & Hb & _ & Hp & _). exists b. auto.
    + apply Forall_forall. intros y Hy.
      destruct (Forall2_in_r _ _ _ HF _ Hy) as (h & Hh & b & Hb & Hid & _ & Hpk).
      apply in_map_iff in Hh. destruct Hh as ([k h'] & <- & Hin). cbn in Hb.
      exists b. split; [|auto].
      eapply group_by_sound; [apply PredicateType_beq_eq | exact Hin | exact Hb].
    + rewrite <- (Forall2_length HF). unfold dict_values. rewrite length_map.
      apply group_by_length.
Qed.

Lemma dict_append_total {K A : Type} (eqb : K -> K -> bool)
  (d : Dict K (list A)) k x :
  List.length (List.concat (dict_values (dict_append eqb d k x)))
  = S (List.length (List.concat (dict_values d))).
Proof.
  unfold dict_values.
  induction d as [|[k' xs] d IH]; cbn; [reflexivity|].
  destruct (eqb k k'); cbn.
  - rewrite !length_app. cbn. lia.
  - rewrite !length_app, IH. lia.
Qed.

Lemma group_by_total {K A : Type} (eqb : K -> K -> bool) (key : A -> K) l :
  List.length (List.concat (dict_values (group_by eqb key l))) = List.length l.
Proof.
  unfold group_by.
  assert (Hgen : forall d,
    List.length (List.concat (dict_values
      (fold_left (fun d x => dict_append eqb d (key x) x) l d)))
    = (List.length (List.concat (dict_values d)) + List.length l)%nat).
  { induction l as [|x l IH]; intros d; cbn [fold_left List.length]; [lia|].
    rewrite IH, dict_append_total. lia. }
  apply (Hgen []).
Qed.

Lemma consolidate_relationship_group_fused method g s ys s' :
  (match g with
   | [r] => ret [r]
   | _ => RelationshipResolver._consolidate_relationship_group method g
   end) s = Ok (ys, s') ->
  fused_from g ys.
Proof.
  intros H.
  assert (Hgen : RelationshipResolver._consolidate_relationship_group method g s
                 = Ok (ys, s')).
  { destruct g as [|x [|x2 rest]]; exact H. }
  apply consolidate_relationship_group_spec in Hgen. exact Hgen.
Qed.

Lemma fused_keys (d : Dict (string * string) (list Relationship)) : forall yss,
  (forall k g x, In (k, g) d -> In x g -> RelationshipResolver.pair_key x = k) ->
  Forall2 fused_from (dict_values d) yss ->
  forall y, In y (List.concat yss) ->
            In (RelationshipResolver.pair_key y) (dict_keys d).
Proof.
  induction d as [|[k g] d IH]; intros yss Hkey HF y Hy; cbn in *.
  - inversion HF; subst. destruct Hy.
  - inversion HF as [|? ys ? yss' (_ & Hys & _) HF']; subst. cbn in Hy.
    apply in_app_or in Hy. destruct Hy as [Hy|Hy].
    + left. rewrite Forall_forall in Hys.
      destruct (Hys _ Hy) as (b & Hb & _ & ->).
      symmetry. apply (Hkey k g b); [left; reflexivity | exact Hb].
    + right. apply (IH yss'); [|exact HF' | exact Hy].
      intros k' g' x Hin Hx. apply (Hkey k' g' x); [right; exact Hin | exact Hx].
Qed.

Lemma nodup_edge_of_predicate ys :
  NoDup (map predicate ys) -> NoDup (map edge_key ys).
Proof.
  intros H. apply (NoDup_map_inv snd). rewrite map_map. exact H.
Qed.

Lemma fused_nodup (d : Dict (string * string) (list Relationship)) : forall yss,
  NoDup (dict_keys d) ->
  (forall k g x, In (k, g) d -> In x g -> RelationshipResolver.pair_key x = k) ->
  Forall2 fused_from (dict_values d) yss ->
  NoDup (map edge_key (List.concat yss)).
Proof.
  induction d as [|[k g] d IH]; intros yss Hnd Hkey HF; cbn in *.
  - inversion HF; subst. constructor.
  - inversion HF as [|? ys ? yss' Hfused HF']; subst. cbn.
    inversion Hnd as [|? ? Hk Hnd']; subst.
    assert (Hkey' : forall k' g' x, In (k', g') d -> In x g' ->
                                    RelationshipResolver.pair_key x = k').
    { intros k' g' x Hin Hx. apply (Hkey k' g' x); [right; exact Hin | exact Hx]. }
    rewrite map_app. apply NoDup_app.
    + apply nodup_edge_of_predicate. apply Hfused.
    + apply IH; assumption.
    + intros a Ha Ha'.
      apply in_map_iff in Ha. destruct Ha as (y & <- & Hy).
      apply in_map_iff in Ha'. destruct Ha' as (y' & E & Hy').
      apply Hk.
      destruct Hfused as (_ & Hys & _). rewrite Forall_forall in Hys.
      destruct (Hys _ Hy) as (b & Hb & _ & Hpk).
      assert (Hkb : RelationshipResolver.pair_key y = k).
      { rewrite Hpk. apply (Hkey k g b); [left; reflexivity | exact Hb]. }
      rewrite <- Hkb.
      assert (Epk : RelationshipResolver.pair_key y' = RelationshipResolver.pair_key y).
      { unfold edge_key in E. injection E as E1 _. exact E1. }
      rewrite <- Epk. eapply fused_keys; eassumption.
Qed.

Lemma fused_ids (d : Dict (string * string) (list Relationship)) : forall yss,
  Forall2 fused_from (dict_values d) yss ->
  Forall (fun y => exists b, In b (List.concat (dict_values d))
                             /\ rel_id y = rel_id b) (List.concat yss)
  /\ (List.length (List.concat yss)
      <= List.length (List.concat (dict_values d)))%nat.
Proof.
  unfold dict_values.
  induction d as [|[k g] d IH]; intros yss HF; cbn in *.
  - inversion HF; subst. split; [constructor | cbn; lia].
  - inversion HF as [|? ys ? yss' (_ & Hys & Hlen) HF']; subst. cbn.
    destruct (IH _ HF') as [H1 H2]. split.
    + apply Forall_app. split.
      * eapply Forall_impl; [|exact Hys]. cbn.
        intros y (b & Hb & Hid & _). exists b.
        split; [apply in_or_app; left; exact Hb | exact Hid].
      * eapply Forall_impl; [|exact H1]. cbn.
        intros y (b & Hb & Hid). exists b.
        split; [apply in_or_app; right; exact Hb | exact Hid].
    + rewrite !length_app. lia.
Qed.

Lemma group_by_concat_in {K A : Type} (eqb : K -> K -> bool) (key : A -> K)
  (eqb_eq : forall a b, eqb a b = true <-> a = b) l x :
  In x (List.concat (dict_values (group_by eqb key l))) -> In x l.
Proof.
  intros H. apply in_concat in H. destruct H as (g & Hg & Hx).
  apply in_map_iff in Hg. destruct Hg as ([k g'] & <- & Hin).
  eapply group_by_sound; eassumption.
Qed.

Lemma consolidate_similar_spec method relationships s out s' :
  RelationshipResolver._consolidate_similar_relationships method relationships s
  = Ok (out, s') ->
  NoDup (map edge_key out)
  /\ Forall (fun y => exists b, In b relationships /\ rel_id y = rel_id b) out
  /\ (List.length out <= List.length relationships)%nat.
Proof.
  unfold RelationshipResolver._consolidate_similar_relationships. intros H.
  set (groups := group_by RelationshipResolver.pair_key_eqb
                   RelationshipResolver.pair_key relationships) in *.
  pose proof (group_by_well_grouped _ RelationshipResolver.pair_key
                pair_key_eqb_eq relationships) as [Hnd Hgr].
  fold groups in Hnd, Hgr.
  destruct (for_extend_inv (fun _ => True) fused_from _
              (fun g s0 ys s0' _ E =>
                 consolidate_relationship_group_fused method g s0 ys s0' E)
              _ _ _ _ (forall_true _) H) as (yss & HF & ->).
  assert (Hkey : forall k g x, In (k, g) groups -> In x g ->
                               RelationshipResolver.pair_key x = k).
  { intros k g x Hin Hx. apply (Hgr _ _ Hin). exact Hx. }
  destruct (fused_ids groups yss HF) as [Hids Hlen].
  split; [apply (fused_nodup groups); assumption|]. split.
  - eapply Forall_impl; [|exact Hids]. cbn. intros y (b & Hb & Hid).
    exists b. split; [|exact Hid].
    eapply group_by_concat_in; [apply pair_key_eqb_eq | exact Hb].
  - unfold groups in Hlen. rewrite group_by_total in Hlen. exact Hlen.
Qed.

Lemma rewrite_one_id mapping r s r' s' :
  RelationshipResolver.rewrite_one mapping r s = Ok (r', s') -> rel_id r' = rel_id r.
Proof.
  unfold RelationshipResolver.rewrite_one.
  destruct (negb _ || negb _).
  - intros H. apply new_Relationship_inv in H. destruct H as [-> _]. reflexivity.
  - unfold ret. intros H. injection H as <- _. reflexivity.
Qed.

Lemma update_ids relationships mapping s out s' :
  RelationshipResolver._update_relationship_entity_ids relationships mapping s
  = Ok (out, s') ->
  map rel_id out = map rel_id relationships.
Proof.
  unfold RelationshipResolver._update_relationship_entity_ids. intros H.
  assert (HF : Forall2 (fun r r' => rel_id r' = rel_id r) relationships out).
  { eapply (for_append_inv (fun _ => True)); [|apply forall_true | exact H].
    intros r s0 r' s0' _ E. eapply rewrite_one_id. exact E. }
  clear H. induction HF as [|r r' l l' Hr HF IH]; cbn; [reflexivity|].
  rewrite Hr, IH. reflexivity.
Qed.

Lemma rewrite_one_state mapping r s r' s' :
  RelationshipResolver.rewrite_one mapping r s = Ok (r', s') -> s' = s.
Proof.
  unfold RelationshipResolver.rewrite_one.
  destruct (negb _ || negb _).
  - unfold new_Relationship, check_unit. intros H.
    apply bind_inv in H. destruct H as (u & t & Eu & H).
    destruct (in_unit_interval _); [|discriminate Eu].
    unfold ret in Eu, H. injection Eu as Et. injection H as _ Hs. congruence.
  - unfold ret. intros H. injection H as _ Hs. congruence.
Qed.

Lemma update_state relationships mapping : forall s out s',
  RelationshipResolver._update_relationship_entity_ids relationships mapping s
  = Ok (out, s') -> s' = s.
Proof.
  unfold RelationshipResolver._update_relationship_entity_ids.
  induction relationships as [|r l IH]; intros s out s' E; cbn in E.
  - unfold ret in E. injection E as _ Hs. congruence.
  - apply bind_inv in E. destruct E as (y & t1 & Ey & E).
    apply bind_inv in E. destruct E as (zs & t2 & Ez & E).
    unfold ret in E. injection E as _ Hs.
    apply rewrite_one_state in Ey. apply IH in Ez. congruence.
Qed.

(** The three steps of [resolve_relationships], taken apart. *)
Lemma resolve_relationships_steps method relationships mapping s out s' :
  RelationshipResolver.resolve_relationships method relationships mapping s
  = Ok (out, s') ->
  exists updated deduplicated s1 s2,
    map rel_id updated = map rel_id relationships
    /\ RelationshipResolver._remove_exact_duplicates updated [] = Ok (deduplicated, s1)
    /\ RelationshipResolver._consolidate_similar_relationships method
         deduplicated s1 = Ok (out, s2).
Proof.
  unfold RelationshipResolver.resolve_relationships. intros H.
  apply bind_inv in H. destruct H as (u & s0 & E0 & H).
  unfold put in E0. injection E0 as _ <-.
  apply bind_inv in H. destruct H as (updated & s1 & E1 & H).
  apply bind_inv in H. destruct H as (deduplicated & s2 & E2 & H).
  assert (Hupd : map rel_id updated = map rel_id relationships /\ s1 = []).
  { destruct mapping.
    - unfold ret in E1. injection E1 as <- <-. auto.
    - split; [eapply update_ids; exact E1 | eapply update_state; exact E1]. }
  destruct Hupd as [Hids ->].
  exists updated, deduplicated, s2, s'. auto.
Qed.

Lemma edge_key_of_canonical_key r :
  edge_key r
  = (let '(s, p, o) := RelationshipResolver.canonical_key r in
     (if String.ltb o s then (o, s) else (s, o), p)).
Proof. reflexivity. Qed.

(** X7: no two relationships returned by relationship resolution have the
    same unordered endpoint pair and predicate; in particular no two have the
    same (subject, predicate, object). *)
Theorem consolidated_edges_are_distinct method relationships mapping out decisions :
  RelationshipResolver.run method relationships mapping = Ok (out, decisions) ->
  NoDup (map edge_key out)
  /\ NoDup (map RelationshipResolver.canonical_key out).
Proof.
  unfold RelationshipResolver.run. intros H.
  apply resolve_relationships_steps in H.
  destruct H as (updated & deduplicated & s1 & s2 & _ & _ & H).
  apply consolidate_similar_spec in H. destruct H as (Hnd & _ & _).
  split; [exact Hnd|].
  apply (NoDup_map_inv
           (fun k : string * PredicateType * string =>
              let '(s, p, o) := k in
              (if String.ltb o s then (o, s) else (s, o), p))).
  rewrite map_map. exact Hnd.
Qed.

Lemma consolidated_edges_are_distinct_witness :
  exists out decisions,
    RelationshipResolver.run "average" MoreExamples.reversed_pair [] = Ok (out, decisions)
    /\ NoDup (map edge_key out)
    /\ NoDup (map RelationshipResolver.canonical_key out).
Proof.
  eexists. eexists. split; [vm_compute; reflexivity|].
  eapply (consolidated_edges_are_distinct "average" MoreExamples.reversed_pair []).
  vm_compute. reflexivity.
Defined.

(** X8: every relationship returned by relationship resolution carries the
    id of a relationship of the input, and no more relationships are returned
    than were given. *)
Theorem consolidated_ids_come_from_input method relationships mapping out decisions :
  RelationshipResolver.run method relationships mapping = Ok (out, decisions) ->
  Forall (fun y => In (rel_id y) (map rel_id relationships)) out
  /\ (List.length out <= List.length relationships)%nat.
Proof.
  unfold RelationshipResolver.run. intros H.
  apply resolve_relationships_steps in H.
  destruct H as (updated & deduplicated & s1 & s2 & Hids & Hd & Hc).
  apply remove_exact_duplicates_spec in Hd. destruct Hd as (_ & Hin & Hlen1).
  apply consolidate_similar_spec in Hc. destruct Hc as (_ & Hfrom & Hlen2).
  split.
  - eapply Forall_impl; [|exact Hfrom]. cbn. intros y (b & Hb & ->).
    rewrite <- Hids. apply in_map.
    rewrite Forall_forall in Hin. apply Hin. exact Hb.
  - assert (Hl : List.length updated = List.length relationships).
    { rewrite <- (length_map rel_id updated), Hids. apply length_map. }
    lia.
Qed.

Lemma consolidated_ids_come_from_input_witness :
  exists out decisions,
    RelationshipResolver.run "max" Examples.scenario3_relationships
      Examples.scenario3_mapping = Ok (out, decisions)
    /\ Forall (fun y => In (rel_id y) (map rel_id Examples.scenario3_relationships)) out
    /\ (List.length out <= List.length Examples.scenario3_relationships)%nat.
Proof.
  eexists. eexists. split; [vm_compute; reflexivity|].
  eapply (consolidated_ids_come_from_input "max" Examples.scenario3_relationships
            Examples.scenario3_mapping).
  vm_compute. reflexivity.
Defined.

(** ** Contexts and confidences of a fused edge *)

Lemma unique_contexts_nonempty c cs :
  RelationshipResolver.unique_contexts [] (c :: cs) <> [].
Proof. cbn. discriminate. Qed.

(** X9: context fusion returns no context exactly when no relationship of the
    group has a context with text in it (missing, empty and blank contexts do
    not count). *)
Theorem merged_context_is_none_iff (relationships : list Relationship) :
  RelationshipResolver._merge_contexts relationships = None
  <-> Forall (fun r => has_text (context r) = false) relationships.
Proof.
  unfold RelationshipResolver._merge_contexts.
  set (pick := fun r : Relationship =>
                 match context r with
                 | Some c =>
                     if Py.truthy (Some c) && Py.truthy (Some (Py.strip c))
                     then [c] else []
                 | None => []
                 end).
  assert (Hnil : flat_map pick relationships = []
                 <-> Forall (fun r => has_text (context r) = false) relationships).
  { induction relationships as [|r l IH]; cbn.
    - split; [constructor | reflexivity].
    - unfold pick at 1, has_text. split.
      + intros H. apply app_eq_nil in H. destruct H as [H1 H2].
        constructor; [|apply IH; exact H2].
        destruct (context r) as [c|]; [|reflexivity].
        destruct (Py.truthy (Some c) && Py.truthy (Some (Py.strip c)));
          [discriminate H1 | reflexivity].
      + intros H. inversion H as [|? ? Hr Hl]; subst.
        apply IH in Hl. rewrite Hl, app_nil_r.
        unfold has_text in Hr. destruct (context r) as [c|]; [|reflexivity].
        rewrite Hr. reflexivity. }
  rewrite <- Hnil.
  destruct (flat_map pick relationships) as [|c1 [|c2 cs]] eqn:E.
  - split; reflexivity.
  - split; discriminate.
  - split; [|discriminate].
    pose proof (unique_contexts_nonempty c1 (c2 :: cs)) as Hne.
    destruct (RelationshipResolver.unique_contexts [] (c1 :: c2 :: cs))
      as [|u [|u2 us]]; [congruence | discriminate | discriminate].
Qed.

(** X10: whatever the consolidation method, the fused confidence of a
    non-empty group of valid relationships is computed without error and
    lies in [0,1], so that the fused relationship and its decision pass
    validation; of an empty group no method returns a value: average and
    weighted raise a division by zero, max and every other name the error of
    [max] of an empty sequence. *)
Theorem fused_confidence_is_a_confidence method (r : Relationship)
  (l : list Relationship) :
  Forall valid_relationship (r :: l) ->
  returns (RelationshipResolver._consolidate_confidence_scores method (r :: l))
          unit_interval
  /\ forall s,
       RelationshipResolver._consolidate_confidence_scores method [] s
       = Error (if String.eqb method "average" || String.eqb method "weighted"
                then ZeroDivisionError else ValueError).
Proof.
  intros Hv. split.
  - apply returns_consolidate_confidence_scores; [discriminate | exact Hv].
  - intros s. unfold RelationshipResolver._consolidate_confidence_scores.
    cbn [map Py.max_list Py.max_by RelationshipResolver.mean fold_left combine].
    destruct (String.eqb method "max") eqn:Emax.
    + apply String.eqb_eq in Emax. subst method. reflexivity.
    + destruct (String.eqb method "average"); [reflexivity|].
      destruct (String.eqb method "weighted"); reflexivity.
Qed.

Lemma fused_confidence_is_a_confidence_witness :
  returns (RelationshipResolver._consolidate_confidence_scores "weighted"
             MoreExamples.reversed_pair)
          unit_interval
  /\ forall s,
       RelationshipResolver._consolidate_confidence_scores "weighted" [] s
       = Error ZeroDivisionError.
Proof.
  apply (fused_confidence_is_a_confidence "weighted"
           (Examples.relationship "r1" "e1" DEPENDS_ON "m1" (8 # 10) (Some "A"))
           [ Examples.relationship "r2" "e1" DEPENDS_ON "m1" (6 # 10) (Some "B");
             Examples.relationship "r3" "m1" DEPENDS_ON "e1" (6 # 10) None ]).
  repeat constructor; cbn; discriminate.
Defined.

(** X11: with the method max, and with any method other than average and
    weighted, the fused confidence of a non-empty group is the confidence of
    one of its members and no member has a larger one. *)
Theorem fused_confidence_is_maximum method (l : list Relationship) :
  method <> "average" -> method <> "weighted" -> l <> [] ->
  returns (RelationshipResolver._consolidate_confidence_scores method l)
          (fun q => In q (map rel_confidence l)
                    /\ Forall (fun r => rel_confidence r <= q) l).
Proof.
  intros Havg Hw Hne. unfold RelationshipResolver._consolidate_confidence_scores.
  assert (Hmax : returns (S := RelationshipResolver.State)
                   match Py.max_list (map rel_confidence l) with
                   | Some m => ret m
                   | None => raise ValueError
                   end
                   (fun q => In q (map rel_confidence l)
                             /\ Forall (fun r => rel_confidence r <= q) l)).
  { destruct (Py.max_list (map rel_confidence l)) as [m|] eqn:E.
    - apply returns_ret.
      pose proof (max_by_first_max (fun q : Q => q) _ _ E)
        as (pre & post & Hsplit & Hpre & Hpost).
      split; [eapply max_by_any_in; exact E|].
      apply Forall_forall. intros r Hr.
      apply (in_map rel_confidence) in Hr. rewrite Hsplit in Hr.
      apply in_app_or in Hr. destruct Hr as [Hr|[<-|Hr]].
      + rewrite Forall_forall in Hpre. apply Qlt_le_weak. apply Hpre. exact Hr.
      + apply Qle_refl.
      + rewrite Forall_forall in Hpost. apply Hpost. exact Hr.
    - destruct l; [congruence | discriminate E]. }
  destruct l as [|r [|r2 rest]]; [congruence | |].
  - apply returns_ret. split; [left; reflexivity|].
    constructor; [apply Qle_refl | constructor].
  - destruct (String.eqb method "max"); [exact Hmax|].
    destruct (String.eqb method "average") eqn:E1;
      [apply String.eqb_eq in E1; congruence|].
    destruct (String.eqb method "weighted") eqn:E2;
      [apply String.eqb_eq in E2; congruence|].
    exact Hmax.
Qed.

Lemma fused_confidence_is_maximum_witness :
  returns (RelationshipResolver._consolidate_confidence_scores "max"
             MoreExamples.reversed_pair)
          (fun q => In q (map rel_confidence MoreExamples.reversed_pair)
                    /\ Forall (fun r => rel_confidence r <= q)
                              MoreExamples.reversed_pair).
Proof.
  apply (fused_confidence_is_maximum "max" MoreExamples.reversed_pair);
    discriminate.
Defined.

(** ** The elected relationship *)

Lemma best_key_gt_confidence x y :
  (RelationshipResolver.best_key_gt x y = true -> rel_confidence y <= rel_confidence x)
  /\ (RelationshipResolver.best_key_gt x y = false -> rel_confidence x <= rel_confidence y).
Proof.
  unfold RelationshipResolver.best_key_gt.
  destruct (Py.Qgtb (rel_confidence x) (rel_confidence y)) eqn:E1.
  - apply Qgtb_true in E1. split; [intros _; apply Qlt_le_weak; exact E1 | discriminate].
  - apply Qgtb_false in E1.
    destruct (Py.Qgtb (rel_confidence y) (rel_confidence x)) eqn:E2.
    + split; [discriminate | intros _; exact E1].
    + apply Qgtb_false in E2. split; intros _; assumption.
Qed.

Lemma max_from_best_confidence l : forall best,
  rel_confidence best
  <= rel_confidence (Py.max_from RelationshipResolver.best_key_gt best l)
  /\ Forall (fun r => rel_confidence r
                      <= rel_confidence
                           (Py.max_from RelationshipResolver.best_key_gt best l)) l.
Proof.
  induction l as [|x l IH]; intros best; cbn [Py.max_from].
  - split; [apply Qle_refl | constructor].
  - destruct (best_key_gt_confidence x best) as [Ht Hf].
    destruct (RelationshipResolver.best_key_gt x best) eqn:E.
    + destruct (IH x) as [H1 H2]. specialize (Ht eq_refl).
      split; [eapply Qle_trans; eassumption|].
      constructor; assumption.
    + destruct (IH best) as [H1 H2]. specialize (Hf eq_refl).
      split; [exact H1|].
      constructor; [eapply Qle_trans; eassumption | exact H2].
Qed.

(** X12: the member elected from a group of relationships belongs to the
    group, no member of the group has a higher confidence, and electing it
    records nothing. *)
Theorem best_relationship_has_highest_confidence l s best s' :
  RelationshipResolver._select_best_relationship l s = Ok (best, s') ->
  In best l
  /\ Forall (fun r => rel_confidence r <= rel_confidence best) l
  /\ s' = s.
Proof.
  intros H. split; [eapply select_best_in; exact H|].
  unfold RelationshipResolver._select_best_relationship in H.
  destruct l as [|x l]; cbn in H; [discriminate|].
  unfold ret in H. injection H as <- <-.
  destruct (max_from_best_confidence l x) as [H1 H2].
  split; [constructor; assumption | reflexivity].
Qed.

Lemma best_relationship_has_highest_confidence_witness :
  exists best,
    RelationshipResolver._select_best_relationship MoreExamples.reversed_pair []
    = Ok (best, [])
    /\ In best MoreExamples.reversed_pair
    /\ Forall (fun r => rel_confidence r <= rel_confidence best)
              MoreExamples.reversed_pair
    /\ [] = @nil RelationshipResolutionDecision.
Proof.
  eexists. split; [vm_compute; reflexivity|].
  eapply (best_relationship_has_highest_confidence MoreExamples.reversed_pair []).
  vm_compute. reflexivity.
Defined.

(** ** Medoid and canonical match *)

Lemma medoid_candidates_incl {F : Fuzz} entities max_score m :
  In m (EntityResolver.medoid_candidates entities max_score) -> In m entities.
Proof.
  unfold EntityResolver.medoid_candidates. intros H.
  apply in_map_iff in H. destruct H as ([e sc] & <- & H).
  apply filter_In in H. destruct H as [H _].
  apply in_combine_l in H. exact H.
Qed.

Lemma select_medoid_in {F : Fuzz} entities m :
  EntityResolver._select_medoid_entity entities = Some m -> In m entities.
Proof.
  unfold EntityResolver._select_medoid_entity.
  destruct entities as [|e1 [|e2 rest]]; [discriminate | |].
  - intros H. injection H as <-. left. reflexivity.
  - set (entities := e1 :: e2 :: rest).
    destruct (Py.max_by _ (combine entities _)) as [[medoid max_score]|] eqn:E;
      [|discriminate].
    apply max_by_any_in in E. apply in_combine_l in E.
    destruct (EntityResolver.medoid_candidates entities max_score)
      as [|c1 [|c2 cs]] eqn:Ec.
    + intros H. injection H as <-. exact E.
    + intros H. injection H as <-. exact E.
    + intros H. apply max_by_any_in in H. rewrite <- Ec in H.
      eapply medoid_candidates_incl. exact H.
Qed.

Lemma select_medoid_some {F : Fuzz} (entities : list Entity) :
  entities <> [] ->
  exists m, EntityResolver._select_medoid_entity entities = Some m.
Proof.
  intros Hne. unfold EntityResolver._select_medoid_entity.
  destruct entities as [|e1 [|e2 rest]]; [congruence | eexists; reflexivity |].
  set (entities := e1 :: e2 :: rest).
  pose proof (length_similarity_scores entities) as Hls.
  destruct (EntityResolver.similarity_scores entities) as [|sc scs] eqn:Es;
    [discriminate Hls|].
  cbn [combine entities Py.max_by].
  destruct (Py.max_from _ (e1, sc) _) as [medoid max_score].
  destruct (EntityResolver.medoid_candidates _ max_score) as [|c1 [|c2 cs]];
    eexists; reflexivity.
Qed.

(** X3: from every non-empty cluster a member of that cluster is elected. *)
Theorem medoid_is_a_member {F : Fuzz} (entities : list Entity) :
  entities <> [] ->
  exists m, EntityResolver._select_medoid_entity entities = Some m /\ In m entities.
Proof.
  intros Hne. destruct (select_medoid_some entities Hne) as (m & Hm).
  exists m. split; [exact Hm|]. eapply select_medoid_in. exact Hm.
Qed.

Lemma medoid_is_a_member_witness :
  exists m, reference_medoid Examples.overlapping_names = Some m
            /\ In m Examples.overlapping_names.
Proof.
  apply (medoid_is_a_member (F := Reference.fuzz) Examples.overlapping_names).
  discriminate.
Defined.

Lemma find_matching_fold {F : Fuzz} threshold entity l : forall seen best,
  best_match_so_far threshold entity seen best ->
  best_match_so_far threshold entity (seen ++ l)
    (fold_left
       (fun best c =>
          if negb (EntityType_beq (ent_type c) (ent_type entity)) then best
          else
            let score :=
              partial_ratio (EntityResolver.clean_entity_name (ent_name entity))
                            (EntityResolver.clean_entity_name (ent_name c)) in
            if Py.Qgtb score (fst best) && Py.Qgeb score threshold
            then (score, Some c) else best)
       l best).
Proof.
  induction l as [|c l IH]; intros seen best Hinv; cbn [fold_left].
  - rewrite app_nil_r. exact Hinv.
  - replace (seen ++ c :: l) with ((seen ++ [c]) ++ l)
      by (rewrite <- app_assoc; reflexivity).
    apply IH. clear IH.
    destruct (negb (EntityType_beq (ent_type c) (ent_type entity))) eqn:Et.
    + apply negb_true_iff in Et.
      assert (Hne : ent_type c <> ent_type entity).
      { intros Heq. apply EntityType_beq_eq in Heq. congruence. }
      unfold best_match_so_far in *. destruct (snd best) as [b|].
      * destruct Hinv as (H1 & H2 & H3 & H4 & H5 & H6).
        repeat split; try assumption; [apply in_or_app; left; exact H2|].
        intros c' Hc' Ht. apply in_app_or in Hc'.
        destruct Hc' as [Hc'|[<-|[]]]; [apply H6; assumption | congruence].
      * destruct Hinv as (H1 & H2). split; [exact H1|].
        intros c' Hc' Ht. apply in_app_or in Hc'.
        destruct Hc' as [Hc'|[<-|[]]]; [apply H2; assumption | congruence].
    + apply negb_false_iff, EntityType_beq_eq in Et.
      fold (match_score entity c). cbv zeta.
      destruct (Py.Qgtb (match_score entity c) (fst best)
                && Py.Qgeb (match_score entity c) threshold) eqn:Ec.
      * apply andb_true_iff in Ec. destruct Ec as [Eg Ege].
        apply Qgtb_true in Eg. apply Qgeb_true in Ege.
        unfold best_match_so_far in *. cbn [fst snd].
        destruct (snd best) as [b|].
        -- destruct Hinv as (H1 & H2 & H3 & H4 & H5 & H6). rewrite H1 in Eg.
           split; [reflexivity|]. split; [apply in_or_app; right; left; reflexivity|].
           split; [exact Et|]. split; [exact Ege|].
           split; [eapply Qlt_trans; eassumption|].
           intros c' Hc' Ht. apply in_app_or in Hc'.
           destruct Hc' as [Hc'|[<-|[]]]; [|apply Qle_refl].
           apply Qlt_le_weak. eapply Qle_lt_trans; [apply H6; assumption | exact Eg].
        -- destruct Hinv as (H1 & H2). rewrite H1 in Eg.
           split; [reflexivity|]. split; [apply in_or_app; right; left; reflexivity|].
           split; [exact Et|]. split; [exact Ege|]. split; [exact Eg|].
           intros c' Hc' Ht. apply in_app_or in Hc'.
           destruct Hc' as [Hc'|[<-|[]]]; [|apply Qle_refl].
           specialize (H2 c' Hc' Ht).
           destruct (Qlt_le_dec 0 (match_score entity c')) as [Hpos|Hneg].
           ++ destruct (Qlt_le_dec (match_score entity c') threshold) as [Hlt|Hge].
              ** apply Qlt_le_weak. eapply Qlt_le_trans; eassumption.
              ** exfalso. apply H2. split; assumption.
           ++ apply Qlt_le_weak. eapply Qle_lt_trans; eassumption.
      * assert (Hfail : ~ (fst best < match_score entity c
                           /\ threshold <= match_score entity c)).
        { intros [Ha Hb]. apply Qgtb_true in Ha. apply Qgeb_true in Hb.
          rewrite Ha, Hb in Ec. discriminate Ec. }
        unfold best_match_so_far in *. destruct (snd best) as [b|].
        -- destruct Hinv as (H1 & H2 & H3 & H4 & H5 & H6).
           repeat split; try assumption; [apply in_or_app; left; exact H2|].
           intros c' Hc' Ht. apply in_app_or in Hc'.
           destruct Hc' as [Hc'|[<-|[]]]; [apply H6; assumption|].
           rewrite H1 in Hfail.
           destruct (Qlt_le_dec (match_score entity b) (match_score entity c))
             as [Hlt|Hle]; [|exact Hle].
           destruct (Qlt_le_dec (match_score entity c) threshold) as [Hlt'|Hge].
           ++ apply Qlt_le_weak. eapply Qlt_le_trans; eassumption.
           ++ exfalso. apply Hfail. split; assumption.
        -- destruct Hinv as (H1 & H2). split; [exact H1|].
           intros c' Hc' Ht. apply in_app_or in Hc'.
           destruct Hc' as [Hc'|[<-|[]]]; [apply H2; assumption|].
           rewrite H1 in Hfail. exact Hfail.
Qed.

Lemma find_matching_spec {F : Fuzz} (threshold : Q)
  (canonical : Dict string Entity) (entity : Entity) :
  match EntityResolver._find_matching_canonical_entity threshold canonical entity with
  | Some c =>
      In c (dict_values canonical) /\ ent_type c = ent_type entity
      /\ threshold <= match_score entity c /\ 0 < match_score entity c
      /\ forall c', In c' (dict_values canonical) ->
                    ent_type c' = ent_type entity ->
                    match_score entity c' <= match_score entity c
  | None =>
      forall c', In c' (dict_values canonical) ->
                 ent_type c' = ent_type entity ->
                 ~ (0 < match_score entity c' /\ threshold <= match_score entity c')
  end.
Proof.
  unfold EntityResolver._find_matching_canonical_entity.
  pose proof (find_matching_fold threshold entity (dict_values canonical) [] (0, None))
    as H.
  cbn [app] in H.
  assert (H0 : best_match_so_far threshold entity [] (0, None)).
  { split; [reflexivity | intros c' []]. }
  specialize (H H0).
  destruct (fold_left _ (dict_values canonical) (0, None)) as [sc [c|]] eqn:E;
    unfold best_match_so_far in H; cbn [fst snd] in H.
  - destruct H as (_ & H). exact H.
  - destruct H as (_ & H). exact H.
Qed.

(** X4: a canonical entity found for a medoid is a canonical entity of the
    medoid's type whose score reaches the threshold and is positive, and no
    canonical entity of that type scores higher; none is found only when no
    canonical entity of that type has a positive score that reaches the
    threshold. *)
Theorem matching_canonical_is_best {F : Fuzz} (threshold : Q)
  (canonical : Dict string Entity) (entity : Entity) :
  match EntityResolver._find_matching_canonical_entity threshold canonical entity with
  | Some c =>
      In c (dict_values canonical) /\ ent_type c = ent_type entity
      /\ threshold <= match_score entity c /\ 0 < match_score entity c
      /\ forall c', In c' (dict_values canonical) ->
                    ent_type c' = ent_type entity ->
                    match_score entity c' <= match_score entity c
  | None =>
      forall c', In c' (dict_values canonical) ->
                 ent_type c' = ent_type entity ->
                 ~ (0 < match_score entity c' /\ threshold <= match_score entity c')
  end.
Proof. apply find_matching_spec. Qed.

(** ** Fuzzy grouping: letter case and the partition into clusters *)

Lemma lower_upper_char c : Py.lower_char (Py.upper_char c) = Py.lower_char c.
Proof. destruct c as [[] [] [] [] [] [] [] []]; reflexivity. Qed.

Lemma lower_upper s : Py.lower (Py.upper s) = Py.lower s.
Proof.
  induction s as [|c s IH]; cbn; [reflexivity|].
  rewrite lower_upper_char, IH. reflexivity.
Qed.

Lemma clean_ignores_case a b :
  Py.upper a = Py.upper b ->
  EntityResolver.clean_entity_name a = EntityResolver.clean_entity_name b.
Proof.
  intros H. unfold EntityResolver.clean_entity_name.
  rewrite <- (lower_upper a), <- (lower_upper b), H. reflexivity.
Qed.

(** X5: at any threshold, two entities whose names differ only in the case
    of ASCII letters are put in the same cluster (given that the name's
    partial ratio with itself reaches the threshold). *)
Theorem names_differing_in_case_share_a_cluster {F : Fuzz} (threshold : Q)
  (entities : list Entity) (e1 e2 : Entity) :
  In e1 entities -> In e2 entities ->
  Py.upper (ent_name e1) = Py.upper (ent_name e2) ->
  similar_enough threshold (ent_name e1) (ent_name e1) = true ->
  same_cluster (EntityResolver._group_entities_by_fuzzy_match threshold entities)
    e1 e2.
Proof.
  intros H1 H2 Hcase Hself.
  apply equal_clean_names_same_cluster; try assumption.
  apply clean_ignores_case. exact Hcase.
Qed.

Lemma names_differing_in_case_share_a_cluster_witness :
  same_cluster (reference_clusters (85 # 1) Examples.acronym_chain)
    (Examples.entity "a1" KPI "CAC" None (9 # 10) [])
    (Examples.entity "a2" KPI "cac" None (7 # 10) []).
Proof.
  apply (names_differing_in_case_share_a_cluster (F := Reference.fuzz) (85 # 1)
           Examples.acronym_chain).
  - left. reflexivity.
  - right. left. reflexivity.
  - reflexivity.
  - vm_compute. reflexivity.
Defined.

Section Regrouping.
Context {K A : Type}.
Variable eqb : K -> K -> bool.
Variable key : A -> K.

Lemma dict_append_perm (d : Dict K (list A)) k x :
  Permutation (List.concat (dict_values (dict_append eqb d k x)))
              (x :: List.concat (dict_values d)).
Proof.
  induction d as [|[k' xs] d IH]; cbn.
  - apply Permutation_refl.
  - destruct (eqb k k'); cbn.
    + rewrite <- app_assoc. cbn.
      apply Permutation_sym, Permutation_middle.
    + eapply Permutation_trans; [apply Permutation_app_head; exact IH|].
      apply Permutation_sym, Permutation_middle.
Qed.

Lemma group_loop_perm l : forall d : Dict K (list A),
  Permutation
    (List.concat (dict_values (fold_left (fun d x => dict_append eqb d (key x) x) l d)))
    (List.concat (dict_values d) ++ l).
Proof.
  induction l as [|x l IH]; intros d; cbn [fold_left].
  - rewrite app_nil_r. apply Permutation_refl.
  - eapply Permutation_trans; [apply IH|].
    eapply Permutation_trans;
      [apply Permutation_app_tail; apply dict_append_perm|].
    cbn. apply Permutation_middle.
Qed.

(** Grouping loses and repeats nothing. *)
Lemma group_by_perm l :
  Permutation (List.concat (dict_values (group_by eqb key l))) l.
Proof. apply (group_loop_perm l []). Qed.
End Regrouping.

Lemma dict_set_fresh {V : Type} (d : Dict string V) k v :
  ~ In k (dict_keys d) -> dict_set String.eqb d k v = d ++ [(k, v)].
Proof.
  induction d as [|[k' v'] d IH]; cbn; [reflexivity|].
  intros Hk. destruct (String.eqb k k') eqn:E.
  - apply String.eqb_eq in E. exfalso. apply Hk. left. symmetry. exact E.
  - rewrite IH; [reflexivity|]. intros H. apply Hk. right. exact H.
Qed.

Lemma buckets_of_keys {V : Type} (d : Dict string (list V)) :
  NoDup (dict_keys d) ->
  flat_map (fun k => match dict_get String.eqb d k with
                     | Some es => es | None => [] end) (dict_keys d)
  = List.concat (dict_values d).
Proof.
  intros Hnd. rewrite flat_map_concat_map. f_equal.
  unfold dict_keys, dict_values. rewrite map_map.
  apply map_ext_in. intros [k v] Hin. cbn.
  rewrite (in_dict_get String.eqb String.eqb_eq d k v Hnd Hin). reflexivity.
Qed.

Section Partition.
Context {F : Fuzz}.
Variable threshold : Q.
Variable entities : list Entity.

Lemma bucket_nonempty name :
  In name (names_of entities) ->
  EntityResolver.bucket (name_buckets entities) name <> [].
Proof.
  intros Hin. apply in_map_iff in Hin. destruct Hin as ([k xs] & Hk & Hin).
  cbn in Hk. subst k. unfold EntityResolver.bucket.
  rewrite (in_dict_get String.eqb String.eqb_eq (name_buckets entities) name xs
             (unique_names_nodup entities) Hin).
  eapply group_by_nonempty; [apply String.eqb_eq | exact Hin].
Qed.

(** The clusters are the buckets of the names used, one after another. *)
Lemma cluster_loop_buckets names : forall used clustered,
  NoDup names -> incl names (names_of entities) ->
  NoDup used -> incl used (names_of entities) ->
  (forall head, In head (dict_keys clustered) -> ~ In head names) ->
  List.concat (dict_values clustered)
  = flat_map (EntityResolver.bucket (name_buckets entities)) used ->
  exists used',
    List.concat
      (dict_values
         (EntityResolver.cluster_loop threshold (name_buckets entities)
            (names_of entities) names used clustered))
    = flat_map (EntityResolver.bucket (name_buckets entities)) used'
    /\ NoDup used' /\ incl used' (names_of entities) /\ incl used used'
    /\ forall n, In n names -> similar_enough threshold n n = true -> In n used'.
Proof.
  induction names as [|name rest IH];
    intros used clustered Hnd Hsub Hndu Hsubu Hkeys Hcat; cbn.
  - exists used. repeat split; try assumption.
    + apply incl_refl.
    + intros n [].
  - inversion Hnd as [|? ? Hfresh Hnd']; subst.
    assert (Hsub' : incl rest (names_of entities)).
    { intros n Hn. apply Hsub. right. exact Hn. }
    assert (Hkeys' : forall head, In head (dict_keys clustered) -> ~ In head rest).
    { intros head Hin Hrest. apply (Hkeys _ Hin). right. exact Hrest. }
    destruct (EntityResolver.name_in name used) eqn:Eused.
    + apply name_in_iff in Eused.
      destruct (IH used clustered Hnd' Hsub' Hndu Hsubu Hkeys' Hcat)
        as (used' & H1 & H2 & H3 & H4 & H5).
      exists used'. repeat split; try assumption.
      intros n [<-|Hn] Hself; [apply H4; exact Eused | apply H5; assumption].
    + apply name_in_false in Eused.
      set (taken := EntityResolver.similar_unused_names threshold (names_of entities)
                      used name).
      assert (Htaken : forall n, In n taken ->
                 In n (names_of entities) /\ ~ In n used).
      { intros n Hn. apply in_similar_unused in Hn. tauto. }
      destruct (flat_map (EntityResolver.bucket (name_buckets entities)) taken)
        as [|c cs] eqn:Ecl.
      * destruct (IH used clustered Hnd' Hsub' Hndu Hsubu Hkeys' Hcat)
          as (used' & H1 & H2 & H3 & H4 & H5).
        exists used'. repeat split; try assumption.
        intros n [<-|Hn] Hself; [|apply H5; assumption].
        exfalso.
        assert (Hn : In name taken).
        { apply in_similar_unused. repeat split; try assumption.
          apply Hsub. left. reflexivity. }
        apply (bucket_nonempty name); [apply Hsub; left; reflexivity|].
        destruct (EntityResolver.bucket (name_buckets entities) name) as [|b bs] eqn:Eb;
          [reflexivity|].
        assert (Hb : In b (flat_map (EntityResolver.bucket (name_buckets entities)) taken)).
        { apply in_flat_map. exists name. split; [exact Hn|]. rewrite Eb. left.
          reflexivity. }
        rewrite Ecl in Hb. destruct Hb.
      * rewrite <- Ecl.
        destruct (IH (used ++ taken)
                     (dict_set String.eqb clustered name
                        (flat_map (EntityResolver.bucket (name_buckets entities)) taken)))
          as (used' & H1 & H2 & H3 & H4 & H5); try assumption.
        -- apply NoDup_app; [exact Hndu | apply NoDup_filter, unique_names_nodup |].
           intros n Hu Ht. apply (Htaken n Ht). exact Hu.
        -- intros n Hn. apply in_app_or in Hn.
           destruct Hn as [Hn|Hn]; [apply Hsubu; exact Hn | apply Htaken; exact Hn].
        -- intros head Hin Hrest.
           rewrite dict_set_fresh in Hin.
           ++ unfold dict_keys in Hin. rewrite map_app in Hin.
              apply in_app_or in Hin. destruct Hin as [Hin|[<-|[]]].
              ** apply (Hkeys' _ Hin Hrest).
              ** apply Hfresh. exact Hrest.
           ++ intros Hin'. apply (Hkeys _ Hin'). left. reflexivity.
        -- rewrite dict_set_fresh.
           ++ unfold dict_values. rewrite map_app, concat_app. cbn.
              rewrite app_nil_r, flat_map_app. f_equal. exact Hcat.
           ++ intros Hin'. apply (Hkeys _ Hin'). left. reflexivity.
        -- exists used'. repeat split; try assumption.
           ++ intros n Hn. apply H4. apply in_or_app. left. exact Hn.
           ++ intros n [<-|Hn] Hself; [|apply H5; assumption].
              apply H4. apply in_or_app. right.
              apply in_similar_unused. repeat split; try assumption.
              apply Hsub. left. reflexivity.
Qed.

Lemma clusters_partition :
  (forall e, In e entities ->
             similar_enough threshold (ent_name e) (ent_name e) = true) ->
  Permutation
    (List.concat
       (dict_values (EntityResolver._group_entities_by_fuzzy_match threshold entities)))
    entities.
Proof.
  intros Hself. unfold EntityResolver._group_entities_by_fuzzy_match. cbv zeta.
  destruct (cluster_loop_buckets (names_of entities) [] [])
    as (used' & H1 & H2 & H3 & _ & H5).
  - apply unique_names_nodup.
  - apply incl_refl.
  - constructor.
  - intros n [].
  - intros head [].
  - reflexivity.
  - fold (name_buckets entities). fold (names_of entities). rewrite H1.
    assert (Hperm : Permutation used' (names_of entities)).
    { apply NoDup_Permutation; [exact H2 | apply unique_names_nodup|].
      intros n. split; [apply H3|]. intros Hn. apply H5; [exact Hn|].
      pose proof (bucket_nonempty n Hn) as Hb.
      destruct (EntityResolver.bucket (name_buckets entities) n) as [|b bs] eqn:Eb;
        [congruence|].
      assert (Hbn : In b (EntityResolver.bucket (name_buckets entities) n)).
      { rewrite Eb. left. reflexivity. }
      apply bucket_sound in Hbn. destruct Hbn as [Hin <-]. apply Hself. exact Hin. }
    eapply Permutation_trans;
      [apply Permutation_flat_map; exact Hperm|].
    unfold EntityResolver.bucket, names_of.
    rewrite buckets_of_keys; [|apply unique_names_nodup].
    apply group_by_perm.
Qed.
End Partition.

(** X13: when every name reaches the threshold against itself, the clusters
    of the fuzzy grouping partition the entities: laid end to end they are a
    rearrangement of the input, so no entity is lost, repeated or invented. *)
Theorem clusters_partition_the_entities {F : Fuzz} (threshold : Q)
  (entities : list Entity) :
  (forall e, In e entities ->
             similar_enough threshold (ent_name e) (ent_name e) = true) ->
  Permutation
    (List.concat
       (dict_values (EntityResolver._group_entities_by_fuzzy_match threshold entities)))
    entities.
Proof. apply clusters_partition. Qed.

Lemma clusters_partition_the_entities_witness :
  Permutation
    (List.concat (dict_values (reference_clusters (85 # 1) Examples.overlapping_names)))
    Examples.overlapping_names.
Proof.
  apply (clusters_partition_the_entities (F := Reference.fuzz) (85 # 1)
           Examples.overlapping_names).
  intros e [<-|[<-|[<-|[]]]]; vm_compute; reflexivity.
Defined.

(** ** What entity resolution keeps of its input *)

Lemma for_each_inv {S A : Type} (I : S -> Prop) (R : S -> S -> Prop)
  (P : A -> Prop) (Q : A -> S -> Prop) (body : A -> M S unit) :
  (forall s, R s s) ->
  (forall s1 s2 s3, R s1 s2 -> R s2 s3 -> R s1 s3) ->
  (forall x s s', R s s' -> Q x s -> Q x s') ->
  (forall x s u s', P x -> I s -> body x s = Ok (u, s') ->
                    I s' /\ R s s' /\ Q x s') ->
  forall l s u s', Forall P l -> I s -> for_each l body s = Ok (u, s') ->
    I s' /\ R s s' /\ Forall (fun x => Q x s') l.
Proof.
  intros Hrefl Htrans Hstable Hbody.
  induction l as [|x l IH]; intros s u s' Hl Hs H; cbn in H.
  - unfold ret in H. injection H as _ <-. auto.
  - inversion Hl as [|? ? Hx Hl']; subst.
    apply bind_inv in H. destruct H as (u1 & s1 & E1 & H).
    destruct (Hbody _ _ _ _ Hx Hs E1) as (Hs1 & HR1 & HQ1).
    destruct (IH _ _ _ Hl' Hs1 H) as (Hs' & HR & HQ).
    split; [exact Hs'|]. split; [eapply Htrans; eassumption|].
    constructor; [eapply Hstable; eassumption | exact HQ].
Qed.

Lemma new_EntityResolutionDecision_inv {S : Type} c dups sc m cf (st st' : S) d :
  new_EntityResolutionDecision c dups sc m cf st = Ok (d, st') ->
  st' = st /\ canonical_entity_id d = c /\ duplicate_entity_ids d = dups.
Proof.
  unfold new_EntityResolutionDecision, check_unit. intros H.
  apply bind_inv in H. destruct H as (u & s1 & E & H).
  destruct (in_unit_interval sc); [|discriminate E].
  unfold ret in E. injection E as _ <-.
  apply bind_inv in H. destruct H as (u' & s2 & E' & H).
  destruct (in_unit_interval cf); [|discriminate E'].
  unfold ret in E'. injection E' as _ <-.
  unfold ret in H. injection H as <- <-. auto.
Qed.

Section StringDictFacts.
Context {V : Type}.

Lemma dict_set_keys (d : Dict string V) k v :
  dict_keys (dict_set String.eqb d k v)
  = dict_keys d ++ (if EntityResolver.name_in k (dict_keys d) then [] else [k]).
Proof.
  unfold dict_keys, EntityResolver.name_in.
  induction d as [|[k' v'] d IH]; cbn; [reflexivity|].
  destruct (String.eqb k k') eqn:E; cbn.
  - rewrite app_nil_r. reflexivity.
  - rewrite IH. reflexivity.
Qed.

Lemma dict_set_nodup (d : Dict string V) k v :
  NoDup (dict_keys d) -> NoDup (dict_keys (dict_set String.eqb d k v)).
Proof.
  intros H. rewrite dict_set_keys.
  destruct (EntityResolver.name_in k (dict_keys d)) eqn:E.
  - rewrite app_nil_r. exact H.
  - apply name_in_false in E.
    apply NoDup_app; [exact H | constructor; [intros [] | constructor] |].
    intros a Ha [<-|[]]. apply E. exact Ha.
Qed.

Lemma dict_set_key_new (d : Dict string V) k v :
  In k (dict_keys (dict_set String.eqb d k v)).
Proof.
  rewrite dict_set_keys. apply in_or_app.
  destruct (EntityResolver.name_in k (dict_keys d)) eqn:E.
  - left. apply name_in_iff. exact E.
  - right. left. reflexivity.
Qed.

Lemma dict_set_key_old (d : Dict string V) k v k' :
  In k' (dict_keys d) -> In k' (dict_keys (dict_set String.eqb d k v)).
Proof. rewrite dict_set_keys. intros H. apply in_or_app. left. exact H. Qed.

Lemma dict_del_in (d : Dict string V) k x :
  In x (dict_del String.eqb d k) -> In x d.
Proof.
  induction d as [|[k' v'] d IH]; cbn; [auto|].
  destruct (String.eqb k k'); [intros H; right; exact H|].
  intros [H|H]; [left; exact H | right; apply IH; exact H].
Qed.

Lemma dict_del_key_in (d : Dict string V) k k' :
  In k' (dict_keys (dict_del String.eqb d k)) -> In k' (dict_keys d).
Proof.
  intros H. apply in_map_iff in H. destruct H as (x & <- & Hx).
  apply in_map. eapply dict_del_in. exact Hx.
Qed.

Lemma dict_del_key_other (d : Dict string V) k k' :
  k' <> k -> In k' (dict_keys d) -> In k' (dict_keys (dict_del String.eqb d k)).
Proof.
  intros Hne. induction d as [|[k0 v0] d IH]; cbn; [auto|].
  intros [H|H].
  - subst k0. destruct (String.eqb k k') eqn:E.
    + apply String.eqb_eq in E. congruence.
    + left. reflexivity.
  - destruct (String.eqb k k0); [exact H | right; apply IH; exact H].
Qed.

Lemma dict_del_nodup (d : Dict string V) k :
  NoDup (dict_keys d) -> NoDup (dict_keys (dict_del String.eqb d k)).
Proof.
  induction d as [|[k0 v0] d IH]; cbn; [auto|].
  intros H. inversion H as [|? ? Hfresh Hnd]; subst.
  destruct (String.eqb k k0); [exact Hnd|].
  cbn. constructor; [|apply IH; exact Hnd].
  intros Hin. apply Hfresh. eapply dict_del_key_in. exact Hin.
Qed.

Lemma dict_get_set (d : Dict string V) k v k' :
  dict_get String.eqb (dict_set String.eqb d k v) k'
  = if String.eqb k' k then Some v else dict_get String.eqb d k'.
Proof.
  induction d as [|[k0 v0] d IH]; cbn; [reflexivity|].
  destruct (String.eqb k k0) eqn:E; cbn.
  - apply String.eqb_eq in E. subst k0.
    destruct (String.eqb k' k); reflexivity.
  - rewrite IH. destruct (String.eqb k' k0) eqn:E0; [|reflexivity].
    apply String.eqb_eq in E0. subst k0.
    rewrite String.eqb_sym, E. reflexivity.
Qed.
End StringDictFacts.

Lemma still_accounted_refl st : still_accounted st st.
Proof. intros i H. exact H. Qed.

Lemma still_accounted_trans s1 s2 s3 :
  still_accounted s1 s2 -> still_accounted s2 s3 -> still_accounted s1 s3.
Proof. intros H1 H2 i H. apply H2, H1, H. Qed.

Lemma canonical_value_of_input entities st e :
  from_input entities st ->
  In e (dict_values (EntityResolver.canonical_entities st)) -> In e entities.
Proof.
  intros (_ & Hc & _) He. apply in_map_iff in He.
  destruct He as ([k e'] & <- & Hin). apply (Hc _ _ Hin).
Qed.

Section EntityInvariants.
Context {F : Fuzz}.
Variable similarity_threshold : Q.
Variable acronym_threshold : Q.
Variable entities : list Entity.

Lemma set_canonical_keeps e st u st' :
  In e entities -> from_input entities st ->
  EntityResolver.set_canonical e st = Ok (u, st') ->
  from_input entities st' /\ still_accounted st st'
  /\ accounted_for st' (ent_id e).
Proof.
  intros He (Hnd & Hc & Hd) H.
  unfold EntityResolver.set_canonical, modify in H. injection H as _ <-.
  split; [|split].
  - split; [|split]; cbn.
    + apply dict_set_nodup. exact Hnd.
    + intros k e' Hin. apply (dict_set_in_inv String.eqb String.eqb_eq) in Hin.
      destruct Hin as [Heq|Hin]; [|apply Hc; exact Hin].
      injection Heq as -> ->. auto.
    + exact Hd.
  - intros i [Hk|(d & Hd' & Hi)].
    + left. cbn. apply dict_set_key_old. exact Hk.
    + right. exists d. cbn. auto.
  - left. cbn. apply dict_set_key_new.
Qed.

Lemma record_decision_keeps d st u st' :
  decision_of_input entities d -> from_input entities st ->
  EntityResolver.record_decision d st = Ok (u, st') ->
  from_input entities st' /\ still_accounted st st'
  /\ (forall i, In i (duplicate_entity_ids d) -> accounted_for st' i)
  /\ EntityResolver.canonical_entities st' = EntityResolver.canonical_entities st
  /\ EntityResolver.resolution_decisions st'
     = EntityResolver.resolution_decisions st ++ [d].
Proof.
  intros Hd (Hnd & Hc & Hds) H.
  unfold EntityResolver.record_decision, modify in H. injection H as _ <-.
  split; [|split; [|split; [|split; reflexivity]]].
  - split; [|split]; cbn; [exact Hnd | exact Hc |].
    apply Forall_app. split; [exact Hds | constructor; [exact Hd | constructor]].
  - intros i [Hk|(d' & Hd' & Hi)].
    + left. exact Hk.
    + right. exists d'. cbn. split; [apply in_or_app; left; exact Hd' | exact Hi].
  - intros i Hi. right. exists d. cbn.
    split; [apply in_or_app; right; left; reflexivity | exact Hi].
Qed.

Lemma resolve_entity_cluster_keeps cluster st u st' :
  incl cluster entities -> from_input entities st ->
  EntityResolver._resolve_entity_cluster similarity_threshold cluster st
  = Ok (u, st') ->
  from_input entities st' /\ still_accounted st st'
  /\ forall e, In e cluster -> accounted_for st' (ent_id e).
Proof.
  intros Hsub Hst H. unfold EntityResolver._resolve_entity_cluster in H.
  destruct (EntityResolver._select_medoid_entity cluster) as [canon|] eqn:Em.
  2:{ unfold ret in H. injection H as _ <-.
      split; [exact Hst|]. split; [apply still_accounted_refl|].
      destruct cluster as [|e0 rest]; [intros e []|].
      destruct (select_medoid_some (e0 :: rest)) as (m & Hm); [discriminate|].
      congruence. }
  pose proof (select_medoid_in _ _ Em) as Hcanon.
  apply bind_inv in H. destruct H as (st0 & s1 & E0 & H).
  unfold get in E0. injection E0 as <- <-.
  apply bind_inv in H. destruct H as ([fid dups] & s2 & E1 & H).
  assert (Hmid : from_input entities s2 /\ still_accounted st s2
                 /\ In fid (map ent_id entities)
                 /\ incl dups (map ent_id entities)
                 /\ forall e, In e cluster ->
                              accounted_for s2 (ent_id e) \/ In (ent_id e) dups).
  { pose proof (find_matching_spec similarity_threshold
                  (EntityResolver.canonical_entities st) canon) as Hf.
    destruct (EntityResolver._find_matching_canonical_entity _ _ _) as [existing|].
    - unfold ret in E1. injection E1 as <- <- <-.
      destruct Hf as (Hin & _).
      split; [exact Hst|]. split; [apply still_accounted_refl|].
      split; [apply in_map; eapply canonical_value_of_input; eassumption|].
      split.
      + intros i Hi. apply in_map_iff in Hi. destruct Hi as (e & <- & He).
        apply in_map. apply Hsub. exact He.
      + intros e He. right. apply in_map. exact He.
    - apply bind_inv in E1. destruct E1 as (u1 & s3 & E1 & E2).
      unfold ret in E2. injection E2 as <- <- <-.
      destruct (set_canonical_keeps canon st u1 s3) as (H1 & H2 & H3);
        [apply Hsub; exact Hcanon | exact Hst | exact E1 |].
      split; [exact H1|]. split; [exact H2|].
      split; [apply in_map, Hsub, Hcanon|].
      split.
      + intros i Hi. unfold EntityResolver.ids_except in Hi.
        apply in_map_iff in Hi. destruct Hi as (e & <- & He).
        apply filter_In in He. apply in_map. apply Hsub. apply He.
      + intros e He.
        destruct (String.eqb (ent_id e) (ent_id canon)) eqn:Eid.
        * apply String.eqb_eq in Eid. left. rewrite Eid. exact H3.
        * right. unfold EntityResolver.ids_except. apply in_map.
          apply filter_In. split; [exact He|]. rewrite Eid. reflexivity. }
  destruct Hmid as (Hs2 & Hacc & Hfid & Hdups & Hcov).
  cbv beta iota in H.
  destruct dups as [|d0 ds].
  - unfold ret in H. injection H as _ <-.
    split; [exact Hs2|]. split; [exact Hacc|].
    intros e He. destruct (Hcov e He) as [Ha|[]]. exact Ha.
  - apply bind_inv in H. destruct H as (d & s3 & E3 & H).
    apply new_EntityResolutionDecision_inv in E3. destruct E3 as (-> & Hc & Hdup).
    destruct (record_decision_keeps d s2 u st') as (H1 & H2 & H3 & _);
      [|exact Hs2 | exact H |].
    { unfold decision_of_input. rewrite Hc, Hdup.
      split; [exact Hfid|]. split; [exact Hdups | discriminate]. }
    split; [exact H1|].
    split; [eapply still_accounted_trans; eassumption|].
    intros e He. destruct (Hcov e He) as [Ha|Hd].
    + apply H2. exact Ha.
    + apply H3. rewrite Hdup. exact Hd.
Qed.

Lemma resolve_entities_by_type_keeps group st u st' :
  incl group entities -> from_input entities st ->
  EntityResolver._resolve_entities_by_type similarity_threshold group st
  = Ok (u, st') ->
  from_input entities st' /\ still_accounted st st'
  /\ (self_similar similarity_threshold group ->
      forall e, In e group -> accounted_for st' (ent_id e)).
Proof.
  intros Hsub Hst H. unfold EntityResolver._resolve_entities_by_type in H.
  destruct group as [|e0 rest].
  - unfold ret in H. injection H as _ <-.
    split; [exact Hst|]. split; [apply still_accounted_refl|]. intros _ e [].
  - set (group := e0 :: rest) in *.
    destruct (for_each_inv (from_input entities) still_accounted
                (fun c => incl c entities)
                (fun c s => forall e, In e c -> accounted_for s (ent_id e))
                (fun cluster_entities =>
                   match cluster_entities with
                   | [] => ret tt
                   | [entity] => EntityResolver.set_canonical entity
                   | _ => EntityResolver._resolve_entity_cluster similarity_threshold
                            cluster_entities
                   end)
                still_accounted_refl still_accounted_trans)
      with (l := dict_values
                   (EntityResolver._group_entities_by_fuzzy_match similarity_threshold
                      group))
           (s := st) (u := u) (s' := st') as (H1 & H2 & H3).
    + intros c s s' Hss Hc e He. apply Hss. apply Hc. exact He.
    + intros c s u0 s0 Hc Hs E. destruct c as [|e1 [|e2 r]].
      * unfold ret in E. injection E as _ <-.
        split; [exact Hs|]. split; [apply still_accounted_refl|]. intros e [].
      * destruct (set_canonical_keeps e1 s u0 s0) as (K1 & K2 & K3);
          [apply Hc; left; reflexivity | exact Hs | exact E |].
        split; [exact K1|]. split; [exact K2|]. intros e [<-|[]]. exact K3.
      * eapply resolve_entity_cluster_keeps; eassumption.
    + apply Forall_forall. intros members Hm.
      apply in_map_iff in Hm. destruct Hm as ([head members'] & <- & Hin). cbn.
      intros e He. apply Hsub.
      eapply cluster_loop_sound; [|exact Hin | exact He].
      intros ? ? ? [].
    + exact Hst.
    + exact H.
    + split; [exact H1|]. split; [exact H2|].
      intros Hself e He.
      pose proof (clusters_partition similarity_threshold group Hself) as Hperm.
      apply (Permutation_in _ (Permutation_sym Hperm)) in He.
      apply in_concat in He. destruct He as (c & Hc & He).
      rewrite Forall_forall in H3. apply (H3 c Hc). exact He.
Qed.

Lemma first_acronym_match_in multi acronym singles single score :
  EntityResolver.first_acronym_match acronym_threshold multi acronym singles
  = Some (single, score) ->
  In single singles.
Proof.
  induction singles as [|s singles IH]; cbn; [discriminate|].
  destruct (negb (EntityType_beq (ent_type s) (ent_type multi)));
    [intros H; right; apply IH; exact H|].
  destruct (Py.Qgeb _ _); [|intros H; right; apply IH; exact H].
  intros H. injection H as <- _. left. reflexivity.
Qed.

Lemma acronym_loop_keeps singles multis : forall st removed st',
  incl multis entities -> incl singles entities -> from_input entities st ->
  EntityResolver.acronym_loop acronym_threshold multis singles st
  = Ok (removed, st') ->
  from_input entities st'
  /\ EntityResolver.canonical_entities st' = EntityResolver.canonical_entities st
  /\ incl (EntityResolver.resolution_decisions st)
          (EntityResolver.resolution_decisions st')
  /\ forall i, In i removed ->
               exists d, In d (EntityResolver.resolution_decisions st')
                         /\ In i (duplicate_entity_ids d).
Proof.
  induction multis as [|m multis IH]; intros st removed st' Hm Hs Hst H; cbn in H.
  - unfold ret in H. injection H as <- <-.
    split; [exact Hst|]. split; [reflexivity|]. split; [apply incl_refl|].
    intros i [].
  - assert (Hm' : incl multis entities).
    { intros x Hx. apply Hm. right. exact Hx. }
    destruct (EntityResolver.first_acronym_match _ _ _ _) as [[single score]|] eqn:E;
      [|apply IH; assumption].
    apply first_acronym_match_in in E.
    apply bind_inv in H. destruct H as (d & s1 & E1 & H).
    apply new_EntityResolutionDecision_inv in E1. destruct E1 as (-> & Hc & Hdup).
    apply bind_inv in H. destruct H as (u1 & s2 & E2 & H).
    apply bind_inv in H. destruct H as (removed' & s3 & E3 & H).
    unfold ret in H. injection H as <- <-.
    destruct (record_decision_keeps d st u1 s2) as (K1 & _ & _ & K4 & K5);
      [|exact Hst | exact E2 |].
    { unfold decision_of_input. rewrite Hc, Hdup.
      split; [apply in_map, Hm; left; reflexivity|].
      split; [|discriminate].
      intros i [<-|[]]. apply in_map, Hs, E. }
    destruct (IH _ _ _ Hm' Hs K1 E3) as (J1 & J2 & J3 & J4).
    split; [exact J1|]. split; [rewrite J2; exact K4|].
    split.
    + intros x Hx. apply J3. rewrite K5. apply in_or_app. left. exact Hx.
    + intros i [<-|Hi]; [|apply J4; exact Hi].
      exists d. split; [|rewrite Hdup; left; reflexivity].
      apply J3. rewrite K5. apply in_or_app. right. left. reflexivity.
Qed.

Lemma remove_loop_keeps removed : forall st u st',
  from_input entities st ->
  for_each removed EntityResolver.remove_canonical st = Ok (u, st') ->
  from_input entities st'
  /\ EntityResolver.resolution_decisions st' = EntityResolver.resolution_decisions st
  /\ forall k, In k (dict_keys (EntityResolver.canonical_entities st)) ->
               ~ In k removed ->
               In k (dict_keys (EntityResolver.canonical_entities st')).
Proof.
  induction removed as [|r removed IH]; intros st u st' Hst H;
    cbn [for_each] in H.
  - unfold ret in H. injection H as _ <-.
    split; [exact Hst|]. split; [reflexivity|]. intros k Hk _. exact Hk.
  - apply bind_inv in H. destruct H as (u1 & s1 & E1 & H).
    unfold EntityResolver.remove_canonical, modify in E1. injection E1 as _ <-.
    destruct Hst as (Hnd & Hc & Hd).
    match type of H with for_each _ _ ?s1 = _ =>
      destruct (IH s1 u st') as (J1 & J2 & J3); [|exact H|]
    end.
    + split; [|split]; cbn; [| |exact Hd].
      * destruct (dict_mem _ _ _); [apply dict_del_nodup|]; exact Hnd.
      * intros k e Hin. apply Hc.
        destruct (dict_mem _ _ _); [eapply dict_del_in|]; exact Hin.
    + split; [exact J1|]. split; [rewrite J2; reflexivity|].
      intros k Hk Hnot. apply J3.
      * cbn. destruct (dict_mem _ _ _); [|exact Hk].
        apply dict_del_key_other; [|exact Hk].
        intros ->. apply Hnot. left. reflexivity.
      * intros Hin. apply Hnot. right. exact Hin.
Qed.

Lemma merge_acronym_entities_keeps enable st u st' :
  from_input entities st ->
  EntityResolver._merge_acronym_entities acronym_threshold enable st = Ok (u, st') ->
  from_input entities st' /\ still_accounted st st'.
Proof.
  intros Hst H. unfold EntityResolver._merge_acronym_entities in H.
  destruct (negb enable).
  { unfold ret in H. injection H as _ <-.
    split; [exact Hst | apply still_accounted_refl]. }
  apply bind_inv in H. destruct H as (st0 & s1 & E0 & H).
  unfold get in E0. injection E0 as <- <-.
  apply bind_inv in H. destruct H as (removed & s2 & E1 & H).
  assert (Hvals : forall f,
             incl (filter f (dict_values (EntityResolver.canonical_entities st)))
                  entities).
  { intros f e He. apply filter_In in He.
    eapply canonical_value_of_input; [exact Hst | apply He]. }
  destruct (acronym_loop_keeps _ _ _ _ _ (Hvals _) (Hvals _) Hst E1)
    as (K1 & K2 & K3 & K4).
  destruct (remove_loop_keeps _ _ _ _ K1 H) as (J1 & J2 & J3).
  split; [exact J1|].
  intros i [Hk|(d & Hd & Hi)].
  - destruct (in_dec string_dec i removed) as [Hin|Hnot].
    + right. destruct (K4 i Hin) as (d & Hd & Hi).
      exists d. rewrite J2. auto.
    + left. apply J3; [rewrite K2; exact Hk | exact Hnot].
  - right. exists d. rewrite J2. split; [apply K3; exact Hd | exact Hi].
Qed.

Lemma resolve_entities_keeps enable st0 out st' :
  EntityResolver.resolve_entities similarity_threshold acronym_threshold enable
    entities st0 = Ok (out, st') ->
  out = dict_values (EntityResolver.canonical_entities st')
  /\ from_input entities st'
  /\ (self_similar similarity_threshold entities ->
      forall e, In e entities -> accounted_for st' (ent_id e)).
Proof.
  intros H. unfold EntityResolver.resolve_entities in H.
  apply bind_inv in H. destruct H as (u0 & s0 & E0 & H).
  unfold put in E0. injection E0 as _ <-.
  apply bind_inv in H. destruct H as (u1 & s1 & E1 & H).
  apply bind_inv in H. destruct H as (u2 & s2 & E2 & H).
  apply bind_inv in H. destruct H as (st & s3 & E3 & H).
  unfold get in E3. injection E3 as <- <-.
  unfold ret in H. injection H as <- <-.
  assert (H0 : from_input entities EntityResolver.initial).
  { split; [constructor|]. split; [intros k e []| constructor]. }
  destruct (for_each_inv (from_input entities) still_accounted
              (fun g => incl g entities)
              (fun g s => self_similar similarity_threshold g ->
                          forall e, In e g -> accounted_for s (ent_id e))
              (EntityResolver._resolve_entities_by_type similarity_threshold)
              still_accounted_refl still_accounted_trans)
    with (l := dict_values (EntityResolver._group_entities_by_type entities))
         (s := EntityResolver.initial) (u := u1) (s' := s1) as (H1 & H2 & H3).
  - intros g s s' Hss Hg Hself e He. apply Hss. apply Hg; assumption.
  - intros g s u s' Hg Hs E. eapply resolve_entities_by_type_keeps; eassumption.
  - apply Forall_forall. intros g Hg.
    apply in_map_iff in Hg. destruct Hg as ([t g'] & <- & Hin). cbn.
    intros e He.
    eapply group_by_sound; [apply EntityType_beq_eq | exact Hin | exact He].
  - exact H0.
  - exact E1.
  - assert (H4 : from_input entities s2 /\ still_accounted s1 s2).
    { destruct enable.
      - eapply merge_acronym_entities_keeps; eassumption.
      - unfold ret in E2. injection E2 as _ <-.
        split; [exact H1 | apply still_accounted_refl]. }
    destruct H4 as (H4 & H5).
    split; [reflexivity|]. split; [exact H4|].
    intros Hself e He. apply H5.
    destruct (group_by_complete EntityType_beq ent_type EntityType_beq_eq entities e He)
      as (g & Hin & Heg).
    rewrite Forall_forall in H3.
    apply (H3 g).
    + apply in_map_iff. exists (ent_type e, g). split; [reflexivity | exact Hin].
    + intros e' He'. apply Hself.
      eapply group_by_sound; [apply EntityType_beq_eq | exact Hin | exact He'].
    + exact Heg.
Qed.

Lemma run_keeps enable canonical decisions :
  EntityResolver.run similarity_threshold acronym_threshold enable entities
  = Ok (canonical, decisions) ->
  exists st,
    canonical = dict_values (EntityResolver.canonical_entities st)
    /\ decisions = EntityResolver.resolution_decisions st
    /\ from_input entities st
    /\ (self_similar similarity_threshold entities ->
        forall e, In e entities -> accounted_for st (ent_id e)).
Proof.
  unfold EntityResolver.run. intros H.
  destruct (EntityResolver.resolve_entities _ _ _ _ _) as [[out st]|] eqn:E;
    [|discriminate].
  injection H as <- <-.
  destruct (resolve_entities_keeps _ _ _ _ E) as (H1 & H2 & H3).
  exists st. auto.
Qed.
End EntityInvariants.

Lemma canonical_ids_are_keys entities st :
  from_input entities st ->
  map ent_id (dict_values (EntityResolver.canonical_entities st))
  = dict_keys (EntityResolver.canonical_entities st).
Proof.
  intros (_ & Hc & _). unfold dict_values, dict_keys. rewrite map_map.
  apply map_ext_in. intros [k e] Hin. cbn. symmetry. apply (Hc _ _ Hin).
Qed.

(** X1: the canonical entities that entity resolution returns are entities
    of its input, unchanged, and no two of them have the same id. *)
Theorem canonical_entities_are_input_entities {F : Fuzz}
  (similarity_threshold acronym_threshold : Q) (enable_acronym_matching : bool)
  (entities canonical : list Entity) (decisions : list EntityResolutionDecision) :
  EntityResolver.run similarity_threshold acronym_threshold enable_acronym_matching
    entities = Ok (canonical, decisions) ->
  Forall (fun e => In e entities) canonical /\ NoDup (map ent_id canonical).
Proof.
  intros H. apply run_keeps in H. destruct H as (st & -> & _ & Hst & _).
  split.
  - apply Forall_forall. intros e He.
    eapply canonical_value_of_input; eassumption.
  - rewrite (canonical_ids_are_keys entities st Hst). apply Hst.
Qed.

Lemma canonical_entities_are_input_entities_witness :
  exists canonical decisions,
    EntityResolver.run (F := Reference.fuzz) (85 # 1) (90 # 1) true
      Examples.acronym_chain = Ok (canonical, decisions)
    /\ Forall (fun e => In e Examples.acronym_chain) canonical
    /\ NoDup (map ent_id canonical).
Proof.
  eexists. eexists. split; [vm_compute; reflexivity|].
  eapply (canonical_entities_are_input_entities (F := Reference.fuzz)
            (85 # 1) (90 # 1) true Examples.acronym_chain).
  vm_compute. reflexivity.
Defined.

(** X14: every decision of entity resolution names a canonical id and
    duplicate ids that are ids of input entities, and lists at least one
    duplicate. *)
Theorem decisions_name_input_ids {F : Fuzz}
  (similarity_threshold acronym_threshold : Q) (enable_acronym_matching : bool)
  (entities canonical : list Entity) (decisions : list EntityResolutionDecision) :
  EntityResolver.run similarity_threshold acronym_threshold enable_acronym_matching
    entities = Ok (canonical, decisions) ->
  Forall (decision_of_input entities) decisions.
Proof.
  intros H. apply run_keeps in H. destruct H as (st & _ & -> & Hst & _).
  apply Hst.
Qed.

Lemma decisions_name_input_ids_witness :
  exists canonical decisions,
    EntityResolver.run (F := Reference.fuzz) (85 # 1) (90 # 1) true
      Examples.acronym_chain = Ok (canonical, decisions)
    /\ Forall (decision_of_input Examples.acronym_chain) decisions.
Proof.
  eexists. eexists. split; [vm_compute; reflexivity|].
  eapply (decisions_name_input_ids (F := Reference.fuzz)
            (85 # 1) (90 # 1) true Examples.acronym_chain).
  vm_compute. reflexivity.
Defined.

(** ** The ID-remap table *)

Lemma mapping_inner c dups : forall (m : Dict string string) i,
  dict_get String.eqb
    (fold_left (fun m dup => dict_set String.eqb m dup c) dups m) i
  = if EntityResolver.name_in i dups then Some c else dict_get String.eqb m i.
Proof.
  induction dups as [|a dups IH]; intros m i; cbn; [reflexivity|].
  rewrite IH, dict_get_set.
  fold (EntityResolver.name_in i dups).
  destruct (String.eqb i a), (EntityResolver.name_in i dups); reflexivity.
Qed.

Lemma mapping_snoc decisions d i :
  remap_target (Pipeline.entity_id_mapping_of (decisions ++ [d])) i
  = if EntityResolver.name_in i (duplicate_entity_ids d)
    then Some (canonical_entity_id d)
    else remap_target (Pipeline.entity_id_mapping_of decisions) i.
Proof.
  unfold remap_target, Pipeline.entity_id_mapping_of.
  rewrite fold_left_app. cbn [fold_left]. apply mapping_inner.
Qed.

Lemma mapping_last decisions i :
  remap_target (Pipeline.entity_id_mapping_of decisions) i
  = option_map canonical_entity_id
      (find (fun d => EntityResolver.name_in i (duplicate_entity_ids d))
            (rev decisions)).
Proof.
  induction decisions as [|d decisions IH] using rev_ind; [reflexivity|].
  rewrite mapping_snoc, rev_app_distr. cbn [rev app find].
  destruct (EntityResolver.name_in i (duplicate_entity_ids d)); [reflexivity|].
  exact IH.
Qed.

(** X15: the ID-remap table sends an id to the canonical id of the last
    decision that lists it as a duplicate, and has no entry for an id that
    no decision lists. *)
Theorem remap_follows_the_last_decision
  (decisions : list EntityResolutionDecision) (i : string) :
  remap_target (Pipeline.entity_id_mapping_of decisions) i
  = option_map canonical_entity_id
      (find (fun d => EntityResolver.name_in i (duplicate_entity_ids d))
            (rev decisions)).
Proof. apply mapping_last. Qed.

Lemma mapping_of_listed decisions d i :
  In d decisions -> In i (duplicate_entity_ids d) ->
  exists d', In d' decisions /\ In i (duplicate_entity_ids d')
             /\ remap_target (Pipeline.entity_id_mapping_of decisions) i
                = Some (canonical_entity_id d').
Proof.
  intros Hd Hi. rewrite mapping_last.
  destruct (find _ (rev decisions)) as [d'|] eqn:E.
  - apply find_some in E. destruct E as [Hin Hn].
    exists d'. split; [apply in_rev; exact Hin|].
    split; [apply name_in_iff; exact Hn | reflexivity].
  - exfalso. assert (Hd' : In d (rev decisions)) by (apply in_rev in Hd; exact Hd).
    apply (find_none _ _ E d) in Hd'.
    apply name_in_iff in Hi. congruence.
Qed.

(** X2: when every name reaches the threshold against itself, entity
    resolution accounts for every input id: it is the id of a canonical
    entity that is returned, or the ID-remap table sends it to the canonical
    id of a decision, which is an id of the input. *)
Theorem every_input_id_is_kept_or_remapped {F : Fuzz}
  (similarity_threshold acronym_threshold : Q) (enable_acronym_matching : bool)
  (entities canonical : list Entity) (decisions : list EntityResolutionDecision) :
  EntityResolver.run similarity_threshold acronym_threshold enable_acronym_matching
    entities = Ok (canonical, decisions) ->
  self_similar similarity_threshold entities ->
  forall e, In e entities ->
    is_canonical_id canonical (ent_id e) = true
    \/ exists c, remap_target (Pipeline.entity_id_mapping_of decisions) (ent_id e)
                 = Some c
                 /\ In c (map ent_id entities).
Proof.
  intros H Hself e He. apply run_keeps in H.
  destruct H as (st & -> & -> & Hst & Hacc).
  destruct (Hacc Hself e He) as [Hk|(d & Hd & Hi)].
  - left. unfold is_canonical_id. apply existsb_exists.
    apply in_map_iff in Hk. destruct Hk as ([k e'] & Hk & Hin). cbn in Hk.
    exists e'. split.
    + apply in_map_iff. exists (k, e'). split; [reflexivity | exact Hin].
    + destruct Hst as (_ & Hc & _). destruct (Hc _ _ Hin) as [<- _].
      apply String.eqb_eq. exact Hk.
  - right. destruct (mapping_of_listed _ _ _ Hd Hi) as (d' & Hd' & _ & Hm).
    exists (canonical_entity_id d'). split; [exact Hm|].
    destruct Hst as (_ & _ & Hds). rewrite Forall_forall in Hds.
    destruct (Hds d' Hd') as (Hc' & _). exact Hc'.
Qed.

Lemma every_input_id_is_kept_or_remapped_witness :
  exists canonical decisions,
    EntityResolver.run (F := Reference.fuzz) (85 # 1) (90 # 1) true
      Examples.acronym_chain = Ok (canonical, decisions)
    /\ forall e, In e Examples.acronym_chain ->
         is_canonical_id canonical (ent_id e) = true
         \/ exists c,
              remap_target (Pipeline.entity_id_mapping_of decisions) (ent_id e)
              = Some c
              /\ In c (map ent_id Examples.acronym_chain).
Proof.
  eexists. eexists. split; [vm_compute; reflexivity|].
  eapply (every_input_id_is_kept_or_remapped (F := Reference.fuzz)
            (85 # 1) (90 # 1) true Examples.acronym_chain).
  - vm_compute. reflexivity.
  - intros e [<-|[<-|[<-|[]]]]; vm_compute; reflexivity.
Defined.

(** ** What connection discovery proposes *)

Lemma for_extend_forall {S A B : Type} (P : A -> Prop) (Q : B -> Prop)
  (body : A -> M S (list B)) :
  (forall x s ys s', P x -> body x s = Ok (ys, s') -> Forall Q ys) ->
  forall l s ys s',
    Forall P l -> for_extend l body s = Ok (ys, s') -> Forall Q ys.
Proof.
  intros Hbody l s ys s' Hl H.
  destruct (for_extend_inv P (fun _ ys => Forall Q ys) body Hbody l s ys s' Hl H)
    as (yss & HF & ->).
  apply Forall_concat. clear H Hl. induction HF; constructor; assumption.
Qed.

Lemma new_ConnectionDiscovery_inv {S : Type} s o p c m (st st' : S) d :
  new_ConnectionDiscovery s o p c m st = Ok (d, st') ->
  st' = st
  /\ d = {| subject_entity_id := s; object_entity_id := o;
            suggested_predicate := p; cd_confidence := c;
            discovery_method := m |}
  /\ unit_interval c.
Proof.
  unfold new_ConnectionDiscovery, check_unit. intros H.
  apply bind_inv in H. destruct H as (u & s1 & E & H).
  destruct (in_unit_interval c) eqn:Ec; [|discriminate E].
  unfold ret in E. injection E as _ <-.
  unfold ret in H. injection H as <- <-.
  split; [reflexivity|]. split; [reflexivity|].
  apply in_unit_interval_iff. exact Ec.
Qed.

Lemma not_connected a b relationships :
  ConnectionDiscoverer._entities_connected a b
    (ConnectionDiscoverer._get_existing_entity_pairs relationships) = false ->
  unconnected relationships a b.
Proof.
  unfold ConnectionDiscoverer._entities_connected. intros H r Hr.
  assert (Hall : forall x,
             In x (ConnectionDiscoverer._get_existing_entity_pairs relationships) ->
             ConnectionDiscoverer.pair_eqb (a, b) x = false).
  { intros x Hx. destruct (ConnectionDiscoverer.pair_eqb (a, b) x) eqn:E;
      [|reflexivity].
    rewrite <- H. symmetry. apply existsb_exists. exists x. auto. }
  assert (Hself : ConnectionDiscoverer.pair_eqb (a, b) (a, b) = true).
  { unfold ConnectionDiscoverer.pair_eqb. cbn. rewrite !String.eqb_refl. reflexivity. }
  split; intros [H1 H2].
  - rewrite Hall in Hself; [discriminate|].
    apply in_flat_map. exists r. split; [exact Hr|].
    left. rewrite H1, H2. reflexivity.
  - rewrite Hall in Hself; [discriminate|].
    apply in_flat_map. exists r. split; [exact Hr|].
    right. left. rewrite H1, H2. reflexivity.
Qed.

Lemma unconnected_sym relationships a b :
  unconnected relationships a b -> unconnected relationships b a.
Proof. intros H r Hr. destruct (H r Hr) as [H1 H2]. split; assumption. Qed.

Lemma entity_map_keys l : forall (d : Dict string Entity) k,
  In k (dict_keys (fold_left (fun d e => dict_set String.eqb d (ent_id e) e) l d)) ->
  In k (dict_keys d) \/ In k (map ent_id l).
Proof.
  induction l as [|e l IH]; intros d k H; cbn in *; [left; exact H|].
  apply IH in H. destruct H as [H|H]; [|right; right; exact H].
  rewrite dict_set_keys in H. apply in_app_or in H.
  destruct H as [H|H]; [left; exact H|].
  destruct (EntityResolver.name_in _ _); [destruct H|].
  destruct H as [<-|[]]. right. left. reflexivity.
Qed.

Lemma entity_map_get entities k e :
  dict_get String.eqb (ConnectionDiscoverer.entity_map_of entities) k = Some e ->
  In k (map ent_id entities).
Proof.
  intros H. apply (dict_get_in String.eqb String.eqb_eq) in H.
  apply (in_map fst) in H. cbn in H.
  apply entity_map_keys in H. destruct H as [[]|H]. exact H.
Qed.

Lemma nodup_ids_inj (l : list Entity) a b :
  NoDup (map ent_id l) -> In a l -> In b l -> ent_id a = ent_id b -> a = b.
Proof.
  induction l as [|x l IH]; cbn; [intros _ []|].
  intros Hnd Ha Hb Heq. inversion Hnd as [|? ? Hfresh Hnd']; subst.
  destruct Ha as [<-|Ha], Hb as [<-|Hb]; [reflexivity | | |].
  - exfalso. apply Hfresh. rewrite Heq. apply in_map. exact Hb.
  - exfalso. apply Hfresh. rewrite <- Heq. apply in_map. exact Ha.
  - apply IH; assumption.
Qed.

Lemma Qminb_le_l a b : Py.Qminb a b <= a.
Proof.
  unfold Py.Qminb. destruct (Py.Qltb b a) eqn:E; [|apply Qle_refl].
  apply Qltb_true in E. apply Qlt_le_weak. exact E.
Qed.

Ltac open_vetted :=
  unfold vetted, sound_proposal;
  cbn [subject_entity_id object_entity_id suggested_predicate cd_confidence
       discovery_method].

Section DiscoveryInvariants.
Context {F : Fuzz} {Mt : Math}.
Variable similarity_threshold : Q.
Variable description_weight : Q.
Variable name_weight : Q.
Variable entities : list Entity.
Variable relationships : list Relationship.

Lemma similarity_loop_vetted l : forall st out st',
  incl l entities ->
  (NoDup (map ent_id entities) -> NoDup (map ent_id l)) ->
  ConnectionDiscoverer._discover_by_similarity_loop similarity_threshold
    description_weight name_weight
    (ConnectionDiscoverer._get_existing_entity_pairs relationships) l st
  = Ok (out, st') ->
  Forall (vetted entities relationships similarity_threshold) out.
Proof.
  induction l as [|e1 rest IH]; intros st out st' Hsub Hnd H;
    cbn [ConnectionDiscoverer._discover_by_similarity_loop] in H.
  - unfold ret in H. injection H as <- _. constructor.
  - apply bind_inv in H. destruct H as (here & s1 & E1 & H).
    apply bind_inv in H. destruct H as (later & s2 & E2 & H).
    unfold ret in H. injection H as <- _.
    apply Forall_app. split.
    + eapply (for_extend_forall (fun e2 => In e2 rest)); [| |exact E1].
      * intros e2 s ys s' He2 E. cbv beta in E.
        destruct (ConnectionDiscoverer._entities_connected _ _ _) eqn:Ec.
        { unfold ret in E. injection E as <- _. constructor. }
        destruct (Py.Qgeb _ similarity_threshold) eqn:Eg.
        2:{ unfold ret in E. injection E as <- _. constructor. }
        apply bind_inv in E. destruct E as (p & s3 & _ & E).
        apply bind_inv in E. destruct E as (d & s4 & Ed & E).
        unfold ret in E. injection E as <- _.
        apply new_ConnectionDiscovery_inv in Ed. destruct Ed as (_ & -> & Hu).
        constructor; [|constructor].
        open_vetted. split; [|split].
        -- split; [apply in_map, Hsub; left; reflexivity|].
           split; [apply in_map, Hsub; right; exact He2|].
           split; [apply not_connected; exact Ec | exact Hu].
        -- left. split; [reflexivity|]. apply Qgeb_true. exact Eg.
        -- intros Hnd0. specialize (Hnd Hnd0). cbn in Hnd.
           inversion Hnd as [|? ? Hfresh _]; subst.
           intros Heq. apply Hfresh. rewrite Heq. apply in_map. exact He2.
      * apply Forall_forall. intros x Hx. exact Hx.
    + eapply IH; [| |exact E2].
      * intros x Hx. apply Hsub. right. exact Hx.
      * intros Hnd0. specialize (Hnd Hnd0). cbn in Hnd.
        inversion Hnd; assumption.
Qed.

Lemma transitive_vetted st out st' :
  ConnectionDiscoverer._discover_transitive_relationships entities relationships st
  = Ok (out, st') ->
  Forall (vetted entities relationships similarity_threshold) out.
Proof.
  unfold ConnectionDiscoverer._discover_transitive_relationships. intros H.
  eapply (for_extend_forall (fun e1 => In e1 entities)); [| |exact H].
  2:{ apply Forall_forall. intros x Hx. exact Hx. }
  intros e1 s ys s' He1 E. cbv beta in E.
  eapply (for_extend_forall (fun _ => True)); [|apply forall_true | exact E].
  intros [intermediate_id pred1] s0 ys0 s0' _ E0. cbv beta iota in E0.
  eapply (for_extend_forall (fun _ => True)); [|apply forall_true | exact E0].
  intros [target_id pred2] s1 ys1 s1' _ E1. cbv beta iota in E1.
  destruct (String.eqb target_id (ent_id e1)) eqn:Eself.
  { unfold ret in E1. injection E1 as <- _. constructor. }
  destruct (ConnectionDiscoverer._entities_connected _ _ _) eqn:Ec.
  { unfold ret in E1. injection E1 as <- _. constructor. }
  destruct (dict_get String.eqb _ target_id) as [target|] eqn:Et.
  2:{ unfold ret in E1. injection E1 as <- _. constructor. }
  destruct (dict_get String.eqb _ intermediate_id) as [intermediate|].
  2:{ unfold ret in E1. injection E1 as <- _. constructor. }
  destruct (ConnectionDiscoverer._infer_transitive_predicate pred1 pred2) as [tp|].
  2:{ unfold ret in E1. injection E1 as <- _. constructor. }
  apply bind_inv in E1. destruct E1 as (d & s4 & Ed & E1).
  unfold ret in E1. injection E1 as <- _.
  apply new_ConnectionDiscovery_inv in Ed. destruct Ed as (_ & -> & Hu).
  constructor; [|constructor].
  open_vetted. split; [|split].
  - split; [apply in_map; exact He1|].
    split; [eapply entity_map_get; exact Et|].
    split; [apply not_connected; exact Ec | exact Hu].
  - right. right. left. reflexivity.
  - intros _ Heq. apply String.eqb_neq in Eself. apply Eself. symmetry. exact Heq.
Qed.

Lemma apply_rule_vetted firsts seconds factor confidence_of subject_of object_of
  suggested method st out st' :
  incl firsts entities -> incl seconds entities ->
  (forall a b, In a firsts -> In b seconds ->
               NoDup (map ent_id entities) -> ent_id a <> ent_id b) ->
  ((forall a b, subject_of a b = a /\ object_of a b = b)
   \/ (forall a b, subject_of a b = b /\ object_of a b = a)) ->
  (forall s o sim,
      method_bound similarity_threshold
        {| subject_entity_id := s; object_entity_id := o;
           suggested_predicate := suggested;
           cd_confidence := confidence_of sim; discovery_method := method |}) ->
  ConnectionDiscoverer.apply_rule similarity_threshold description_weight name_weight
    firsts seconds
    (ConnectionDiscoverer._get_existing_entity_pairs relationships)
    factor confidence_of subject_of object_of suggested method st
  = Ok (out, st') ->
  Forall (vetted entities relationships similarity_threshold) out.
Proof.
  intros Hf Hs Hids Hdir Hbound H. unfold ConnectionDiscoverer.apply_rule in H.
  eapply (for_extend_forall (fun a => In a firsts)); [| |exact H].
  2:{ apply Forall_forall. intros x Hx. exact Hx. }
  intros a s ys s' Ha E. cbv beta in E.
  eapply (for_extend_forall (fun b => In b seconds)); [| |exact E].
  2:{ apply Forall_forall. intros x Hx. exact Hx. }
  intros b s0 ys0 s0' Hb E0. cbv beta in E0.
  destruct (ConnectionDiscoverer._entities_connected _ _ _) eqn:Ec.
  { unfold ret in E0. injection E0 as <- _. constructor. }
  destruct (Py.Qgeb _ _) eqn:Eg.
  2:{ unfold ret in E0. injection E0 as <- _. constructor. }
  apply bind_inv in E0. destruct E0 as (d & s4 & Ed & E0).
  unfold ret in E0. injection E0 as <- _.
  apply new_ConnectionDiscovery_inv in Ed. destruct Ed as (_ & -> & Hu).
  apply not_connected in Ec.
  constructor; [|constructor].
  open_vetted. split; [|split].
  - destruct Hdir as [Hd|Hd]; destruct (Hd a b) as [-> ->].
    + split; [apply in_map, Hf, Ha|]. split; [apply in_map, Hs, Hb|].
      split; [exact Ec | exact Hu].
    + split; [apply in_map, Hs, Hb|]. split; [apply in_map, Hf, Ha|].
      split; [apply unconnected_sym; exact Ec | exact Hu].
  - apply Hbound.
  - intros Hnd. pose proof (Hids a b Ha Hb Hnd) as Hne.
    destruct Hdir as [Hd|Hd]; destruct (Hd a b) as [-> ->]; congruence.
Qed.

Lemma of_type_incl t : incl (ConnectionDiscoverer.of_type t entities) entities.
Proof. intros e He. apply filter_In in He. apply He. Qed.

Lemma of_type_distinct t1 t2 a b :
  t1 <> t2 ->
  In a (ConnectionDiscoverer.of_type t1 entities) ->
  In b (ConnectionDiscoverer.of_type t2 entities) ->
  NoDup (map ent_id entities) -> ent_id a <> ent_id b.
Proof.
  intros Hne Ha Hb Hnd Heq.
  apply filter_In in Ha. destruct Ha as [Ha Hta].
  apply filter_In in Hb. destruct Hb as [Hb Htb].
  apply EntityType_beq_eq in Hta. apply EntityType_beq_eq in Htb.
  pose proof (nodup_ids_inj entities a b Hnd Ha Hb Heq) as ->. congruence.
Qed.

Ltac split_guard E :=
  match type of E with
  | (if ?c then _ else _) _ = _ =>
      destruct c; [|unfold ret in E; injection E as <- _; constructor]
  end.

Lemma domain_rules_vetted st out st' :
  ConnectionDiscoverer._discover_by_domain_rules similarity_threshold
    description_weight name_weight entities relationships st = Ok (out, st') ->
  Forall (vetted entities relationships similarity_threshold) out.
Proof.
  unfold ConnectionDiscoverer._discover_by_domain_rules. intros H.
  apply bind_inv in H. destruct H as (r1 & s1 & E1 & H).
  apply bind_inv in H. destruct H as (r2 & s2 & E2 & H).
  apply bind_inv in H. destruct H as (r3 & s3 & E3 & H).
  apply bind_inv in H. destruct H as (r4 & s4 & E4 & H).
  unfold ret in H. injection H as <- _.
  repeat (apply Forall_app; split).
  - split_guard E1.
    eapply apply_rule_vetted; [apply of_type_incl | apply of_type_incl | | | | exact E1].
    + intros a b. apply of_type_distinct. discriminate.
    + left. intros a b. split; reflexivity.
    + intros s o sim. right. right. right. left. cbn.
      split; [reflexivity|]. split; [reflexivity | apply Qminb_le_l].
  - split_guard E2.
    eapply apply_rule_vetted; [apply of_type_incl | apply of_type_incl | | | | exact E2].
    + intros a b. apply of_type_distinct. discriminate.
    + left. intros a b. split; reflexivity.
    + intros s o sim. right. right. right. right. left. cbn.
      split; [reflexivity|]. split; [reflexivity | apply Qminb_le_l].
  - split_guard E3.
    eapply apply_rule_vetted; [apply of_type_incl | apply of_type_incl | | | | exact E3].
    + intros a b. apply of_type_distinct. discriminate.
    + left. intros a b. split; reflexivity.
    + intros s o sim. right. right. right. right. right. left. cbn.
      split; [reflexivity|]. split; [reflexivity | apply Qminb_le_l].
  - split_guard E4.
    eapply (for_extend_forall
              (fun targets => exists t, t <> FORMULA
                 /\ targets = ConnectionDiscoverer.of_type t entities));
      [| |exact E4].
    + intros targets s ys s' (t & Ht & ->) E. cbv beta in E.
      split_guard E.
      eapply apply_rule_vetted; [apply of_type_incl | apply of_type_incl | | | | exact E].
      * intros a b. apply of_type_distinct. congruence.
      * right. intros a b. split; reflexivity.
      * intros s0 o sim. right. right. right. right. right. right. cbn.
        split; [reflexivity|]. split; [reflexivity | apply Qminb_le_l].
    + constructor; [exists KPI; split; [discriminate | reflexivity]|].
      constructor; [exists METRIC; split; [discriminate | reflexivity]|].
      constructor.
Qed.

Lemma patterns_vetted st out st' :
  ConnectionDiscoverer._discover_by_patterns similarity_threshold
    description_weight name_weight entities relationships st = Ok (out, st') ->
  Forall (vetted entities relationships similarity_threshold) out.
Proof.
  unfold ConnectionDiscoverer._discover_by_patterns. intros H.
  apply bind_inv in H. destruct H as (patterns & s0 & _ & H).
  eapply (for_extend_forall (fun e1 => In e1 entities)); [| |exact H].
  2:{ apply Forall_forall. intros x Hx. exact Hx. }
  intros e1 s ys s' He1 E. cbv beta in E.
  eapply (for_extend_forall (fun e2 => In e2 entities)); [| |exact E].
  2:{ apply Forall_forall. intros x Hx. exact Hx. }
  intros e2 s1 ys1 s1' He2 E1. cbv beta in E1.
  destruct (String.eqb (ent_id e1) (ent_id e2)) eqn:Eself.
  { unfold ret in E1. injection E1 as <- _. constructor. }
  destruct (ConnectionDiscoverer._entities_connected _ _ _) eqn:Ec.
  { unfold ret in E1. injection E1 as <- _. constructor. }
  destruct (dict_get _ patterns _) as [[|p others]|].
  1,3: unfold ret in E1; injection E1 as <- _; constructor.
  destruct (Py.Qgeb _ _) eqn:Eg.
  2:{ unfold ret in E1. injection E1 as <- _. constructor. }
  apply bind_inv in E1. destruct E1 as (d & s4 & Ed & E1).
  unfold ret in E1. injection E1 as <- _.
  apply new_ConnectionDiscovery_inv in Ed. destruct Ed as (_ & -> & Hu).
  constructor; [|constructor].
  open_vetted. split; [|split].
  - split; [apply in_map; exact He1|]. split; [apply in_map; exact He2|].
    split; [apply not_connected; exact Ec | exact Hu].
  - right. left. split; [reflexivity|]. apply Qgeb_true. exact Eg.
  - intros _. apply String.eqb_neq. exact Eself.
Qed.
End DiscoveryInvariants.

Lemma discovery_key_eqb_eq a b :
  ConnectionDiscoverer.discovery_key_eqb a b = true <-> a = b.
Proof.
  destruct a as [[s1 o1] p1], b as [[s2 o2] p2]. cbn.
  rewrite !andb_true_iff, !String.eqb_eq, PredicateType_beq_eq.
  split; [intros [[-> ->] ->]; reflexivity|].
  intros H. injection H as -> -> ->. auto.
Qed.

Lemma deduplicate_spec l st out st' :
  ConnectionDiscoverer._deduplicate_discoveries l st = Ok (out, st') ->
  NoDup (map ConnectionDiscoverer.discovery_key out) /\ Forall (fun d => In d l) out.
Proof.
  unfold ConnectionDiscoverer._deduplicate_discoveries. intros H.
  set (groups := group_by ConnectionDiscoverer.discovery_key_eqb
                   ConnectionDiscoverer.discovery_key l) in *.
  pose proof (group_by_well_grouped _ ConnectionDiscoverer.discovery_key
                discovery_key_eqb_eq l) as [Hnd Hgr].
  fold groups in Hnd, Hgr.
  assert (HF : Forall2 (fun g r => In r g) (dict_values groups) out).
  { eapply (for_append_inv (fun _ => True)); [|apply forall_true | exact H].
    intros g s0 r s0' _ E. cbv beta in E.
    destruct (Py.max_by _ g) as [best|] eqn:Eb; [|discriminate E].
    unfold ret in E. injection E as <- _.
    eapply max_by_any_in. exact Eb. }
  split.
  - rewrite (picked_keys ConnectionDiscoverer.discovery_key groups out);
      [exact Hnd | | exact HF].
    intros k xs x Hin Hx. apply (Hgr _ _ Hin). exact Hx.
  - apply Forall_forall. intros r Hr.
    destruct (Forall2_in_r _ _ _ HF _ Hr) as (g & Hg & Hrg).
    apply in_map_iff in Hg. destruct Hg as ([k g'] & <- & Hin).
    eapply group_by_sound; [apply discovery_key_eqb_eq | exact Hin | exact Hrg].
Qed.

Lemma insert_desc_perm {A : Type} (key : A -> Q) x l :
  Permutation (ConnectionDiscoverer.insert_desc key x l) (x :: l).
Proof.
  induction l as [|y l IH]; cbn; [apply Permutation_refl|].
  destruct (Py.Qgtb (key y) (key x)); [|apply Permutation_refl].
  eapply Permutation_trans; [apply perm_skip; exact IH | apply perm_swap].
Qed.

Lemma sort_desc_perm {A : Type} (key : A -> Q) l :
  Permutation (ConnectionDiscoverer.sort_desc key l) l.
Proof.
  induction l as [|x l IH]; cbn; [apply Permutation_refl|].
  eapply Permutation_trans; [apply insert_desc_perm | apply perm_skip; exact IH].
Qed.

Lemma discover_connections_vetted {F : Fuzz} {Mt : Math}
  threshold dw nw transitive rules entities relationships st out st' :
  ConnectionDiscoverer.discover_connections threshold dw nw transitive rules
    entities relationships st = Ok (out, st') ->
  Forall (vetted entities relationships threshold) out
  /\ NoDup (map ConnectionDiscoverer.discovery_key out).
Proof.
  unfold ConnectionDiscoverer.discover_connections. intros H.
  apply bind_inv in H. destruct H as (u0 & s0 & _ & H).
  apply bind_inv in H. destruct H as (sim & s1 & E1 & H).
  apply bind_inv in H. destruct H as (tra & s2 & E2 & H).
  apply bind_inv in H. destruct H as (dom & s3 & E3 & H).
  apply bind_inv in H. destruct H as (pat & s4 & E4 & H).
  apply bind_inv in H. destruct H as (uniq & s5 & E5 & H).
  unfold ret in H. injection H as <- _.
  apply deduplicate_spec in E5. destruct E5 as [Hnd Hin].
  assert (Hall : Forall (vetted entities relationships threshold)
                   (sim ++ tra ++ dom ++ pat)).
  { repeat (apply Forall_app; split).
    - eapply similarity_loop_vetted; [apply incl_refl | | exact E1].
      intros Hn. exact Hn.
    - destruct transitive; [eapply transitive_vetted; exact E2|].
      unfold ret in E2. injection E2 as <- _. constructor.
    - destruct rules; [eapply domain_rules_vetted; exact E3|].
      unfold ret in E3. injection E3 as <- _. constructor.
    - eapply patterns_vetted. exact E4. }
  pose proof (sort_desc_perm cd_confidence uniq) as Hperm.
  split.
  - apply Forall_forall. intros d Hd.
    apply (Permutation_in _ Hperm) in Hd.
    rewrite Forall_forall in Hin, Hall. apply Hall, Hin, Hd.
  - eapply Permutation_NoDup; [|exact Hnd].
    apply Permutation_map, Permutation_sym, Hperm.
Qed.

Lemma run_vetted {F : Fuzz} {Mt : Math} threshold transitive rules
  entities relationships out :
  ConnectionDiscoverer.run threshold transitive rules entities relationships
  = Ok out ->
  Forall (vetted entities relationships threshold) out
  /\ NoDup (map ConnectionDiscoverer.discovery_key out).
Proof.
  unfold ConnectionDiscoverer.run. intros H.
  destruct (ConnectionDiscoverer.discover_connections _ _ _ _ _ _ _ _)
    as [[l st']|e] eqn:E; [|discriminate].
  injection H as <-. eapply discover_connections_vetted. exact E.
Qed.

(** X16: every proposal of connection discovery runs between the ids of two
    of the entities it was given, no existing relationship joins these two
    in either direction, and its confidence lies in [0,1]. *)
Theorem proposals_join_unconnected_entities {F : Fuzz} {Mt : Math}
  (threshold : Q) (transitive rules : bool) (entities : list Entity)
  (relationships : list Relationship) (out : list ConnectionDiscovery) :
  ConnectionDiscoverer.run threshold transitive rules entities relationships
  = Ok out ->
  Forall (sound_proposal entities relationships) out.
Proof.
  intros H. apply run_vetted in H. destruct H as [H _].
  eapply Forall_impl; [|exact H]. intros d Hd. apply Hd.
Qed.

Lemma proposals_join_unconnected_entities_witness :
  exists out,
    reference_discoverer (6 # 10) true true Examples.churn MoreExamples.churn_edge
    = Ok out
    /\ Forall (sound_proposal Examples.churn MoreExamples.churn_edge) out.
Proof.
  eexists. split; [vm_compute; reflexivity|].
  eapply (proposals_join_unconnected_entities (F := Reference.fuzz)
            (Mt := Reference.math) (6 # 10) true true Examples.churn
            MoreExamples.churn_edge).
  vm_compute. reflexivity.
Defined.

(** X17: no two proposals of connection discovery have the same subject,
    object and predicate. *)
Theorem proposals_are_distinct {F : Fuzz} {Mt : Math}
  (threshold : Q) (transitive rules : bool) (entities : list Entity)
  (relationships : list Relationship) (out : list ConnectionDiscovery) :
  ConnectionDiscoverer.run threshold transitive rules entities relationships
  = Ok out ->
  NoDup (map ConnectionDiscoverer.discovery_key out).
Proof. intros H. apply run_vetted in H. apply H. Qed.

Lemma proposals_are_distinct_witness :
  exists out,
    reference_discoverer (6 # 10) true true Examples.churn MoreExamples.churn_edge
    = Ok out
    /\ NoDup (map ConnectionDiscoverer.discovery_key out).
Proof.
  eexists. split; [vm_compute; reflexivity|].
  eapply (proposals_are_distinct (F := Reference.fuzz) (Mt := Reference.math)
            (6 # 10) true true Examples.churn MoreExamples.churn_edge).
  vm_compute. reflexivity.
Defined.

(** X18: every proposal carries the label of one of the discovery methods,
    and what that method guarantees: a confidence that reaches the
    similarity threshold for similarity analysis and pattern matching; for a
    domain rule, the rule's predicate and a confidence of at most 0.9 (KPI
    to metric), 0.85 (metric to table) or 0.8 (metric to column, formula). *)
Theorem proposals_respect_their_method {F : Fuzz} {Mt : Math}
  (threshold : Q) (transitive rules : bool) (entities : list Entity)
  (relationships : list Relationship) (out : list ConnectionDiscovery) :
  ConnectionDiscoverer.run threshold transitive rules entities relationships
  = Ok out ->
  Forall (method_bound threshold) out.
Proof.
  intros H. apply run_vetted in H. destruct H as [H _].
  eapply Forall_impl; [|exact H]. intros d Hd. apply Hd.
Qed.

Lemma proposals_respect_their_method_witness :
  exists out,
    reference_discoverer (6 # 10) true true Examples.churn MoreExamples.churn_edge
    = Ok out
    /\ Forall (method_bound (6 # 10)) out.
Proof.
  eexists. split; [vm_compute; reflexivity|].
  eapply (proposals_respect_their_method (F := Reference.fuzz)
            (Mt := Reference.math) (6 # 10) true true Examples.churn
            MoreExamples.churn_edge).
  vm_compute. reflexivity.
Defined.

(** X19: when the entities have distinct ids, no proposal runs from an
    entity to itself. *)
Theorem no_proposal_is_a_loop {F : Fuzz} {Mt : Math}
  (threshold : Q) (transitive rules : bool) (entities : list Entity)
  (relationships : list Relationship) (out : list ConnectionDiscovery) :
  NoDup (map ent_id entities) ->
  ConnectionDiscoverer.run threshold transitive rules entities relationships
  = Ok out ->
  Forall (fun d => subject_entity_id d <> object_entity_id d) out.
Proof.
  intros Hnd H. apply run_vetted in H. destruct H as [H _].
  eapply Forall_impl; [|exact H]. intros d (_ & _ & Hd). apply Hd. exact Hnd.
Qed.

Lemma no_proposal_is_a_loop_witness :
  exists out,
    reference_discoverer (6 # 10) true true Examples.churn MoreExamples.churn_edge
    = Ok out
    /\ Forall (fun d => subject_entity_id d <> object_entity_id d) out.
Proof.
  eexists. split; [vm_compute; reflexivity|].
  eapply (no_proposal_is_a_loop (F := Reference.fuzz) (Mt := Reference.math)
            (6 # 10) true true Examples.churn MoreExamples.churn_edge).
  - repeat constructor; cbn; intuition discriminate.
  - vm_compute. reflexivity.
Defined.

Lemma slice_to_prefix {A : Type} n (l : list A) :
  exists rest, l = Pipeline.slice_to n l ++ rest.
Proof.
  unfold Pipeline.slice_to.
  destruct (0 <=? n)%Z; eexists; symmetry; apply firstn_skipn.
Qed.

Lemma pipeline_prefix {F : Fuzz} {Mt : Math}
  (config : Pipeline.Config) (entities : list Entity)
  (relationships : list Relationship) (final : list ConnectionDiscovery) :
  Pipeline.run_connection_discovery config entities relationships = Ok final ->
  exists all rest,
    ConnectionDiscoverer.run (Pipeline.connection_similarity_threshold config)
      (Pipeline.enable_transitive_discovery config)
      (Pipeline.enable_domain_rules config) entities relationships = Ok all
    /\ confident_enough (Pipeline.min_discovery_confidence config) all
       = final ++ rest
    /\ Forall (fun d => Pipeline.min_discovery_confidence config <= cd_confidence d)
              final.
Proof.
  unfold Pipeline.run_connection_discovery. intros H.
  destruct (ConnectionDiscoverer.run _ _ _ _ _) as [all|e]; [|discriminate].
  cbv zeta in H. fold (confident_enough (Pipeline.min_discovery_confidence config) all) in H.
  set (high := confident_enough (Pipeline.min_discovery_confidence config) all) in *.
  assert (Hhigh : Forall (fun d => Pipeline.min_discovery_confidence config
                                   <= cd_confidence d) high).
  { apply Forall_forall. intros d Hd. apply filter_In in Hd.
    apply Qgeb_true. apply Hd. }
  exists all.
  destruct (_ <? _)%Z; injection H as <-.
  - destruct (slice_to_prefix (Pipeline.max_discoveries_per_run config) high)
      as (rest & Hrest).
    exists rest. split; [reflexivity|]. split; [exact Hrest|].
    rewrite Hrest in Hhigh. apply Forall_app in Hhigh. apply Hhigh.
  - exists []. split; [reflexivity|]. split; [rewrite app_nil_r; reflexivity|].
    exact Hhigh.
Qed.

(** X20: what the pipeline keeps of the discoverer's proposals is a prefix
    of those whose confidence reaches min_discovery_confidence, in the
    discoverer's order. *)
Theorem pipeline_keeps_a_prefix_of_the_confident {F : Fuzz} {Mt : Math}
  (config : Pipeline.Config) (entities : list Entity)
  (relationships : list Relationship) (final : list ConnectionDiscovery) :
  Pipeline.run_connection_discovery config entities relationships = Ok final ->
  exists all rest,
    ConnectionDiscoverer.run (Pipeline.connection_similarity_threshold config)
      (Pipeline.enable_transitive_discovery config)
      (Pipeline.enable_domain_rules config) entities relationships = Ok all
    /\ confident_enough (Pipeline.min_discovery_confidence config) all
       = final ++ rest
    /\ Forall (fun d => Pipeline.min_discovery_confidence config <= cd_confidence d)
              final.
Proof. apply pipeline_prefix. Qed.

Lemma pipeline_keeps_a_prefix_of_the_confident_witness :
  exists final,
    reference_discovery Pipeline.default_config Examples.churn
      MoreExamples.churn_edge = Ok final
    /\ exists all rest,
         reference_discoverer
           (Pipeline.connection_similarity_threshold Pipeline.default_config)
           (Pipeline.enable_transitive_discovery Pipeline.default_config)
           (Pipeline.enable_domain_rules Pipeline.default_config)
           Examples.churn MoreExamples.churn_edge = Ok all
         /\ confident_enough
              (Pipeline.min_discovery_confidence Pipeline.default_config) all
            = final ++ rest
         /\ Forall (fun d => Pipeline.min_discovery_confidence Pipeline.default_config
                             <= cd_confidence d) final.
Proof.
  eexists. split; [vm_compute; reflexivity|].
  apply (pipeline_keeps_a_prefix_of_the_confident (F := Reference.fuzz)
           (Mt := Reference.math) Pipeline.default_config Examples.churn
           MoreExamples.churn_edge).
  vm_compute. reflexivity.
Defined.

(** ** The statistics of relationship resolution *)

Lemma merged_total_app a b :
  merged_total (a ++ b) = (merged_total a + merged_total b)%nat.
Proof. unfold merged_total. rewrite map_app, list_sum_app. reflexivity. Qed.

Lemma records_refl n s : records n n s s.
Proof.
  exists []. rewrite app_nil_r. split; [reflexivity|]. split; [constructor|].
  reflexivity.
Qed.

Lemma records_add a b c d s s' s'' :
  records a b s s' -> records c d s' s'' -> records (a + c) (b + d) s s''.
Proof.
  intros (n1 & -> & F1 & E1) (n2 & -> & F2 & E2).
  exists (n1 ++ n2). rewrite app_assoc. split; [reflexivity|].
  split; [apply Forall_app; split; assumption|].
  rewrite merged_total_app. lia.
Qed.

Lemma records_chain a b c s s' s'' :
  records a b s s' -> records b c s' s'' -> records a c s s''.
Proof.
  intros (n1 & -> & F1 & E1) (n2 & -> & F2 & E2).
  exists (n1 ++ n2). rewrite app_assoc. split; [reflexivity|].
  split; [apply Forall_app; split; assumption|].
  rewrite merged_total_app. lia.
Qed.

Lemma for_append_records {A B : Type} (measure : A -> nat) (P : A -> Prop)
  (body : A -> M RelationshipResolver.State B) :
  (forall x s y s', P x -> body x s = Ok (y, s') -> records (measure x) 1 s s') ->
  forall l s ys s',
    Forall P l -> for_append l body s = Ok (ys, s') ->
    records (list_sum (map measure l)) (List.length ys) s s'.
Proof.
  intros Hbody. induction l as [|x l IH]; intros s ys s' Hl H; cbn in H.
  - unfold ret in H. injection H as <- <-. apply records_refl.
  - inversion Hl as [|? ? Hx Hl']; subst.
    apply bind_inv in H. destruct H as (y & s1 & E1 & H).
    apply bind_inv in H. destruct H as (zs & s2 & E2 & H).
    unfold ret in H. injection H as <- <-.
    apply (records_add _ 1 _ (List.length zs) s s1 s2).
    + eapply Hbody; eassumption.
    + eapply IH; eassumption.
Qed.

Lemma for_extend_records {A B : Type} (measure : A -> nat) (P : A -> Prop)
  (body : A -> M RelationshipResolver.State (list B)) :
  (forall x s ys s', P x -> body x s = Ok (ys, s') ->
                     records (measure x) (List.length ys) s s') ->
  forall l s ys s',
    Forall P l -> for_extend l body s = Ok (ys, s') ->
    records (list_sum (map measure l)) (List.length ys) s s'.
Proof.
  intros Hbody. induction l as [|x l IH]; intros s ys s' Hl H; cbn in H.
  - unfold ret in H. injection H as <- <-. apply records_refl.
  - inversion Hl as [|? ? Hx Hl']; subst.
    apply bind_inv in H. destruct H as (y & s1 & E1 & H).
    apply bind_inv in H. destruct H as (zs & s2 & E2 & H).
    unfold ret in H. injection H as <- <-.
    rewrite length_app.
    apply (records_add _ _ _ _ s s1 s2).
    + eapply Hbody; eassumption.
    + eapply IH; eassumption.
Qed.

Lemma filter_all {A : Type} (f : A -> bool) l :
  (forall x, In x l -> f x = true) -> filter f l = l.
Proof.
  induction l as [|x l IH]; cbn; intros H; [reflexivity|].
  rewrite (H x (or_introl eq_refl)), IH; [reflexivity|].
  intros y Hy. apply H. right. exact Hy.
Qed.

Lemma other_ids_length best g :
  NoDup (map rel_id g) -> In best g ->
  (List.length (RelationshipResolver.other_ids best g) + 1 = List.length g)%nat.
Proof.
  unfold RelationshipResolver.other_ids. rewrite length_map.
  induction g as [|x g IH]; cbn; [intros _ []|].
  intros Hnd Hin. inversion Hnd as [|? ? Hfresh Hnd']; subst.
  destruct (String.eqb (rel_id x) (rel_id best)) eqn:E; cbn.
  - apply String.eqb_eq in E. rewrite filter_all; [lia|].
    intros y Hy. apply negb_true_iff. apply String.eqb_neq. intros Heq.
    apply Hfresh. rewrite E, <- Heq. apply in_map. exact Hy.
  - destruct Hin as [->|Hin]; [rewrite String.eqb_refl in E; discriminate|].
    specialize (IH Hnd' Hin). lia.
Qed.

Lemma new_RelationshipResolutionDecision_inv {S : Type} a c merged cf m
  (st st' : S) d :
  new_RelationshipResolutionDecision a c merged cf m st = Ok (d, st') ->
  st' = st /\ action d = a /\ merged_relationship_ids d = merged
  /\ consolidation_method d = m.
Proof.
  unfold new_RelationshipResolutionDecision, check_unit. intros H.
  apply bind_inv in H. destruct H as (u & s1 & E & H).
  destruct (in_unit_interval cf); [|discriminate E].
  unfold ret in E. injection E as _ <-.
  unfold ret in H. injection H as <- <-. auto.
Qed.

Lemma select_best_state l s r s' :
  RelationshipResolver._select_best_relationship l s = Ok (r, s') -> s' = s.
Proof.
  unfold RelationshipResolver._select_best_relationship.
  destruct (Py.max_by _ l); [|discriminate].
  unfold ret. intros H. injection H as _ <-. reflexivity.
Qed.

Lemma records_one_decision d g best s u s' :
  resolver_decision d ->
  merged_relationship_ids d = RelationshipResolver.other_ids best g ->
  NoDup (map rel_id g) -> In best g ->
  RelationshipResolver.record_decision d s = Ok (u, s') ->
  records (List.length g) 1 s s'.
Proof.
  intros Hd Hm Hnd Hin H.
  unfold RelationshipResolver.record_decision, modify in H. injection H as _ <-.
  exists [d]. split; [reflexivity|]. split; [constructor; [exact Hd | constructor]|].
  unfold merged_total. cbn. rewrite Hm.
  pose proof (other_ids_length best g Hnd Hin). lia.
Qed.

Lemma records_no_decision best g s :
  RelationshipResolver.other_ids best g = [] ->
  NoDup (map rel_id g) -> In best g ->
  records (List.length g) 1 s s.
Proof.
  intros He Hnd Hin. pose proof (other_ids_length best g Hnd Hin) as Hl.
  rewrite He in Hl. cbn in Hl. rewrite <- Hl. apply records_refl.
Qed.

Lemma dedup_group_records g s r s' :
  NoDup (map rel_id g) ->
  RelationshipResolver.dedup_group g s = Ok (r, s') ->
  records (List.length g) 1 s s'.
Proof.
  intros Hnd. unfold RelationshipResolver.dedup_group.
  assert (Hgen :
    (best_relationship <- RelationshipResolver._select_best_relationship g ;;
     let duplicate_ids := RelationshipResolver.other_ids best_relationship g in
     match duplicate_ids with
     | [] => ret best_relationship
     | _ =>
         decision <- new_RelationshipResolutionDecision KEEP_CANONICAL
                       (rel_id best_relationship) duplicate_ids
                       (rel_confidence best_relationship)
                       "exact_duplicate_removal" ;;
         RelationshipResolver.record_decision decision ;;;
         ret best_relationship
     end)%monad s = Ok (r, s') ->
    records (List.length g) 1 s s').
  { intros H. apply bind_inv in H. destruct H as (best & s1 & E1 & H).
    pose proof (select_best_in _ _ _ _ E1) as Hin.
    apply select_best_state in E1. subst s1. cbv zeta in H.
    destruct (RelationshipResolver.other_ids best g) as [|i ids] eqn:Eo.
    - unfold ret in H. injection H as _ <-.
      eapply records_no_decision; eassumption.
    - apply bind_inv in H. destruct H as (d & s2 & E2 & H).
      apply new_RelationshipResolutionDecision_inv in E2.
      destruct E2 as (-> & Ha & Hm & Hc).
      apply bind_inv in H. destruct H as (u & s3 & E3 & H).
      unfold ret in H. injection H as _ <-.
      eapply (records_one_decision d g best); try eassumption.
      + left. split; assumption.
      + rewrite Hm, Eo. reflexivity. }
  destruct g as [|r1 [|r2 rest]]; [exact Hgen | | exact Hgen].
  unfold ret. intros H. injection H as _ <-. apply records_refl.
Qed.

Lemma consolidate_confidence_state method l s c s' :
  RelationshipResolver._consolidate_confidence_scores method l s = Ok (c, s') ->
  s' = s.
Proof.
  unfold RelationshipResolver._consolidate_confidence_scores.
  assert (Hmax : forall (o : option Q) (t t' : RelationshipResolver.State) c0,
             match o with Some m => ret m | None => raise ValueError end t
             = Ok (c0, t') -> t' = t).
  { intros [m|] t t' c0; [|discriminate].
    unfold ret. intros H. injection H as _ <-. reflexivity. }
  assert (Hmean : forall (qs : list Q) (t t' : RelationshipResolver.State) c0,
             RelationshipResolver.mean qs t = Ok (c0, t') -> t' = t).
  { intros [|q qs] t t' c0; [discriminate|].
    unfold RelationshipResolver.mean, ret. intros H. injection H as _ <-.
    reflexivity. }
  assert (Hgen : forall l0,
    (let confidences := map rel_confidence l0 in
     let maximum :=
       match Py.max_list confidences with
       | Some m => ret m
       | None => raise ValueError
       end in
     if String.eqb method "max" then maximum
     else if String.eqb method "average" then RelationshipResolver.mean confidences
     else if String.eqb method "weighted" then
       let weights :=
         map (fun r => Z.max 1 (Py.len (Py.or_empty (context r)))) l0 in
       let total_weight := fold_left Z.add weights 0%Z in
       let weighted_sum :=
         Py.sum (map (fun cw => fst cw * inject_Z (snd cw))
                     (combine confidences weights)) in
       if (0 <? total_weight)%Z then ret (weighted_sum / inject_Z total_weight)
       else RelationshipResolver.mean confidences
     else maximum) s = Ok (c, s') -> s' = s).
  { intros l0. cbv zeta.
    destruct (String.eqb method "max"); [apply Hmax|].
    destruct (String.eqb method "average"); [apply Hmean|].
    destruct (String.eqb method "weighted"); [|apply Hmax].
    destruct (0 <? _)%Z; [|apply Hmean].
    unfold ret. intros H. injection H as _ <-. reflexivity. }
  destruct l as [|r1 [|r2 rest]]; [apply Hgen | | apply Hgen].
  unfold ret. intros H. injection H as _ <-. reflexivity.
Qed.

Lemma new_Relationship_state {S : Type} i s p o c ctx src (st st' : S) y :
  new_Relationship i s p o c ctx src st = Ok (y, st') -> st' = st.
Proof.
  unfold new_Relationship, check_unit. intros H.
  apply bind_inv in H. destruct H as (u & s1 & E & H).
  destruct (in_unit_interval c); [|discriminate E].
  unfold ret in E. injection E as _ <-.
  unfold ret in H. injection H as _ <-. reflexivity.
Qed.

Lemma consolidate_predicate_group_records method h s y s' :
  NoDup (map rel_id h) ->
  RelationshipResolver._consolidate_predicate_group method h s = Ok (y, s') ->
  records (List.length h) 1 s s'.
Proof.
  intros Hnd. unfold RelationshipResolver._consolidate_predicate_group.
  assert (Hgen :
    (base_relationship <- RelationshipResolver._select_best_relationship h ;;
     consolidated_confidence <-
       RelationshipResolver._consolidate_confidence_scores method h ;;
     let consolidated_context := RelationshipResolver._merge_contexts h in
     consolidated_relationship <-
       new_Relationship (rel_id base_relationship) (subject_id base_relationship)
         (predicate base_relationship) (object_id base_relationship)
         consolidated_confidence consolidated_context
         (rel_source_chunk_id base_relationship) ;;
     let merged_ids := RelationshipResolver.other_ids base_relationship h in
     match merged_ids with
     | [] => ret consolidated_relationship
     | _ =>
         decision <- new_RelationshipResolutionDecision CONSOLIDATE_RELATIONSHIPS
                       (rel_id base_relationship) merged_ids
                       consolidated_confidence
                       ("predicate_group_" ++ method)%string ;;
         RelationshipResolver.record_decision decision ;;;
         ret consolidated_relationship
     end)%monad s = Ok (y, s') ->
    records (List.length h) 1 s s').
  { intros H. apply bind_inv in H. destruct H as (base & s1 & E1 & H).
    pose proof (select_best_in _ _ _ _ E1) as Hin.
    apply select_best_state in E1. subst s1.
    apply bind_inv in H. destruct H as (c & s1 & E2 & H).
    apply consolidate_confidence_state in E2. subst s1. cbv zeta in H.
    apply bind_inv in H. destruct H as (cr & s1 & E3 & H).
    apply new_Relationship_state in E3. subst s1.
    destruct (RelationshipResolver.other_ids base h) as [|i ids] eqn:Eo.
    - unfold ret in H. injection H as _ <-.
      eapply records_no_decision; eassumption.
    - apply bind_inv in H. destruct H as (d & s2 & E4 & H).
      apply new_RelationshipResolutionDecision_inv in E4.
      destruct E4 as (-> & Ha & Hm & Hc).
      apply bind_inv in H. destruct H as (u & s3 & E5 & H).
      unfold ret in H. injection H as _ <-.
      eapply (records_one_decision d h base); try eassumption.
      + right. exact Ha.
      + rewrite Hm, Eo. reflexivity. }
  destruct h as [|r1 [|r2 rest]]; [exact Hgen | | exact Hgen].
  unfold ret. intros H. injection H as _ <-. apply records_refl.
Qed.

Lemma nodup_app_l {A : Type} (l l' : list A) : NoDup (l ++ l') -> NoDup l.
Proof.
  induction l as [|x l IH]; cbn; [constructor|].
  intros H. inversion H as [|? ? Hx Hl]; subst.
  constructor; [|apply IH; exact Hl].
  intros Hin. apply Hx. apply in_or_app. left. exact Hin.
Qed.

Lemma nodup_app_r {A : Type} (l l' : list A) : NoDup (l ++ l') -> NoDup l'.
Proof.
  induction l as [|x l IH]; cbn; [auto|].
  intros H. inversion H; subst. apply IH. assumption.
Qed.

Lemma nodup_app_disjoint {A : Type} (l l' : list A) a :
  NoDup (l ++ l') -> In a l -> ~ In a l'.
Proof.
  induction l as [|x l IH]; cbn; [intros _ []|].
  intros H [->|Ha] Ha'; inversion H as [|? ? Hx Hl]; subst.
  - apply Hx. apply in_or_app. right. exact Ha'.
  - exact (IH Hl Ha Ha').
Qed.

Lemma nodup_concat_member {A B : Type} (f : A -> B) gs g :
  NoDup (map f (List.concat gs)) -> In g gs -> NoDup (map f g).
Proof.
  induction gs as [|g0 gs IH]; cbn; [intros _ []|].
  rewrite map_app. intros H [->|Hin].
  - eapply nodup_app_l. exact H.
  - apply IH; [eapply nodup_app_r; exact H | exact Hin].
Qed.

Lemma nodup_picks {A B : Type} (f : A -> B) gs out :
  Forall2 (fun g r => In r g) gs out ->
  NoDup (map f (List.concat gs)) -> NoDup (map f out).
Proof.
  induction 1 as [|g r gs out Hr HF IH]; cbn; [constructor|].
  rewrite map_app. intros H.
  constructor; [|apply IH; eapply nodup_app_r; exact H].
  intros Hin. apply in_map_iff in Hin. destruct Hin as (r' & Heq & Hr').
  apply (nodup_app_disjoint _ _ (f r) H); [apply in_map; exact Hr|].
  rewrite <- Heq. apply in_map.
  destruct (Forall2_in_r _ _ _ HF _ Hr') as (g' & Hg' & Hin').
  apply in_concat. exists g'. split; assumption.
Qed.

(** The groups of a list with distinct ids have distinct ids, and their
    sizes add up to its length. *)
Lemma groups_of_distinct {K : Type} (eqb : K -> K -> bool)
  (key : Relationship -> K) l :
  NoDup (map rel_id l) ->
  Forall (fun g => NoDup (map rel_id g)) (dict_values (group_by eqb key l))
  /\ NoDup (map rel_id (List.concat (dict_values (group_by eqb key l))))
  /\ list_sum (map (@List.length Relationship) (dict_values (group_by eqb key l)))
     = List.length l.
Proof.
  intros Hnd.
  pose proof (group_by_perm eqb key l) as Hperm.
  assert (Hc : NoDup (map rel_id (List.concat (dict_values (group_by eqb key l))))).
  { eapply Permutation_NoDup; [|exact Hnd].
    apply Permutation_map, Permutation_sym, Hperm. }
  split; [|split; [exact Hc|]].
  - apply Forall_forall. intros g Hg. eapply nodup_concat_member; eassumption.
  - rewrite <- length_concat. apply Permutation_length. exact Hperm.
Qed.

Lemma remove_exact_duplicates_records relationships s out s' :
  NoDup (map rel_id relationships) ->
  RelationshipResolver._remove_exact_duplicates relationships s = Ok (out, s') ->
  records (List.length relationships) (List.length out) s s'
  /\ NoDup (map rel_id out).
Proof.
  intros Hnd H. unfold RelationshipResolver._remove_exact_duplicates in H.
  destruct (groups_of_distinct RelationshipResolver.canonical_key_eqb
              RelationshipResolver.canonical_key relationships Hnd)
    as (Hg & Hc & Hsum).
  split.
  - rewrite <- Hsum.
    eapply (for_append_records _ (fun g => NoDup (map rel_id g)));
      [|exact Hg | exact H].
    intros g s0 r s0' Hgn E. eapply dedup_group_records; eassumption.
  - eapply nodup_picks; [|exact Hc].
    eapply (for_append_inv (fun _ => True)); [|apply forall_true | exact H].
    intros g s0 r s0' _ E. eapply dedup_group_in. exact E.
Qed.

Lemma consolidate_relationship_group_records method g s ys s' :
  NoDup (map rel_id g) ->
  RelationshipResolver._consolidate_relationship_group method g s = Ok (ys, s') ->
  records (List.length g) (List.length ys) s s'.
Proof.
  intros Hnd. unfold RelationshipResolver._consolidate_relationship_group.
  destruct g as [|r1 [|r2 rest]].
  - unfold ret. intros H. injection H as <- <-. apply records_refl.
  - unfold ret. intros H. injection H as <- <-. apply records_refl.
  - set (g := r1 :: r2 :: rest) in *. intros H.
    destruct (groups_of_distinct PredicateType_beq predicate g Hnd)
      as (Hg & _ & Hsum).
    rewrite <- Hsum.
    eapply (for_append_records _ (fun h => NoDup (map rel_id h)));
      [|exact Hg | exact H].
    intros h s0 r s0' Hh E. eapply consolidate_predicate_group_records; eassumption.
Qed.

Lemma consolidate_similar_records method relationships s out s' :
  NoDup (map rel_id relationships) ->
  RelationshipResolver._consolidate_similar_relationships method relationships s
  = Ok (out, s') ->
  records (List.length relationships) (List.length out) s s'.
Proof.
  intros Hnd H. unfold RelationshipResolver._consolidate_similar_relationships in H.
  destruct (groups_of_distinct RelationshipResolver.pair_key_eqb
              RelationshipResolver.pair_key relationships Hnd)
    as (Hg & _ & Hsum).
  rewrite <- Hsum.
  eapply (for_extend_records _ (fun g => NoDup (map rel_id g)));
    [|exact Hg | exact H].
  intros g s0 ys s0' Hgn E. cbv beta in E.
  destruct g as [|r1 [|r2 rest]].
  - eapply consolidate_relationship_group_records; eassumption.
  - unfold ret in E. injection E as <- <-. apply records_refl.
  - eapply consolidate_relationship_group_records; eassumption.
Qed.

Lemma stats_fold ds : forall init,
  Forall resolver_decision ds ->
  (Consolidation.exact_duplicates_removed (fold_left Consolidation.count ds init)
   + Consolidation.relationships_consolidated (fold_left Consolidation.count ds init)
   = Consolidation.exact_duplicates_removed init
     + Consolidation.relationships_consolidated init
     + Z.of_nat (merged_total ds))%Z.
Proof.
  induction ds as [|d ds IH]; intros init Hds; cbn [fold_left].
  - unfold merged_total. cbn. lia.
  - inversion Hds as [|? ? Hd Hds']; subst.
    rewrite (IH _ Hds').
    change (merged_total (d :: ds))
      with (List.length (merged_relationship_ids d) + merged_total ds)%nat.
    rewrite Nat2Z.inj_add. unfold Consolidation.count.
    destruct Hd as [[Ha Hm]|Ha]; rewrite Ha.
    + rewrite Hm.
      assert (Hc : Consolidation.contains "exact_duplicate_removal"
                     "exact_duplicate_removal" = true) by (vm_compute; reflexivity).
      rewrite Hc.
      cbn [Consolidation.exact_duplicates_removed
           Consolidation.relationships_consolidated]. lia.
    + cbn [Consolidation.exact_duplicates_removed
           Consolidation.relationships_consolidated]. lia.
Qed.

Lemma resolve_relationships_states method relationships mapping s out s' :
  RelationshipResolver.resolve_relationships method relationships mapping s
  = Ok (out, s') ->
  exists updated deduplicated s1,
    map rel_id updated = map rel_id relationships
    /\ RelationshipResolver._remove_exact_duplicates updated [] = Ok (deduplicated, s1)
    /\ RelationshipResolver._consolidate_similar_relationships method
         deduplicated s1 = Ok (out, s').
Proof.
  unfold RelationshipResolver.resolve_relationships. intros H.
  apply bind_inv in H. destruct H as (u & s0 & E0 & H).
  unfold put in E0. injection E0 as _ <-.
  apply bind_inv in H. destruct H as (updated & s1 & E1 & H).
  apply bind_inv in H. destruct H as (deduplicated & s2 & E2 & H).
  assert (Hupd : map rel_id updated = map rel_id relationships /\ s1 = []).
  { destruct mapping.
    - unfold ret in E1. injection E1 as <- <-. auto.
    - split; [eapply update_ids; exact E1 | eapply update_state; exact E1]. }
  destruct Hupd as [Hids ->].
  exists updated, deduplicated, s2. auto.
Qed.

(** X21: when the relationships have distinct ids, the statistics of the
    resolver account for each of them: the relationships given are as many
    as the relationships returned, the exact duplicates removed and the
    relationships consolidated, together. *)
Theorem statistics_account_for_every_relationship (method : string)
  (relationships : list Relationship) (mapping : Dict string string)
  (out : list Relationship) (decisions : list RelationshipResolutionDecision) :
  NoDup (map rel_id relationships) ->
  RelationshipResolver.run method relationships mapping = Ok (out, decisions) ->
  (Z.of_nat (List.length relationships)
   = Z.of_nat (List.length out)
     + Consolidation.exact_duplicates_removed
         (Consolidation.get_consolidation_stats decisions)
     + Consolidation.relationships_consolidated
         (Consolidation.get_consolidation_stats decisions))%Z.
Proof.
  intros Hnd H. unfold RelationshipResolver.run in H.
  apply resolve_relationships_states in H.
  destruct H as (updated & deduplicated & s1 & Hids & E1 & E2).
  assert (Hlen : List.length updated = List.length relationships).
  { rewrite <- (length_map rel_id updated), Hids. apply length_map. }
  rewrite <- Hids in Hnd.
  destruct (remove_exact_duplicates_records _ _ _ _ Hnd E1) as (R1 & Hnd1).
  pose proof (consolidate_similar_records _ _ _ _ _ Hnd1 E2) as R2.
  destruct (records_chain _ _ _ _ _ _ R1 R2) as (new & Hs & Hnew & Hcount).
  cbn [app] in Hs. subst decisions.
  unfold Consolidation.get_consolidation_stats.
  pose proof (stats_fold new
                {| Consolidation.total_decisions := Z.of_nat (List.length new);
                   Consolidation.exact_duplicates_removed := 0;
                   Consolidation.relationships_consolidated := 0;
                   Consolidation.canonical_kept := 0 |} Hnew) as Hstats.
  cbn [Consolidation.exact_duplicates_removed
       Consolidation.relationships_consolidated] in Hstats.
  lia.
Qed.

Lemma statistics_account_for_every_relationship_witness :
  exists out decisions,
    RelationshipResolver.run "average" MoreExamples.reversed_pair []
    = Ok (out, decisions)
    /\ (Z.of_nat (List.length MoreExamples.reversed_pair)
        = Z.of_nat (List.length out)
          + Consolidation.exact_duplicates_removed
              (Consolidation.get_consolidation_stats decisions)
          + Consolidation.relationships_consolidated
              (Consolidation.get_consolidation_stats decisions))%Z.
Proof.
  eexists. eexists. split; [vm_compute; reflexivity|].
  eapply (statistics_account_for_every_relationship "average"
            MoreExamples.reversed_pair []).
  - repeat constructor; cbn; intuition discriminate.
  - vm_compute. reflexivity.
Defined.

(** ** What connection discovery can raise *)

Lemma foc_ret {S A : Type} (I : S -> Prop) (a : A) (Q : A -> Prop) :
  Q a -> fails_only_on_confidence I (ret a) Q.
Proof. intros Ha s Hs. cbn. auto. Qed.

Lemma foc_bind {S A B : Type} (I : S -> Prop) (m : M S A) (f : A -> M S B)
  (Q : A -> Prop) (R : B -> Prop) :
  fails_only_on_confidence I m Q ->
  (forall a, Q a -> fails_only_on_confidence I (f a) R) ->
  fails_only_on_confidence I (bind m f) R.
Proof.
  intros Hm Hf s Hs. unfold bind. specialize (Hm s Hs).
  destruct (m s) as [[a s']|e]; [|exact Hm].
  destruct Hm as [Hs' Ha]. apply (Hf a Ha s' Hs').
Qed.

Lemma foc_weaken {S A : Type} (I : S -> Prop) (m : M S A) (Q R : A -> Prop) :
  fails_only_on_confidence I m Q -> (forall a, Q a -> R a) ->
  fails_only_on_confidence I m R.
Proof.
  intros Hm HQR s Hs. specialize (Hm s Hs).
  destruct (m s) as [[a s']|e]; [|exact Hm].
  destruct Hm as [Hs' Ha]. auto.
Qed.

Lemma foc_get {S : Type} (I : S -> Prop) : fails_only_on_confidence I get I.
Proof. intros s Hs. cbn. auto. Qed.

Lemma foc_for_extend {S A B : Type} (I : S -> Prop) (P : A -> Prop)
  (body : A -> M S (list B)) l :
  (forall x, P x -> fails_only_on_confidence I (body x) (fun _ => True)) ->
  Forall P l ->
  fails_only_on_confidence I (for_extend l body) (fun _ => True).
Proof.
  intros Hbody. induction 1 as [|x l Hx Hl IH]; cbn [for_extend].
  - apply foc_ret. exact Logic.I.
  - eapply foc_bind; [apply Hbody; exact Hx|]. intros ys _.
    eapply foc_bind; [exact IH|]. intros zs _. apply foc_ret. exact Logic.I.
Qed.

Lemma foc_for_append {S A B : Type} (I : S -> Prop) (P : A -> Prop)
  (body : A -> M S B) l :
  (forall x, P x -> fails_only_on_confidence I (body x) (fun _ => True)) ->
  Forall P l ->
  fails_only_on_confidence I (for_append l body) (fun _ => True).
Proof.
  intros Hbody. induction 1 as [|x l Hx Hl IH]; cbn [for_append].
  - apply foc_ret. exact Logic.I.
  - eapply foc_bind; [apply Hbody; exact Hx|]. intros ys _.
    eapply foc_bind; [exact IH|]. intros zs _. apply foc_ret. exact Logic.I.
Qed.

Lemma foc_new_ConnectionDiscovery {S : Type} (I : S -> Prop) s o p c m :
  fails_only_on_confidence I (new_ConnectionDiscovery s o p c m) (fun _ => True).
Proof.
  intros st Hst. unfold new_ConnectionDiscovery, check_unit, bind.
  destruct (in_unit_interval c); cbn; auto.
Qed.

Lemma foc_proposal {S : Type} (I : S -> Prop) s o p c m :
  fails_only_on_confidence I
    (discovery <- new_ConnectionDiscovery s o p c m ;; ret [discovery])%monad
    (fun _ => True).
Proof.
  eapply foc_bind; [apply foc_new_ConnectionDiscovery|].
  intros d _. apply foc_ret. exact Logic.I.
Qed.

Lemma type_pair_eqb_eq a b :
  ConnectionDiscoverer.type_pair_eqb a b = true <-> a = b.
Proof.
  destruct a as [a1 a2], b as [b1 b2]. unfold ConnectionDiscoverer.type_pair_eqb.
  cbn. rewrite andb_true_iff, !EntityType_beq_eq.
  split; [intros [-> ->]; reflexivity | intros H; injection H as -> ->; auto].
Qed.

Lemma dict_set_nonempty {K V : Type} (eqb : K -> K -> bool) (d : Dict K V) k v :
  dict_set eqb d k v <> [].
Proof. destruct d as [|[k' v'] d]; cbn; [|destruct (eqb k k')]; discriminate. Qed.

Lemma count_predicates_nonempty l :
  l <> [] -> ConnectionDiscoverer.count_predicates l <> [].
Proof.
  unfold ConnectionDiscoverer.count_predicates.
  assert (Hgen : forall l d, d <> [] ->
    fold_left (fun d p =>
                 match dict_get PredicateType_beq d p with
                 | Some n => dict_set PredicateType_beq d p (S n)
                 | None => dict_set PredicateType_beq d p 1%nat
                 end) l d <> []).
  { clear l. induction l as [|p l IH]; intros d Hd; cbn [fold_left]; [exact Hd|].
    apply IH. destruct (dict_get _ d p); apply dict_set_nonempty. }
  destruct l as [|p l]; [congruence|]. intros _. cbn [fold_left].
  apply Hgen. cbn. discriminate.
Qed.

Lemma most_common3_nonempty l :
  l <> [] -> ConnectionDiscoverer.most_common3 l <> [].
Proof.
  intros Hl. unfold ConnectionDiscoverer.most_common3.
  pose proof (count_predicates_nonempty l Hl) as Hc.
  pose proof (sort_desc_perm (fun pc : PredicateType * nat => inject_Z (Z.of_nat (snd pc)))
                (ConnectionDiscoverer.count_predicates l)) as Hperm.
  destruct (ConnectionDiscoverer.sort_desc _ (ConnectionDiscoverer.count_predicates l))
    as [|x xs].
  - apply Permutation_nil in Hperm. congruence.
  - cbn. discriminate.
Qed.

Lemma extracted_patterns_nonempty relationships entities st u st' :
  ConnectionDiscoverer._extract_relationship_patterns relationships entities st
  = Ok (u, st') ->
  patterns_nonempty st'.
Proof.
  unfold ConnectionDiscoverer._extract_relationship_patterns, put. cbv zeta.
  intros H. injection H as _ <-.
  set (counter := group_by ConnectionDiscoverer.type_pair_eqb fst _).
  assert (Hc : Forall (fun kv => snd kv <> []) counter).
  { apply Forall_forall. intros [k xs] Hin. cbn.
    eapply group_by_nonempty; [apply type_pair_eqb_eq | exact Hin]. }
  assert (Hgen : forall l d, Forall (fun kv : ConnectionDiscoverer.TypePair
                                       * list (ConnectionDiscoverer.TypePair * PredicateType)
                                     => snd kv <> []) l ->
             patterns_nonempty d ->
             patterns_nonempty
               (fold_left (fun d kv =>
                             dict_set ConnectionDiscoverer.type_pair_eqb d (fst kv)
                               (ConnectionDiscoverer.most_common3 (map snd (snd kv))))
                          l d)).
  { clear. induction l as [|kv l IH]; intros d Hl Hd; cbn [fold_left]; [exact Hd|].
    inversion Hl as [|? ? Hkv Hl']; subst. apply IH; [exact Hl'|].
    intros k v Hin.
    apply (dict_set_in_inv _ type_pair_eqb_eq) in Hin.
    destruct Hin as [Heq|Hin]; [|apply (Hd _ _ Hin)].
    injection Heq as _ ->. apply most_common3_nonempty.
    destruct (snd kv); [congruence | discriminate]. }
  apply Hgen; [exact Hc | intros k v []].
Qed.

Section DiscoveryFailures.
Context {F : Fuzz} {Mt : Math}.
Variable similarity_threshold : Q.
Variable description_weight : Q.
Variable name_weight : Q.

Lemma foc_suggest entity1 entity2 :
  fails_only_on_confidence patterns_nonempty
    (ConnectionDiscoverer._suggest_predicate_from_similarity entity1 entity2)
    (fun _ => True).
Proof.
  unfold ConnectionDiscoverer._suggest_predicate_from_similarity.
  eapply foc_bind; [apply foc_get|]. intros patterns Hp.
  destruct (dict_get _ patterns _) as [[|p ps]|] eqn:E.
  - apply (dict_get_in _ type_pair_eqb_eq) in E. exfalso. apply (Hp _ _ E).
    reflexivity.
  - apply foc_ret. exact I.
  - apply foc_ret. exact I.
Qed.

Lemma foc_similarity_loop pairs entities :
  fails_only_on_confidence patterns_nonempty
    (ConnectionDiscoverer._discover_by_similarity_loop similarity_threshold
       description_weight name_weight pairs entities)
    (fun _ => True).
Proof.
  induction entities as [|e1 rest IH];
    cbn [ConnectionDiscoverer._discover_by_similarity_loop].
  - apply foc_ret. exact I.
  - eapply foc_bind.
    + eapply (foc_for_extend _ (fun _ => True)); [|apply forall_true].
      intros e2 _. cbv beta.
      destruct (ConnectionDiscoverer._entities_connected _ _ _);
        [apply foc_ret; exact I|].
      destruct (Py.Qgeb _ _); [|apply foc_ret; exact I].
      eapply foc_bind; [apply foc_suggest|]. intros p _. apply foc_proposal.
    + intros here _. eapply foc_bind; [exact IH|]. intros later _.
      apply foc_ret. exact I.
Qed.

Lemma foc_transitive entities relationships :
  fails_only_on_confidence patterns_nonempty
    (ConnectionDiscoverer._discover_transitive_relationships entities relationships)
    (fun _ => True).
Proof.
  unfold ConnectionDiscoverer._discover_transitive_relationships.
  eapply (foc_for_extend _ (fun _ => True)); [|apply forall_true].
  intros e1 _.
  eapply (foc_for_extend _ (fun _ => True)); [|apply forall_true].
  intros [intermediate_id pred1] _.
  eapply (foc_for_extend _ (fun _ => True)); [|apply forall_true].
  intros [target_id pred2] _.
  destruct (String.eqb target_id (ent_id e1)); [apply foc_ret; exact I|].
  destruct (ConnectionDiscoverer._entities_connected _ _ _);
    [apply foc_ret; exact I|].
  destruct (dict_get String.eqb _ target_id); [|apply foc_ret; exact I].
  destruct (dict_get String.eqb _ intermediate_id); [|apply foc_ret; exact I].
  destruct (ConnectionDiscoverer._infer_transitive_predicate pred1 pred2);
    [|apply foc_ret; exact I].
  apply foc_proposal.
Qed.

Lemma foc_apply_rule firsts seconds pairs factor confidence_of subject_of
  object_of suggested method :
  fails_only_on_confidence patterns_nonempty
    (ConnectionDiscoverer.apply_rule similarity_threshold description_weight
       name_weight firsts seconds pairs factor confidence_of subject_of object_of
       suggested method)
    (fun _ => True).
Proof.
  unfold ConnectionDiscoverer.apply_rule.
  eapply (foc_for_extend _ (fun _ => True)); [|apply forall_true].
  intros a _.
  eapply (foc_for_extend _ (fun _ => True)); [|apply forall_true].
  intros b _.
  destruct (ConnectionDiscoverer._entities_connected _ _ _);
    [apply foc_ret; exact I|].
  destruct (Py.Qgeb _ _); [|apply foc_ret; exact I].
  apply foc_proposal.
Qed.

Lemma foc_domain_rules entities relationships :
  fails_only_on_confidence patterns_nonempty
    (ConnectionDiscoverer._discover_by_domain_rules similarity_threshold
       description_weight name_weight entities relationships)
    (fun _ => True).
Proof.
  unfold ConnectionDiscoverer._discover_by_domain_rules. cbv zeta.
  eapply foc_bind with (Q := fun _ => True).
  { destruct (_ && _); [apply foc_apply_rule | apply foc_ret; exact I]. }
  intros r1 _. eapply foc_bind with (Q := fun _ => True).
  { destruct (_ && _); [apply foc_apply_rule | apply foc_ret; exact I]. }
  intros r2 _. eapply foc_bind with (Q := fun _ => True).
  { destruct (_ && _); [apply foc_apply_rule | apply foc_ret; exact I]. }
  intros r3 _. eapply foc_bind with (Q := fun _ => True).
  { destruct (ConnectionDiscoverer.nonempty _); [|apply foc_ret; exact I].
    eapply (foc_for_extend _ (fun _ => True)); [|apply forall_true].
    intros targets _.
    destruct (ConnectionDiscoverer.nonempty _);
      [apply foc_apply_rule | apply foc_ret; exact I]. }
  intros r4 _. apply foc_ret. exact I.
Qed.

Lemma foc_patterns entities relationships :
  fails_only_on_confidence patterns_nonempty
    (ConnectionDiscoverer._discover_by_patterns similarity_threshold
       description_weight name_weight entities relationships)
    (fun _ => True).
Proof.
  unfold ConnectionDiscoverer._discover_by_patterns. cbv zeta.
  eapply foc_bind; [apply foc_get|]. intros patterns _.
  eapply (foc_for_extend _ (fun _ => True)); [|apply forall_true].
  intros e1 _.
  eapply (foc_for_extend _ (fun _ => True)); [|apply forall_true].
  intros e2 _.
  destruct (String.eqb (ent_id e1) (ent_id e2)); [apply foc_ret; exact I|].
  destruct (ConnectionDiscoverer._entities_connected _ _ _);
    [apply foc_ret; exact I|].
  destruct (dict_get _ patterns _) as [[|p others]|]; try (apply foc_ret; exact I).
  destruct (Py.Qgeb _ _); [|apply foc_ret; exact I].
  apply foc_proposal.
Qed.

Lemma foc_deduplicate discoveries :
  fails_only_on_confidence patterns_nonempty
    (ConnectionDiscoverer._deduplicate_discoveries discoveries)
    (fun _ => True).
Proof.
  unfold ConnectionDiscoverer._deduplicate_discoveries. cbv zeta.
  eapply (foc_for_append _ (fun g => g <> [])).
  - intros g Hg. destruct g as [|d g]; [congruence|]. cbn [Py.max_by].
    apply foc_ret. exact I.
  - apply Forall_forall. intros g Hg.
    apply in_map_iff in Hg. destruct Hg as ([k g'] & <- & Hin). cbn.
    eapply group_by_nonempty; [apply discovery_key_eqb_eq | exact Hin].
Qed.

Lemma discover_connections_failure transitive rules entities relationships st e :
  ConnectionDiscoverer.discover_connections similarity_threshold description_weight
    name_weight transitive rules entities relationships st = Error e ->
  e = ValidationError "confidence".
Proof.
  unfold ConnectionDiscoverer.discover_connections. intros H.
  unfold bind at 1 in H.
  destruct (ConnectionDiscoverer._extract_relationship_patterns _ _ st)
    as [[u s0]|e0] eqn:E0; [|discriminate E0].
  apply extracted_patterns_nonempty in E0.
  match type of H with ?m s0 = _ =>
    assert (Hfoc : fails_only_on_confidence patterns_nonempty m (fun _ => True))
  end.
  { eapply foc_bind; [apply foc_similarity_loop|]. intros sim _.
    eapply foc_bind with (Q := fun _ => True).
    { destruct transitive; [apply foc_transitive | apply foc_ret; exact I]. }
    intros tra _. eapply foc_bind with (Q := fun _ => True).
    { destruct rules; [apply foc_domain_rules | apply foc_ret; exact I]. }
    intros dom _. eapply foc_bind; [apply foc_patterns|]. intros pat _.
    eapply foc_bind; [apply foc_deduplicate|]. intros uniq _.
    apply foc_ret. exact I. }
  specialize (Hfoc s0 E0). rewrite H in Hfoc. exact Hfoc.
Qed.
End DiscoveryFailures.

(** X22: connection discovery raises nothing but the rejection of a
    confidence outside [0,1]: the first suggestion of a recorded pattern and
    the best proposal of a group always exist. *)
Theorem discovery_fails_only_on_confidence {F : Fuzz} {Mt : Math}
  (threshold : Q) (transitive rules : bool) (entities : list Entity)
  (relationships : list Relationship) (e : Exn) :
  ConnectionDiscoverer.run threshold transitive rules entities relationships
  = Error e ->
  e = ValidationError "confidence".
Proof.
  unfold ConnectionDiscoverer.run. intros H.
  destruct (ConnectionDiscoverer.discover_connections _ _ _ _ _ _ _ _)
    as [[l st']|e0] eqn:E; [discriminate|].
  injection H as <-. eapply discover_connections_failure. exact E.
Qed.

Lemma discovery_fails_only_on_confidence_witness :
  exists e,
    reference_discoverer (6 # 10) true true Examples.twins [] = Error e
    /\ e = ValidationError "confidence".
Proof.
  eexists. split; [vm_compute; reflexivity|].
  eapply (discovery_fails_only_on_confidence (F := Reference.fuzz)
            (Mt := Reference.math) (6 # 10) true true Examples.twins []).
  vm_compute. reflexivity.
Defined.

(** ** The range of the composite similarity *)

Lemma attribute_total_bounds {F : Fuzz} {FL : FuzzLaws F}
  (attrs1 attrs2 : Dict string string) keys : forall acc,
  acc
  <= fold_left
       (fun total k =>
          let val1 := Py.lower (Py.or_empty (dict_get String.eqb attrs1 k)) in
          let val2 := Py.lower (Py.or_empty (dict_get String.eqb attrs2 k)) in
          if String.eqb val1 val2 then total + 1
          else total + ratio val1 val2 / 100)
       keys acc
  <= acc + inject_Z (Z.of_nat (List.length keys)).
Proof.
  set (f := fun (total : Q) (k : string) => _).
  assert (Hf : forall acc k, acc <= f acc k <= acc + 1).
  { intros acc k. unfold f. cbv zeta.
    set (v1 := Py.lower (Py.or_empty (dict_get String.eqb attrs1 k))).
    set (v2 := Py.lower (Py.or_empty (dict_get String.eqb attrs2 k))).
    destruct (String.eqb v1 v2); [split; lra|].
    pose proof (ratio_range v1 v2) as [R0 R1].
    assert (Hr : 0 <= ratio v1 v2 / 100 <= 1).
    { split; [apply Qle_shift_div_l | apply Qle_shift_div_r]; lra. }
    split; lra. }
  induction keys as [|k keys IH]; intros acc; cbn [fold_left List.length].
  - change (inject_Z (Z.of_nat 0)) with 0. split; lra.
  - rewrite inject_nat_succ.
    destruct (IH (f acc k)) as [H1 H2]. destruct (Hf acc k) as [H3 H4].
    split; lra.
Qed.

Lemma attribute_similarity_unit {F : Fuzz} {FL : FuzzLaws F} attrs1 attrs2 :
  unit_interval (ConnectionDiscoverer._calculate_attribute_similarity attrs1 attrs2).
Proof.
  unfold ConnectionDiscoverer._calculate_attribute_similarity, unit_interval.
  destruct attrs1 as [|a1 attrs1]; [split; lra|].
  destruct attrs2 as [|a2 attrs2]; [split; lra|].
  set (common := nodup string_dec _).
  destruct common as [|k rest] eqn:Ek; [split; lra|].
  rewrite <- Ek.
  pose proof (attribute_total_bounds (a1 :: attrs1) (a2 :: attrs2) common 0) as [H0 H1].
  assert (Hn : 0 < inject_Z (Z.of_nat (List.length common))).
  { apply inject_nat_pos. rewrite Ek. cbn. lia. }
  cbv zeta in H0, H1.
  split; [apply Qle_shift_div_l | apply Qle_shift_div_r]; lra.
Qed.

Lemma scaled_within (x w : Q) : 0 <= x <= 1 -> 0 <= w -> 0 <= x * w <= w.
Proof.
  intros [H0 H1] Hw. split.
  - apply Qmult_le_0_compat; assumption.
  - setoid_replace w with (1 * w) at 2 by ring.
    apply Qmult_le_compat_r; assumption.
Qed.

Lemma percent_unit (q : Q) : 0 <= q <= 100 -> 0 <= q / 100 <= 1.
Proof.
  intros [H0 H1]. split; [apply Qle_shift_div_l | apply Qle_shift_div_r]; lra.
Qed.

(** X23: for non-negative weights the composite similarity of two entities
    is never negative and never more than the name weight, the description
    weight and 0.2 together, and at most 0.8 of that for entities of
    different types. *)
Theorem composite_similarity_is_bounded {F : Fuzz} {FL : FuzzLaws F}
  (description_weight name_weight : Q) (entity1 entity2 : Entity) :
  0 <= description_weight -> 0 <= name_weight ->
  0 <= ConnectionDiscoverer._calculate_entity_similarity description_weight
         name_weight entity1 entity2
  /\ ConnectionDiscoverer._calculate_entity_similarity description_weight
       name_weight entity1 entity2
     <= (name_weight + description_weight + (2 # 10))
        * (if EntityType_beq (ent_type entity1) (ent_type entity2)
           then 1 else 8 # 10).
Proof.
  intros Hd Hn. unfold ConnectionDiscoverer._calculate_entity_similarity. cbv zeta.
  set (name_sim := partial_ratio _ _ / 100).
  set (desc_sim := match ent_description entity1 with Some _ => _ | None => _ end).
  set (attr_sim := ConnectionDiscoverer._calculate_attribute_similarity _ _).
  assert (Hname : 0 <= name_sim <= 1).
  { apply percent_unit, partial_ratio_range. }
  assert (Hdesc : 0 <= desc_sim <= 1).
  { unfold desc_sim.
    destruct (ent_description entity1) as [d1|]; [|split; lra].
    destruct (ent_description entity2) as [d2|]; [|split; lra].
    destruct (Py.truthy (Some d1) && Py.truthy (Some d2)); [|split; lra].
    apply percent_unit, partial_ratio_range. }
  pose proof (attribute_similarity_unit (ent_attributes entity1)
                (ent_attributes entity2)) as Hattr.
  fold attr_sim in Hattr. unfold unit_interval in Hattr.
  pose proof (scaled_within name_sim name_weight Hname Hn) as [N0 N1].
  pose proof (scaled_within desc_sim description_weight Hdesc Hd) as [D0 D1].
  destruct (EntityType_beq (ent_type entity1) (ent_type entity2)); split; lra.
Qed.

Lemma composite_similarity_is_bounded_witness :
  0 <= ConnectionDiscoverer._calculate_entity_similarity (F := Reference.fuzz)
         (4 # 10) (6 # 10)
         (Examples.entity "e1" KPI "Revenue" (Some "Total revenue") (9 # 10)
            [("unit", "USD")])
         (Examples.entity "a1" METRIC "Churn" (Some "rate") (9 # 10) [])
  /\ ConnectionDiscoverer._calculate_entity_similarity (F := Reference.fuzz)
       (4 # 10) (6 # 10)
       (Examples.entity "e1" KPI "Revenue" (Some "Total revenue") (9 # 10)
          [("unit", "USD")])
       (Examples.entity "a1" METRIC "Churn" (Some "rate") (9 # 10) [])
     <= ((6 # 10) + (4 # 10) + (2 # 10))
        * (if EntityType_beq KPI METRIC then 1 else 8 # 10).
Proof.
  apply (composite_similarity_is_bounded (F := Reference.fuzz)
           (FL := reference_fuzz_laws) (4 # 10) (6 # 10)
           (Examples.entity "e1" KPI "Revenue" (Some "Total revenue") (9 # 10)
              [("unit", "USD")])
           (Examples.entity "a1" METRIC "Churn" (Some "rate") (9 # 10) []));
    vm_compute; discriminate.
Defined.

(** ** Resolving resolved relationships *)

Section Blocks.
Context {K A : Type}.
Variable eqb : K -> K -> bool.
Variable key : A -> K.
Hypothesis eqb_eq : forall a b, eqb a b = true <-> a = b.

Lemma eqb_neq a b : a <> b -> eqb a b = false.
Proof.
  intros H. destruct (eqb a b) eqn:E; [|reflexivity].
  apply eqb_eq in E. congruence.
Qed.

Lemma dict_append_fresh (d : Dict K (list A)) k x :
  ~ In k (dict_keys d) -> dict_append eqb d k x = d ++ [(k, [x])].
Proof.
  induction d as [|[k' xs] d IH]; cbn; [reflexivity|]. intros Hk.
  rewrite eqb_neq; [|intros ->; apply Hk; left; reflexivity].
  rewrite IH; [reflexivity|]. intros H. apply Hk. right. exact H.
Qed.

Lemma dict_append_last (d : Dict K (list A)) k xs x :
  ~ In k (dict_keys d) ->
  dict_append eqb (d ++ [(k, xs)]) k x = d ++ [(k, xs ++ [x])].
Proof.
  induction d as [|[k' xs'] d IH]; cbn.
  - intros _. rewrite (proj2 (eqb_eq k k) eq_refl). reflexivity.
  - intros Hk. rewrite eqb_neq; [|intros ->; apply Hk; left; reflexivity].
    rewrite IH; [reflexivity|]. intros H. apply Hk. right. exact H.
Qed.

Lemma group_block xs : forall (d : Dict K (list A)) k ys,
  ~ In k (dict_keys d) -> (forall x, In x xs -> key x = k) ->
  fold_left (fun d x => dict_append eqb d (key x) x) xs (d ++ [(k, ys)])
  = d ++ [(k, ys ++ xs)].
Proof.
  induction xs as [|x xs IH]; intros d k ys Hk Hxs; cbn [fold_left].
  - rewrite app_nil_r. reflexivity.
  - rewrite (Hxs x (or_introl eq_refl)), (dict_append_last d k ys x Hk).
    rewrite IH; [|exact Hk | intros y Hy; apply Hxs; right; exact Hy].
    rewrite <- app_assoc. reflexivity.
Qed.

Lemma group_blocks (bs : Dict K (list A)) : forall d : Dict K (list A),
  NoDup (dict_keys d ++ dict_keys bs) ->
  (forall k xs, In (k, xs) bs -> xs <> [] /\ forall x, In x xs -> key x = k) ->
  fold_left (fun d x => dict_append eqb d (key x) x)
            (List.concat (dict_values bs)) d
  = d ++ bs.
Proof.
  induction bs as [|[k xs] bs IH]; intros d Hnd Hbs.
  - cbn. rewrite app_nil_r. reflexivity.
  - destruct (Hbs k xs (or_introl eq_refl)) as [Hne Hkey].
    destruct xs as [|x xs]; [congruence|].
    assert (Hk : ~ In k (dict_keys d)).
    { cbn in Hnd. apply NoDup_remove_2 in Hnd. intros H. apply Hnd.
      apply in_or_app. left. exact H. }
    change (List.concat (dict_values ((k, x :: xs) :: bs)))
      with ((x :: xs) ++ List.concat (dict_values bs)).
    rewrite fold_left_app. cbn [fold_left].
    rewrite (Hkey x (or_introl eq_refl)), (dict_append_fresh d k x Hk).
    rewrite (group_block xs d k [x] Hk);
      [|intros y Hy; apply Hkey; right; exact Hy].
    rewrite IH.
    + rewrite <- app_assoc. reflexivity.
    + unfold dict_keys in *. rewrite map_app, <- app_assoc. exact Hnd.
    + intros k' xs' Hin. apply Hbs. right. exact Hin.
Qed.

(** Grouping a list that is already laid out group by group gives these
    groups back. *)
Lemma group_by_blocks (bs : Dict K (list A)) :
  well_grouped key bs ->
  group_by eqb key (List.concat (dict_values bs)) = bs.
Proof.
  intros [Hnd Hbs]. unfold group_by.
  rewrite (group_blocks bs []); [reflexivity | exact Hnd | exact Hbs].
Qed.

Lemma group_by_singletons l :
  NoDup (map key l) -> group_by eqb key l = map (fun x => (key x, [x])) l.
Proof.
  intros Hnd.
  assert (Hc : List.concat (dict_values (map (fun x => (key x, [x])) l)) = l).
  { clear Hnd. induction l as [|x l IH]; cbn; [reflexivity|].
    f_equal. exact IH. }
  rewrite <- Hc at 1. apply group_by_blocks. split.
  - unfold dict_keys. rewrite map_map. cbn. exact Hnd.
  - intros k xs Hin. apply in_map_iff in Hin. destruct Hin as (x & Heq & _).
    injection Heq as <- <-. split; [discriminate|].
    intros y [<-|[]]. reflexivity.
Qed.
End Blocks.

Lemma for_append_singletons {S A : Type} (body : list A -> M S A) l s :
  (forall x s, body [x] s = Ok (x, s)) ->
  for_append (map (fun x => [x]) l) body s = Ok (l, s).
Proof.
  intros Hbody. induction l as [|x l IH]; cbn; [reflexivity|].
  rewrite (bind_ok _ _ _ _ _ (Hbody x s)), (bind_ok _ _ _ _ _ IH). reflexivity.
Qed.

Lemma for_extend_fixed {S A : Type} (body : list A -> M S (list A)) yss s :
  Forall (fun ys => forall s, body ys s = Ok (ys, s)) yss ->
  for_extend yss body s = Ok (List.concat yss, s).
Proof.
  induction 1 as [|ys yss Hys Hyss IH]; cbn; [reflexivity|].
  rewrite (bind_ok _ _ _ _ _ (Hys s)), (bind_ok _ _ _ _ _ IH). reflexivity.
Qed.

Lemma values_of_singletons {K A : Type} (key : A -> K) (l : list A) :
  dict_values (map (fun x => (key x, [x])) l) = map (fun x => [x]) l.
Proof. unfold dict_values. rewrite map_map. reflexivity. Qed.

Lemma remove_exact_duplicates_fixed out s :
  NoDup (map RelationshipResolver.canonical_key out) ->
  RelationshipResolver._remove_exact_duplicates out s = Ok (out, s).
Proof.
  intros Hnd. unfold RelationshipResolver._remove_exact_duplicates.
  rewrite (group_by_singletons _ _ canonical_key_eqb_eq out Hnd).
  rewrite values_of_singletons. apply for_append_singletons.
  intros x s0. reflexivity.
Qed.

Lemma consolidate_block_fixed method ys s :
  NoDup (map predicate ys) ->
  (match ys with
   | [r] => ret [r]
   | _ => RelationshipResolver._consolidate_relationship_group method ys
   end) s = Ok (ys, s).
Proof.
  intros Hnd. destruct ys as [|r1 [|r2 rest]]; [reflexivity | reflexivity |].
  unfold RelationshipResolver._consolidate_relationship_group.
  rewrite (group_by_singletons _ _ PredicateType_beq_eq _ Hnd).
  rewrite values_of_singletons. apply for_append_singletons.
  intros x s0. reflexivity.
Qed.

Lemma consolidate_similar_fixed method
  (blocks : Dict (string * string) (list Relationship)) s :
  well_grouped RelationshipResolver.pair_key blocks ->
  Forall (fun ys => NoDup (map predicate ys)) (dict_values blocks) ->
  RelationshipResolver._consolidate_similar_relationships method
    (List.concat (dict_values blocks)) s
  = Ok (List.concat (dict_values blocks), s).
Proof.
  intros Hwg Hpred. unfold RelationshipResolver._consolidate_similar_relationships.
  rewrite (group_by_blocks _ _ pair_key_eqb_eq blocks Hwg).
  apply for_extend_fixed.
  eapply Forall_impl; [|exact Hpred]. cbv beta.
  intros ys Hys s0. apply consolidate_block_fixed. exact Hys.
Qed.

Lemma consolidate_relationship_group_nonempty method g s ys s' :
  g <> [] ->
  (match g with
   | [r] => ret [r]
   | _ => RelationshipResolver._consolidate_relationship_group method g
   end) s = Ok (ys, s') ->
  ys <> [].
Proof.
  intros Hg. destruct g as [|r1 [|r2 rest]]; [congruence | |].
  - unfold ret. intros H. injection H as <- _. discriminate.
  - unfold RelationshipResolver._consolidate_relationship_group. intros H.
    assert (HF : Forall2 (fun _ _ => True)
                   (dict_values (group_by PredicateType_beq predicate
                                   (r1 :: r2 :: rest))) ys).
    { eapply (for_append_inv (fun _ => True)); [|apply forall_true | exact H].
      intros; exact I. }
    apply Forall2_length in HF.
    pose proof (group_by_total PredicateType_beq predicate (r1 :: r2 :: rest)) as Ht.
    destruct (dict_values (group_by PredicateType_beq predicate (r1 :: r2 :: rest)));
      [discriminate Ht|].
    destruct ys; [discriminate HF | discriminate].
Qed.

Lemma blocks_of_fused (d : Dict (string * string) (list Relationship)) :
  forall yss,
    (forall k g x, In (k, g) d -> In x g -> RelationshipResolver.pair_key x = k) ->
    Forall2 (fun g ys => fused_from g ys /\ ys <> []) (dict_values d) yss ->
    exists blocks : Dict (string * string) (list Relationship),
      dict_keys blocks = dict_keys d /\ dict_values blocks = yss
      /\ (forall k ys, In (k, ys) blocks ->
            ys <> [] /\ forall y, In y ys -> RelationshipResolver.pair_key y = k)
      /\ Forall (fun ys => NoDup (map predicate ys)) yss.
Proof.
  induction d as [|[k g] d IH]; intros yss Hkey HF; cbn in HF.
  - inversion HF; subst. exists [].
    split; [reflexivity|]. split; [reflexivity|].
    split; [intros k0 ys0 [] | constructor].
  - inversion HF as [|? ys ? yss' [Hfused Hne] HF']; subst.
    destruct (IH yss') as (blocks & Hk & Hv & Hb & Hp); [|exact HF'|].
    { intros k' g' x Hin Hx. apply (Hkey k' g' x); [right; exact Hin | exact Hx]. }
    exists ((k, ys) :: blocks).
    unfold dict_keys, dict_values in *. cbn [map fst snd]. rewrite Hk, Hv.
    split; [reflexivity|]. split; [reflexivity|]. split.
    + intros k' ys' [Heq|Hin]; [|apply Hb; exact Hin].
      injection Heq as <- <-. split; [exact Hne|].
      intros y Hy. destruct Hfused as (_ & Hys & _).
      rewrite Forall_forall in Hys. destruct (Hys y Hy) as (b & Hbg & _ & ->).
      apply (Hkey k g b); [left; reflexivity | exact Hbg].
    + constructor; [apply Hfused | exact Hp].
Qed.

Lemma consolidate_similar_blocks method relationships s out s' :
  RelationshipResolver._consolidate_similar_relationships method relationships s
  = Ok (out, s') ->
  exists blocks : Dict (string * string) (list Relationship),
    out = List.concat (dict_values blocks)
    /\ well_grouped RelationshipResolver.pair_key blocks
    /\ Forall (fun ys => NoDup (map predicate ys)) (dict_values blocks).
Proof.
  unfold RelationshipResolver._consolidate_similar_relationships. intros H.
  set (groups := group_by RelationshipResolver.pair_key_eqb
                   RelationshipResolver.pair_key relationships) in *.
  pose proof (group_by_well_grouped _ RelationshipResolver.pair_key
                pair_key_eqb_eq relationships) as [Hnd Hgr].
  fold groups in Hnd, Hgr.
  destruct (for_extend_inv (fun g => g <> [])
              (fun g ys => fused_from g ys /\ ys <> []) _
              (fun g s0 ys s0' Hg E =>
                 conj (consolidate_relationship_group_fused method g s0 ys s0' E)
                      (consolidate_relationship_group_nonempty method g s0 ys s0'
                         Hg E))
              (dict_values groups) s out s') as (yss & HF & ->).
  - apply Forall_forall. intros g Hg.
    apply in_map_iff in Hg. destruct Hg as ([k g'] & <- & Hin).
    apply (Hgr _ _ Hin).
  - exact H.
  - destruct (blocks_of_fused groups yss) as (blocks & Hk & Hv & Hb & Hp);
      [|exact HF|].
    { intros k g x Hin Hx. apply (Hgr _ _ Hin). exact Hx. }
    exists blocks. rewrite Hv. split; [reflexivity|]. split; [|exact Hp].
    split; [rewrite Hk; exact Hnd | exact Hb].
Qed.

(** X24: relationship resolution is idempotent: resolving the relationships
    it returned once more, with nothing left to remap, returns them
    unchanged, in the same order, and records no decision. *)
Theorem relationship_resolution_is_idempotent (method : string)
  (relationships : list Relationship) (mapping : Dict string string)
  (out : list Relationship) (decisions : list RelationshipResolutionDecision) :
  RelationshipResolver.run method relationships mapping = Ok (out, decisions) ->
  RelationshipResolver.run method out [] = Ok (out, []).
Proof.
  unfold RelationshipResolver.run. intros H.
  apply resolve_relationships_states in H.
  destruct H as (updated & deduplicated & s1 & _ & _ & H).
  pose proof (consolidate_similar_spec _ _ _ _ _ H) as (Hedges & _ & _).
  assert (Hkeys : NoDup (map RelationshipResolver.canonical_key out)).
  { apply (NoDup_map_inv
             (fun k : string * PredicateType * string =>
                let '(s, p, o) := k in
                (if String.ltb o s then (o, s) else (s, o), p))).
    rewrite map_map. exact Hedges. }
  apply consolidate_similar_blocks in H.
  destruct H as (blocks & Hout & Hwg & Hpred).
  unfold RelationshipResolver.resolve_relationships.
  unfold bind at 1. cbn [put].
  unfold bind at 1. cbn [ret].
  rewrite (bind_ok _ _ _ _ _ (remove_exact_duplicates_fixed out [] Hkeys)).
  rewrite Hout. apply consolidate_similar_fixed; assumption.
Qed.

Lemma relationship_resolution_is_idempotent_witness :
  exists out decisions,
    RelationshipResolver.run "average" MoreExamples.reversed_pair []
    = Ok (out, decisions)
    /\ RelationshipResolver.run "average" out [] = Ok (out, []).
Proof.
  eexists. eexists. split; [vm_compute; reflexivity|].
  eapply (relationship_resolution_is_idempotent "average"
            MoreExamples.reversed_pair []).
  vm_compute. reflexivity.
Defined.

(** ** The pipeline as a whole *)

(** X25: in the result of a run, the canonical entities are entities of the
    input; every discovered connection links the ids of two canonical
    entities that no consolidated relationship joins, with a confidence in
    [0,1] that reaches min_discovery_confidence; and no two consolidated
    relationships have the same subject, predicate and object. *)
Theorem run_result_is_consistent {F : Fuzz} {Mt : Math}
  (config : Pipeline.Config) (entities : list Entity)
  (relationships : list Relationship) (r : Pipeline.ResolutionResult) :
  Pipeline.resolve config entities relationships = Ok r ->
  Forall (fun e => In e entities) (Pipeline.canonical_entities r)
  /\ Forall (sound_proposal (Pipeline.canonical_entities r)
               (Pipeline.consolidated_relationships r))
            (Pipeline.discovered_connections r)
  /\ Forall (fun d => Pipeline.min_discovery_confidence config <= cd_confidence d)
            (Pipeline.discovered_connections r)
  /\ NoDup (map RelationshipResolver.canonical_key
               (Pipeline.consolidated_relationships r)).
Proof.
  unfold Pipeline.resolve. intros H.
  destruct (Pipeline.run_entity_resolution config entities)
    as [[canonical entity_decs]|e1] eqn:E1; [|discriminate].
  destruct (Pipeline.run_relationship_resolution config relationships entity_decs)
    as [[consolidated relationship_decs]|e2] eqn:E2; [|discriminate].
  destruct (Pipeline.run_connection_discovery config canonical consolidated)
    as [discovered|e3] eqn:E3; [|discriminate].
  injection H as <-. cbn [Pipeline.canonical_entities Pipeline.discovered_connections
                          Pipeline.consolidated_relationships].
  unfold Pipeline.run_entity_resolution in E1.
  apply run_keeps in E1. destruct E1 as (st & -> & _ & Hst & _).
  apply pipeline_prefix in E3. destruct E3 as (all & rest & E3 & Hpre & Hmin).
  apply run_vetted in E3. destruct E3 as [Hall _].
  unfold Pipeline.run_relationship_resolution, RelationshipResolver.run in E2.
  apply resolve_relationships_states in E2.
  destruct E2 as (updated & deduplicated & s1 & _ & _ & E2).
  apply consolidate_similar_spec in E2. destruct E2 as (Hedges & _ & _).
  split; [|split; [|split]].
  - apply Forall_forall. intros e He.
    eapply canonical_value_of_input; eassumption.
  - apply Forall_forall. intros d Hd.
    rewrite Forall_forall in Hall. apply Hall.
    unfold confident_enough in Hpre.
    assert (Hin : In d (discovered ++ rest)) by (apply in_or_app; left; exact Hd).
    rewrite <- Hpre in Hin. apply filter_In in Hin. apply Hin.
  - exact Hmin.
  - apply (NoDup_map_inv
             (fun k : string * PredicateType * string =>
                let '(s, p, o) := k in
                (if String.ltb o s then (o, s) else (s, o), p))).
    rewrite map_map. exact Hedges.
Qed.

Lemma run_result_is_consistent_witness :
  exists r,
    reference_resolve Pipeline.default_config Examples.churn MoreExamples.churn_edge
    = Ok r
    /\ Forall (fun e => In e Examples.churn) (Pipeline.canonical_entities r)
    /\ Forall (sound_proposal (Pipeline.canonical_entities r)
                 (Pipeline.consolidated_relationships r))
              (Pipeline.discovered_connections r)
    /\ Forall (fun d => Pipeline.min_discovery_confidence Pipeline.default_config
                        <= cd_confidence d)
              (Pipeline.discovered_connections r)
    /\ NoDup (map RelationshipResolver.canonical_key
                 (Pipeline.consolidated_relationships r)).
Proof.
  eexists. split; [vm_compute; reflexivity|].
  eapply (run_result_is_consistent (F := Reference.fuzz) (Mt := Reference.math)
            Pipeline.default_config Examples.churn MoreExamples.churn_edge).
  vm_compute. reflexivity.
Defined.
